(** * speechbox / lidbox: feature extraction and model command helpers

    A shallow embedding of
      - [lidbox/dataset/tf_util.py]        (tf_print, count_dim_sizes,
                                            make_label2onehot,
                                            extract_features),
      - [speechbox/preprocess/features.py] (mfcc, mfcc_deltas_012),
      - [speechbox/commands/model.py]      (create_model, get_loss_as_float,
                                            get_best_weights_checkpoint,
                                            evaluate_test_set, predict),
    the properties the specification states about them, and further
    properties read off the code.

    Python exceptions are values of [exn] carried by the [result] monad.
    Operations of TensorFlow, librosa and Keras are not part of the
    repository: the numeric ones are fields of an interface the embedding is
    parametric in, the structural ones (range, one_hot, argsort, gather,
    boolean_mask, slicing, hash tables) are written out. *)

From Stdlib Require Import ZArith List Ascii String Lia Permutation Sorted.
From Stdlib Require Import QArith_base Qpower Zify ZifyNat.
From stdpp Require Import base option list gmap strings fin_maps sorting.

Local Open Scope Z_scope.

(** ** Exceptions and the result monad *)

Inductive exn : Type :=
  | ValueError           (* float() on a malformed literal *)
  | KeyError             (* dict[key] on a missing key *)
  | TypeError            (* an operation applied to a value of the wrong type *)
  | IndexError           (* indexing past the end *)
  | AssertRankError      (* tf.debugging.assert_rank *)
  | AssertEqualError     (* tf.debugging.assert_equal *)
  | AssertGreaterError   (* tf.debugging.assert_greater *)
  | NonFiniteError       (* tf.debugging.assert_all_finite *)
  | FileNotFoundError    (* os.listdir on a directory that does not exist *)
  | InvalidArgument      (* a TensorFlow operation refusing its operands *)
  | FailedPrecondition.  (* hash table initialised with a key bound twice *)

Inductive result (A : Type) : Type :=
  | Ok (a : A)
  | Raise (e : exn).
Arguments Ok {A} a.
Arguments Raise {A} e.

#[global] Instance result_ret : MRet result := fun A a => Ok a.
#[global] Instance result_bind : MBind result := fun A B k r =>
  match r with
  | Ok a => k a
  | Raise e => Raise e
  end.

Definition assert (b : bool) (e : exn) : result unit :=
  if b then Ok tt else Raise e.

(** ** tf_util.make_label2onehot *)

Module LabelTable.

(** [tf.range(n)]: the int32 vector [0; 1; ...; n-1]. *)
Definition tf_range (n : nat) : list Z := Z.of_nat <$> seq 0 n.

(** [tf.lookup.StaticHashTable]: an immutable table with a default value. *)
Record StaticHashTable := {
  table : gmap string Z;
  default_value : Z;
}.

(** Inserting the pairs of a [KeyValueTensorInitializer] one after the other.
    The table refuses a key that is already bound to a different value. *)
Fixpoint initialize (kvs : list (string * Z)) (m : gmap string Z)
  : result (gmap string Z) :=
  match kvs with
  | [] => Ok m
  | (k, v) :: kvs' =>
      match m !! k with
      | None => initialize kvs' (<[k := v]> m)
      | Some v' => if Z.eqb v' v then initialize kvs' m
                   else Raise FailedPrecondition
      end
  end.

Definition mkStaticHashTable (keys : list string) (values : list Z) (d : Z)
  : result StaticHashTable :=
  m ← initialize (zip keys values) ∅;
  Ok {| table := m; default_value := d |}.

(** [table.lookup(key)] *)
Definition lookup (t : StaticHashTable) (key : string) : Z :=
  default (default_value t) (table t !! key).

(** [tf.one_hot(indices, depth)] with its default on and off values, 1 and 0:
    row r has [depth] entries, the one at position [indices[r]] is on. An
    index outside [0, depth) gives a row that is off everywhere. *)
Definition one_hot_row (depth : nat) (i : Z) : list Z :=
  (fun j => if Z.eqb (Z.of_nat j) i then 1 else 0) <$> seq 0 depth.

Definition one_hot (indices : list Z) (depth : nat) : list (list Z) :=
  one_hot_row depth <$> indices.

Definition make_label2onehot (labels : list string)
  : result (StaticHashTable * list (list Z)) :=
  let labels_enum := tf_range (length labels) in
  label2int ← mkStaticHashTable labels labels_enum
                 (Z.of_nat (length labels));
  let OH := one_hot labels_enum (length labels) in
  Ok (label2int, OH).

End LabelTable.

(** ** Python values, paths and strings used by commands/model.py *)

(** The values an experiment configuration (parsed YAML) and the keyword
    arguments of the Keras wrapper are made of. *)
#[warnings="-register-all"]
Inductive pyval : Type :=
  | VNone
  | VBool (b : bool)
  | VInt (z : Z)
  | VStr (s : string)
  | VDict (d : gmap string pyval).

Module Path.
Local Open Scope string_scope.

Fixpoint contains (c : ascii) (s : string) : bool :=
  match s with
  | EmptyString => false
  | String c' s' => Ascii.eqb c' c || contains c s'
  end.

Fixpoint endswith_sep (s : string) : bool :=
  match s with
  | EmptyString => false
  | String c EmptyString => Ascii.eqb c "/"
  | String _ s' => endswith_sep s'
  end.

(** [os.path.join(a, b)] of posixpath: an absolute [b] replaces [a]; the
    separator is added unless [a] is empty or already ends with it. *)
Definition join (a b : string) : string :=
  if String.prefix "/" b then b
  else if String.eqb a "" || endswith_sep a then a ++ b
  else a ++ "/" ++ b.

(** [os.path.basename(p)]: the text after the last separator. *)
Fixpoint basename (p : string) : string :=
  match p with
  | EmptyString => EmptyString
  | String c p' =>
      if contains "/" p' then basename p'
      else if Ascii.eqb c "/" then p' else p
  end.

End Path.

(** ** Python strings: str.split and float(str) *)

Module PyStr.
Local Open Scope string_scope.

(** [s.split(sep)] for a non-empty separator: occurrences are found from the
    left and do not overlap. [skip] counts the characters of the occurrence
    just found that are still to be passed over. (Python raises ValueError
    on an empty separator; both call sites pass a literal.) *)
Fixpoint split_go (sep : string) (skip : nat) (s : string) : list string :=
  match s with
  | EmptyString => [EmptyString]
  | String c s' =>
      match skip with
      | S k => split_go sep k s'
      | O =>
          if String.prefix sep s
          then EmptyString :: split_go sep (String.length sep - 1) s'
          else match split_go sep 0 s' with
               | piece :: pieces => String c piece :: pieces
               | [] => [String c EmptyString]
               end
      end
  end.

Definition split (s sep : string) : list string := split_go sep 0 s.

(** What [float(str)] reads once surrounding whitespace is stripped: a sign,
    then a special value or a decimal numeral. A decimal numeral stands for
    (-1)^negative * mantissa * 10^exp10. *)
Inductive float_literal : Type :=
  | LitNan
  | LitInf (negative : bool)
  | LitDec (negative : bool) (mantissa : N) (exp10 : Z).

Definition is_space (c : ascii) : bool :=
  let n := nat_of_ascii c in
  ((9 <=? n) && (n <=? 13) || (28 <=? n) && (n <=? 32))%nat.

Fixpoint lstrip (s : string) : string :=
  match s with
  | String c s' => if is_space c then lstrip s' else s
  | EmptyString => EmptyString
  end.

Fixpoint all_space (s : string) : bool :=
  match s with
  | String c s' => is_space c && all_space s'
  | EmptyString => true
  end.

Fixpoint rstrip (s : string) : string :=
  match s with
  | String c s' => if all_space s then EmptyString else String c (rstrip s')
  | EmptyString => EmptyString
  end.

Definition strip (s : string) : string := rstrip (lstrip s).

Definition digit_of (c : ascii) : option N :=
  let n := N_of_ascii c in
  if ((48 <=? n) && (n <=? 57))%N then Some (n - 48)%N else None.

Definition lower (c : ascii) : ascii :=
  let n := N_of_ascii c in
  if ((65 <=? n) && (n <=? 90))%N then ascii_of_N (n + 32) else c.

Fixpoint lowercase (s : string) : string :=
  match s with
  | String c s' => String (lower c) (lowercase s')
  | EmptyString => EmptyString
  end.

(** digit (["_"] digit)*: the value read so far, the number of digits read,
    and the text left. An underscore is passed only between two digits. *)
Fixpoint digitpart (acc : N) (count : nat) (s : string) : N * nat * string :=
  match s with
  | String c s' =>
      match digit_of c with
      | Some d => digitpart (acc * 10 + d)%N (S count) s'
      | None =>
          match count, s' with
          | S _, String c' _ =>
              if Ascii.eqb c "_" && bool_decide (is_Some (digit_of c'))
              then digitpart acc count s'
              else (acc, count, s)
          | _, _ => (acc, count, s)
          end
      end
  | EmptyString => (acc, count, s)
  end.

Definition sign_of (s : string) : bool * string :=
  match s with
  | String "-" s' => (true, s')
  | String "+" s' => (false, s')
  | _ => (false, s)
  end.

(** [e|E] [sign] digitpart, or nothing. *)
Definition exponent (s : string) : option (Z * string) :=
  match s with
  | String c s' =>
      if Ascii.eqb (lower c) "e" then
        let '(neg, s1) := sign_of s' in
        let '(e, n, rest) := digitpart 0 0 s1 in
        match n with
        | O => None
        | S _ => Some (if neg then - Z.of_N e else Z.of_N e, rest)
        end
      else Some (0, s)
  | EmptyString => Some (0, s)
  end.

Definition decimal (negative : bool) (s : string) : option float_literal :=
  let '(ip, n1, r1) := digitpart 0 0 s in
  let '(m, n1, n2, r2) :=
    match r1 with
    | String "." r =>
        let '(m, n2, r2) := digitpart ip 0 r in (m, n1, n2, r2)
    | _ => (ip, n1, O, r1)
    end in
  match (n1 + n2)%nat with
  | O => None
  | S _ =>
      match exponent r2 with
      | Some (e, EmptyString) => Some (LitDec negative m (e - Z.of_nat n2))
      | _ => None
      end
  end.

Definition parse_float (s : string) : option float_literal :=
  let '(negative, body) := sign_of (strip s) in
  let word := lowercase body in
  if String.eqb word "inf" || String.eqb word "infinity"
  then Some (LitInf negative)
  else if String.eqb word "nan" then Some LitNan
  else decimal negative body.

End PyStr.

(** The floating-point values themselves are not fixed here: a model of
    them says which value a literal denotes and how [<] compares values. *)
Class FloatModel := {
  float : Type;
  float_value : PyStr.float_literal → float;
  float_lt : float → float → bool;
}.

(** What the properties below ask of [<]: it is a strict order on the
    values it relates. (IEEE comparison is one, NaN included.) *)
Class FloatLaws `{FloatModel} : Prop := {
  float_lt_irrefl : ∀ x, float_lt x x = false;
  float_lt_trans : ∀ x y z,
    float_lt x y = true → float_lt y z = true → float_lt x z = true;
}.

(** [float(s)] *)
Definition py_float `{FloatModel} (s : string) : result float :=
  match PyStr.parse_float s with
  | Some lit => Ok (float_value lit)
  | None => Raise ValueError
  end.

(** [min(items, key=key)]: the first item is kept until a later one has a
    strictly smaller key; the key is computed once for every item, in
    order. *)
Fixpoint min_go `{FloatModel} {A} (key : A → result float)
    (best : A) (best_key : float) (items : list A) : result A :=
  match items with
  | [] => Ok best
  | x :: items' =>
      k ← key x;
      if float_lt k best_key then min_go key x k items'
      else min_go key best best_key items'
  end.

Definition py_min `{FloatModel} {A} (items : list A) (key : A → result float)
  : result A :=
  match items with
  | [] => Raise ValueError
  | x :: items' => k ← key x; min_go key x k items'
  end.

(** ** commands/model.py: Model.create_model *)

Module Model.
Local Open Scope string_scope.

(** The parsed command line ([self.args]). *)
Record Args := {
  cache_dir : string;
  no_save_model : bool;
  model_id_arg : option string;
  train : bool;
  evaluate_test_set_arg : string;
  predict : option string;
  verbosity : Z;
}.

(** [models.KerasWrapper(model_id, **callbacks_kwargs)]: the wrapper keeps
    the keyword arguments it was built from. *)
Record KerasWrapper := {
  kw_model_id : string;
  kw_callbacks_kwargs : gmap string pyval;
}.

(** [d.get(key)] and [d.get(key, default)] *)
Definition dict_get (d : gmap string pyval) (key : string) (dflt : pyval)
  : pyval :=
  default dflt (d !! key).

(** [dict(base, **overrides)]: [overrides] must be a mapping; its entries
    replace those of [base] with the same key. *)
Definition dict_with (base : gmap string pyval) (overrides : pyval)
  : result (gmap string pyval) :=
  match overrides with
  | VDict o => Ok (o ∪ base)
  | _ => Raise TypeError
  end.

Definition checkpoint_format : string :=
  "epoch{epoch:02d}_loss{val_loss:.2f}.hdf5".

Definition default_tensorboard_config (tensorboard_dir : string)
  : gmap string pyval :=
  {[ "log_dir" := VStr tensorboard_dir;
     "write_graph" := VBool false ]}.

Definition default_checkpoints_config (checkpoint_dir : string)
  : gmap string pyval :=
  {[ "filepath" := VStr (Path.join checkpoint_dir checkpoint_format);
     "load_weights_on_restart" := VBool true;
     "mode" := VStr "min";
     "monitor" := VStr "val_loss";
     "save_best_only" := VBool true;
     "verbose" := VInt 0 ]}.

(** [create_model]. [now_str] is the formatted clock reading. The result is
    the wrapper together with the named directories created on the way
    ([self.make_named_dir(path, name)], in call order). The messages printed
    at verbosity > 1 are left out. *)
Definition create_model (args : Args) (now_str : string)
    (model_id : string) (model_config : gmap string pyval)
  : result (KerasWrapper * list (string * string)) :=
  let model_cache_dir := Path.join (cache_dir args) model_id in
  let tensorboard_dir :=
    Path.join (Path.join (Path.join model_cache_dir "tensorboard") "log")
              now_str in
  tensorboard_config ←
    dict_with (default_tensorboard_config tensorboard_dir)
              (dict_get model_config "tensorboard" (VDict ∅));
  let checkpoint_dir := Path.join model_cache_dir "checkpoints" in
  checkpoints_config ←
    dict_with (default_checkpoints_config checkpoint_dir)
              (dict_get model_config "checkpoints" (VDict ∅));
  let callbacks_kwargs : gmap string pyval :=
    {[ "checkpoints" :=
         (if no_save_model args then VNone else VDict checkpoints_config);
       "early_stopping" := dict_get model_config "early_stopping" VNone;
       "tensorboard" := VDict tensorboard_config ]} in
  let '(callbacks_kwargs, made) :=
    if negb (train args) then
      (({[ "device_str" := dict_get model_config "eval_device" VNone ]}
          : gmap string pyval),
       [])
    else
      (callbacks_kwargs,
       (tensorboard_dir, "tensorboard") ::
       (if negb (no_save_model args)
        then [(checkpoint_dir, "checkpoints")] else []))
  in
  Ok ({| kw_model_id := model_id; kw_callbacks_kwargs := callbacks_kwargs |},
      made).

(** *** get_loss_as_float and get_best_weights_checkpoint *)

(** [checkpoint_filename.split("loss")[-1].split(".hdf5")[0]] *)
Definition loss_text (checkpoint_filename : string) : string :=
  List.hd "" (PyStr.split (List.last (PyStr.split checkpoint_filename "loss") "")
                          ".hdf5").

Definition get_loss_as_float `{FloatModel} (checkpoint_filename : string)
  : result float :=
  py_float (loss_text checkpoint_filename).

(** The file system as far as [os.listdir] sees it: the entries of every
    existing directory, in listing order. *)
Definition listdir (fs : gmap string (list string)) (dir : string)
  : result (list string) :=
  match fs !! dir with
  | Some entries => Ok entries
  | None => Raise FileNotFoundError
  end.

Definition checkpoints_dir_of (args : Args) (model_id : string) : string :=
  Path.join (Path.join (cache_dir args) model_id) "checkpoints".

(** The result is the integer 1 or the path of a checkpoint. *)
Definition get_best_weights_checkpoint `{FloatModel}
    (fs : gmap string (list string)) (args : Args) (model_id : string)
  : result pyval :=
  let checkpoints_dir := checkpoints_dir_of args model_id in
  all_checkpoints ← listdir fs checkpoints_dir;
  match all_checkpoints with
  | [] => Ok (VInt 1)
  | _ :: _ =>
      best ← py_min all_checkpoints get_loss_as_float;
      let best_checkpoint := Path.join checkpoints_dir best in
      Ok (VStr best_checkpoint)
  end.

(** *** evaluate_test_set *)

(** One entry of [self.state["data"]]. *)
Record SplitData := {
  paths : list string;
  labels : list string;
  features : list (string * string);
}.

(** The parts of the toolkit [evaluate_test_set] calls into. *)
Class Toolkit := {
  Utterance : Type;
  Dataset : Type;
  FeaturesMeta : Type;
  ConfusionMatrix : Type;
  (* system.load_features_as_dataset(files, model_config) *)
  load_features_as_dataset :
    list string → gmap string pyval → Dataset * FeaturesMeta;
  (* transformations.files_to_utterances(paths, config), as the list of the
     pairs it yields *)
  files_to_utterances :
    list string → gmap string pyval → list (string * option Utterance);
  (* model.evaluate_confusion_matrix(utterances, real_labels), for a model
     holding the given weights *)
  evaluate_confusion_matrix :
    KerasWrapper → pyval → list Utterance → list Z → ConfusionMatrix;
}.

(** The command object ([self]). *)
Record Command := {
  args : Args;
  experiment_config : gmap string pyval;
  model_id : string;
  state_model : KerasWrapper;
  state_data_ok : bool;                   (* self.state_data_ok() *)
  state_data : gmap string SplitData;     (* self.state["data"] *)
  label_to_index : list (string * Z);     (* self.state["label_to_index"] *)
}.

(** Calls that act on the model or the file system, in the order made. *)
Inductive event `{Toolkit} : Type :=
  | Prepare (meta : FeaturesMeta) (model_config : gmap string pyval)
  | LoadWeights (checkpoint : pyval)
  | Evaluate (test_set : Dataset) (model_config : gmap string pyval)
  | WriteConfusionMatrix (cm : ConfusionMatrix) (label_names : list string)
                         (figure_path : string).

(** [d[key]] on an insertion-ordered dict with string keys. *)
Fixpoint getitem {V} (d : list (string * V)) (key : string) : result V :=
  match d with
  | [] => Raise KeyError
  | (k, v) :: d' => if String.eqb k key then Ok v else getitem d' key
  end.

(** The loop over [zip(labels, transformer)]: an entry without an utterance
    is passed over, any other appends its label and its utterance. *)
Definition collect_step `{Toolkit}
    (acc : list string * list Utterance)
    (item : string * (string * option Utterance))
  : list string * list Utterance :=
  let '(test_labels, test_utterances) := acc in
  let '(label, (path, utterance)) := item in
  match utterance with
  | None => (test_labels, test_utterances)
  | Some u => ((test_labels ++ [label])%list, (test_utterances ++ [u])%list)
  end.

Definition collect `{Toolkit}
    (items : list (string * (string * option Utterance)))
  : list string * list Utterance :=
  foldl collect_step ([], []) items.

Definition path_of (v : pyval) : result string :=
  match v with
  | VStr s => Ok s
  | _ => Raise TypeError
  end.

(** The value returned is [Some 1] for [return 1] and [None] when the body
    runs to its end. The messages printed are left out. *)
Definition evaluate_test_set `{FloatModel} `{Toolkit}
    (self : Command) (fs : gmap string (list string))
  : result (option Z * list event) :=
  let args := args self in
  let model := state_model self in
  model_config ← match experiment_config self !! "model" with
                 | Some (VDict d) => Ok d
                 | Some _ => Raise TypeError
                 | None => Raise KeyError
                 end;
  if negb (state_data_ok self) then Ok (Some 1, []) else
  match state_data self !! "test" with
  | None => Ok (Some 1, [])
  | Some test_set_data =>
      let '(test_set, features_meta) :=
        load_features_as_dataset (features test_set_data).*2 model_config in
      best_checkpoint ← get_best_weights_checkpoint fs args (model_id self);
      let calls := [Prepare features_meta model_config;
                    LoadWeights best_checkpoint] in
      if String.eqb (evaluate_test_set_arg args) "loss" then
        Ok (None, (calls ++ [Evaluate test_set model_config])%list)
      else if String.eqb (evaluate_test_set_arg args) "confusion-matrix" then
        let transformer :=
          files_to_utterances (paths test_set_data) (experiment_config self) in
        let '(test_labels, test_utterances) :=
          collect (zip (labels test_set_data) transformer) in
        real_labels ← mapM (getitem (label_to_index self)) test_labels;
        let cm :=
          evaluate_confusion_matrix model best_checkpoint
                                    test_utterances real_labels in
        checkpoint_path ← path_of best_checkpoint;
        let figure_name :=
          "confusion-matrix_test-set_model-" ++
          Path.basename checkpoint_path ++ ".svg" in
        let cm_figure_path := Path.join (cache_dir args) figure_name in
        Ok (None,
            (calls ++ [WriteConfusionMatrix cm (label_to_index self).*1
                                            cm_figure_path])%list)
      else
        Ok (None, calls)
  end.

End Model.

(** ** Tensors *)

(** A dense tensor: its shape and its entries in row-major order. *)
Record tensor (A : Type) := Tensor {
  shape : list nat;
  values : list A;
}.
Arguments Tensor {A} shape values.
Arguments shape {A} t.
Arguments values {A} t.

Definition rank {A} (t : tensor A) : nat := length (shape t).

Definition tensor_map {A B} (f : A → B) (t : tensor A) : tensor B :=
  Tensor (shape t) (f <$> values t).

(** The rows of the last axis: consecutive runs of [n] entries. *)
Fixpoint chunks_go {A} (fuel n : nat) (l : list A) : list (list A) :=
  match fuel, l with
  | S fuel', _ :: _ => take n l :: chunks_go fuel' n (drop n l)
  | _, _ => []
  end.

Definition chunks {A} (n : nat) (l : list A) : list (list A) :=
  chunks_go (length l) n l.

(** A bound of a Python slice, clamped to an axis of length [n]: negative
    bounds count from the end. *)
Definition slice_bound (n : nat) (i : Z) : nat :=
  if i <? 0 then Z.to_nat (Z.max (i + Z.of_nat n) 0)
  else Z.to_nat (Z.min i (Z.of_nat n)).

(** [row[start:stop]]; [None] is an omitted bound. *)
Definition slice {A} (start stop : option Z) (row : list A) : list A :=
  let n := length row in
  let b := from_option (slice_bound n) 0%nat start in
  let e := from_option (slice_bound n) n stop in
  take (e - b) (drop b row).

Definition slice_len (start stop : option Z) (n : nat) : nat :=
  let b := from_option (slice_bound n) 0%nat start in
  let e := from_option (slice_bound n) n stop in
  (e - b)%nat.

(** [t[..., start:stop]]: the slice is taken in every row of the last axis. *)
Definition slice_last {A} (start stop : option Z) (t : tensor A)
  : result (tensor A) :=
  match reverse (shape t) with
  | [] => Raise IndexError
  | n :: outer =>
      Ok (Tensor (reverse outer ++ [slice_len start stop n])
                 (mjoin (slice start stop <$> chunks n (values t))))
  end.

(** ** tf_util.extract_features *)

(** The numeric operations [extract_features] obtains from TensorFlow and
    from the [lidbox.features] package. Keyword arguments are passed on as
    the dictionaries they come in. *)
Class AudioOps := {
  scalar : Type;                                (* float32 *)
  is_finite : scalar → bool;
  scalar_add : scalar → scalar → scalar;
  scalar_log : scalar → scalar;
  scalar_1e_6 : scalar;                         (* the literal 1e-6 *)
  spectrograms :
    tensor scalar → Z → gmap string pyval → tensor scalar;
  melspectrograms :
    tensor scalar → Z → gmap string pyval → tensor scalar;
  mfccs_from_log_mel_spectrograms : tensor scalar → tensor scalar;
  power_to_db : tensor scalar → gmap string pyval → tensor scalar;
  feature_scaling : tensor scalar → gmap string pyval → tensor scalar;
  window_normalization : tensor scalar → gmap string pyval → tensor scalar;
}.

Module TfUtil.
Local Open Scope string_scope.

(** A slice bound taken from a dictionary of keyword arguments. *)
Definition as_bound (v : pyval) : result (option Z) :=
  match v with
  | VInt z => Ok (Some z)
  | VNone => Ok None
  | _ => Raise TypeError
  end.

(** [if kwargs:] *)
Definition truthy (kwargs : gmap string pyval) : bool :=
  bool_decide (kwargs ≠ ∅).

Definition all_finite `{AudioOps} (t : tensor scalar) : bool :=
  forallb is_finite (values t).

(** [feattype in (...)] *)
Definition one_of (feattype : string) (names : list string) : bool :=
  existsb (String.eqb feattype) names.

Definition extract_features `{AudioOps}
    (signals : tensor scalar) (sample_rates : list Z) (feattype : string)
    (spec_kwargs melspec_kwargs mfcc_kwargs db_spec_kwargs
     feat_scale_kwargs window_norm_kwargs : gmap string pyval)
  : result (tensor scalar) :=
  _ ← assert (rank signals =? 2)%nat AssertRankError;
  first_rate ← match sample_rates with
               | [] => Raise IndexError
               | r :: _ => Ok r
               end;
  _ ← assert (forallb (Z.eqb first_rate) sample_rates) AssertEqualError;
  let sample_rate := first_rate in
  let feat := spectrograms signals sample_rate spec_kwargs in
  feat ←
    (if one_of feattype ["melspectrogram"; "logmelspectrogram"; "mfcc"] then
       let feat := melspectrograms feat sample_rate melspec_kwargs in
       if one_of feattype ["logmelspectrogram"; "mfcc"] then
         let feat :=
           tensor_map (λ x, scalar_log (scalar_add x scalar_1e_6)) feat in
         if String.eqb feattype "mfcc" then
           coef_begin ←
             as_bound (default (VInt 1) (mfcc_kwargs !! "coef_begin"));
           coef_end ←
             as_bound (default (VInt 13) (mfcc_kwargs !! "coef_end"));
           let mfccs := mfccs_from_log_mel_spectrograms feat in
           slice_last coef_begin coef_end mfccs
         else Ok feat
       else Ok feat
     else if one_of feattype ["db_spectrogram"] then
       Ok (power_to_db feat db_spec_kwargs)
     else Ok feat);
  let feat :=
    if truthy feat_scale_kwargs
    then feature_scaling feat feat_scale_kwargs else feat in
  let feat :=
    if truthy window_norm_kwargs
    then window_normalization feat window_norm_kwargs else feat in
  _ ← assert (all_finite feat) NonFiniteError;
  Ok feat.

End TfUtil.

(** ** preprocess/features.py *)

Module Features.

(** A two-dimensional numpy array: its shape and its rows. *)
Record ndarray (A : Type) := NdArray {
  nrows : nat;
  ncols : nat;
  cells : list (list A);
}.
Arguments NdArray {A} nrows ncols cells.
Arguments nrows {A} _.
Arguments ncols {A} _.
Arguments cells {A} _.

(** [a[i, j]] *)
Definition cell {A} (a : ndarray A) (i j : nat) : option A :=
  row ← cells a !! i; row !! j.

(** [a.T]. ([pad] would fill in for a row that is too short; the rows of
    an array never are.) *)
Definition transpose {A} (pad : A) (a : ndarray A) : ndarray A :=
  NdArray (ncols a) (nrows a)
          ((λ j, (λ row, default pad (row !! j)) <$> cells a)
             <$> seq 0 (ncols a)).

(** [np.empty((r, c))]: every cell holds whatever was there, [uninit]. *)
Definition np_empty {A} (uninit : A) (r c : nat) : ndarray A :=
  NdArray r c (replicate r (replicate c uninit)).

(** Row [i] is one of [start, start + step, start + 2 step, ...]. *)
Definition selected (start step i : nat) : bool :=
  (start <=? i)%nat && ((i - start) mod step =? 0)%nat.

(** [dst[start::step] = src]: the selected rows of [dst] are replaced by
    the rows of [src], in order. The shape of [src] must be that of the
    selection (numpy would also stretch a source with an axis of length
    one; the sources here come with the shape of the array they were
    computed from). *)
Definition assign_rows {A} (start step : nat) (src dst : ndarray A)
  : result (ndarray A) :=
  let count := length (filter (λ i, selected start step i = true)
                              (seq 0 (nrows dst))) in
  if (nrows src =? count)%nat && (ncols src =? ncols dst)%nat then
    Ok (NdArray (nrows dst) (ncols dst)
          (imap (λ i row,
                   if selected start step i
                   then default row (cells src !! ((i - start) / step)%nat)
                   else row)
                (cells dst)))
  else Raise ValueError.

(** What the two extractors obtain from librosa and numpy arithmetic. *)
Class Librosa := {
  sample : Type;
  uninit : sample;
  (* librosa.feature.melspectrogram(y=signal, sr=rate) *)
  feature_melspectrogram : list sample → Z → ndarray sample;
  (* S ** p *)
  power : ndarray sample → sample → ndarray sample;
  (* librosa.power_to_db(S, ref=np.max) *)
  power_to_db_max : ndarray sample → ndarray sample;
  (* librosa.feature.mfcc(y=signal, sr=rate, S=S, **kwargs) *)
  feature_mfcc :
    list sample → Z → ndarray sample → gmap string pyval → ndarray sample;
  (* librosa.util.normalize(M, norm=2.0, axis=0) *)
  util_normalize : ndarray sample → ndarray sample;
  (* librosa.feature.delta(M, order=order, width=width) *)
  feature_delta : ndarray sample → Z → Z → ndarray sample;
}.

(** [mfcc(utterance, normalize, mel_spec_power, **kwargs)] *)
Definition mfcc `{Librosa} (utterance : list sample * Z)
    (normalize : bool) (mel_spec_power : sample)
    (kwargs : gmap string pyval) : ndarray sample :=
  let '(signal, rate) := utterance in
  let S := feature_melspectrogram signal rate in
  let S := power_to_db_max (power S mel_spec_power) in
  let mfccs := feature_mfcc signal rate S kwargs in
  let mfccs := if normalize then util_normalize mfccs else mfccs in
  transpose uninit mfccs.

(** [mfcc_deltas_012(utterance, **kwargs)], the keyword arguments being
    those of [mfcc]. *)
Definition mfcc_deltas_012 `{Librosa} (utterance : list sample * Z)
    (normalize : bool) (mel_spec_power : sample)
    (kwargs : gmap string pyval) : result (ndarray sample) :=
  let mfccs :=
    transpose uninit (mfcc utterance normalize mel_spec_power kwargs) in
  let features := np_empty uninit (3 * nrows mfccs) (ncols mfccs) in
  features ← assign_rows 0 3 mfccs features;
  features ← assign_rows 1 3 (feature_delta mfccs 1 3) features;
  features ← assign_rows 2 3 (feature_delta mfccs 2 5) features;
  Ok (transpose uninit features).

End Features.

(** ** tf_util.count_dim_sizes *)

Module DimSizes.

(** int32 arithmetic wraps around. *)
Definition int32_max : Z := 2147483647.

Definition wrap32 (z : Z) : Z := (z + 2 ^ 31) mod 2 ^ 32 - 2 ^ 31.

(** [ds.reduce(initial_state, reduce_func)] *)
Fixpoint reduce {S A} (f : S → A → result S) (state : S) (ds : list A)
  : result S :=
  match ds with
  | [] => Ok state
  | x :: ds' => state' ← f state x; reduce f state' ds'
  end.

(** Of an element of the dataset, a tuple of tensors, only the shapes are
    read: an element is given as the shapes of its tensors. *)
Definition get_shape_at_index (ds_element_index : nat) (t : list (list Z))
  : result (list Z) :=
  match t !! ds_element_index with
  | Some shape => Ok shape
  | None => Raise IndexError
  end.

(** [tf.math.maximum(acc, shape)] on two vectors of one length. *)
Definition maximum (acc shape : list Z) : result (list Z) :=
  if (length acc =? length shape)%nat
  then Ok (zip_with Z.max acc shape)
  else Raise InvalidArgument.

(** [tf.math.reduce_max] of an int32 vector. *)
Definition reduce_max (v : list Z) : Z := foldr Z.max (- 2 ^ 31) v.

(** [tf.zeros((rows, cols), dtype=tf.int32)] *)
Definition zeros (rows : nat) (cols : Z) : result (list (list Z)) :=
  if cols <? 0 then Raise InvalidArgument
  else Ok (replicate rows (replicate (Z.to_nat cols) 0)).

(** One update of [tf.tensor_scatter_nd_add]: [counter[i, j] += update]. *)
Definition add_at (counter : list (list Z)) (index : Z * Z) (update : Z)
  : result (list (list Z)) :=
  let '(i, j) := index in
  if (0 <=? i) && (0 <=? j) then
    match counter !! Z.to_nat i with
    | Some row =>
        match row !! Z.to_nat j with
        | Some c =>
            Ok (<[Z.to_nat i := <[Z.to_nat j := wrap32 (c + update)]> row]>
                  counter)
        | None => Raise InvalidArgument
        end
    | None => Raise InvalidArgument
    end
  else Raise InvalidArgument.

Definition tensor_scatter_nd_add (counter : list (list Z))
    (indices : list (Z * Z)) (updates : list Z) : result (list (list Z)) :=
  reduce (λ c '(index, update), add_at c index update) counter
         (zip indices updates).

(** [tf.stack((a, b), axis=1)] of two vectors of one length. *)
Definition stack_columns (a b : list Z) : result (list (Z * Z)) :=
  if (length a =? length b)%nat then Ok (zip a b)
  else Raise InvalidArgument.

(** [tf.argsort(row, direction="DESCENDING")]: the positions of the row,
    those of larger entries first and, among equal entries, the lower
    position first. *)
Fixpoint insert_descending (row : list Z) (i : nat) (sorted : list nat)
  : list nat :=
  match sorted with
  | [] => [i]
  | j :: rest =>
      if default 0 (row !! j) <=? default 0 (row !! i)
      then i :: sorted
      else j :: insert_descending row i rest
  end.

Definition argsort_descending (row : list Z) : list nat :=
  foldr (insert_descending row) [] (seq 0 (length row)).

(** [tf.gather(row, indices)] *)
Definition gather (row : list Z) (indices : list nat) : list Z :=
  (λ j, default 0 (row !! j)) <$> indices.

(** One row of the ragged result: the pairs [count, size] whose count is
    positive. *)
Definition masked_pairs (counts : list Z) (indices : list nat)
  : list (Z * Z) :=
  filter (λ p, 0 < p.1) (zip counts (Z.of_nat <$> indices)).

Definition count_dim_sizes (ds : list (list (list Z)))
    (ds_element_index : nat) (ndims : Z)
  : result (list (list (Z * Z))) :=
  _ ← assert (0 <? ndims) AssertGreaterError;
  shapes_ds ← mapM (get_shape_at_index ds_element_index) ds;
  let ones := replicate (Z.to_nat ndims) 1 in
  let shape_indices := LabelTable.tf_range (Z.to_nat ndims) in
  let accumulate_dim_size_counts := λ counter shape,
    enumerated_shape ← stack_columns shape_indices shape;
    tensor_scatter_nd_add counter enumerated_shape ones in
  max_sizes ← reduce maximum (replicate (Z.to_nat ndims) 0) shapes_ds;
  let max_max_size := reduce_max max_sizes in
  counter ← zeros (Z.to_nat ndims) (wrap32 (max_max_size + 1));
  size_counts ← reduce accumulate_dim_size_counts counter shapes_ds;
  let sorted_size_indices := argsort_descending <$> size_counts in
  let sorted_size_counts :=
    zip_with gather size_counts sorted_size_indices in
  Ok (zip_with masked_pairs sorted_size_counts sorted_size_indices).

End DimSizes.

(** ** str.format, as far as [checkpoint_format] needs it *)

Module PyFormat.
Local Open Scope string_scope.

(** A float as the specification [.2f] shows it: a special value, or a
    sign and the magnitude rounded to hundredths. *)
Inductive fixed2 : Type :=
  | FixNan
  | FixInf (negative : bool)
  | FixDec (negative : bool) (hundredths : N).

(** A keyword argument of [format]. *)
Inductive arg : Type :=
  | AInt (z : Z)
  | AFloat (x : fixed2).

(** The decimal digits of [n], the most significant first. The number of
    binary digits bounds the number of decimal ones. *)
Fixpoint digits_go (fuel : nat) (n : N) (acc : list N) : list N :=
  match fuel with
  | O => n :: acc
  | S fuel' =>
      if (n <? 10)%N then n :: acc
      else digits_go fuel' (n / 10)%N ((n mod 10)%N :: acc)
  end.

Definition digits (n : N) : list N := digits_go (N.to_nat (N.log2 n)) n [].

Definition digit_char (d : N) : ascii := ascii_of_N (48 + d).

Definition numeral (ds : list N) : string :=
  foldr (λ d s, String (digit_char d) s) "" ds.

Fixpoint zero_fill (k : nat) (s : string) : string :=
  match k with
  | O => s
  | S k' => String "0" (zero_fill k' s)
  end.

(** [format(z, "0<width>d")]: the zeros go between the sign and the
    digits, and the sign counts for the width. *)
Definition format_0d (width : nat) (z : Z) : string :=
  let ds := numeral (digits (Z.abs_N z)) in
  if (z <? 0)%Z
  then String "-" (zero_fill (width - 1 - String.length ds) ds)
  else zero_fill (width - String.length ds) ds.

(** [format(x, ".2f")] *)
Definition format_2f (x : fixed2) : string :=
  match x with
  | FixNan => "nan"
  | FixInf negative => if negative then "-inf" else "inf"
  | FixDec negative h =>
      (if negative then "-" else "") ++
      numeral (digits (h / 100)) ++ "." ++
      numeral [(h mod 100 / 10)%N; (h mod 10)%N]
  end.

(** One replacement field. Only the two specifications the checkpoint
    format uses are covered; [None] stands for every other case. *)
Definition format_field (value : arg) (spec : string) : option string :=
  match value with
  | AInt z => if String.eqb spec "02d" then Some (format_0d 2 z) else None
  | AFloat x => if String.eqb spec ".2f" then Some (format_2f x) else None
  end.

(** Where the scan of the format string stands. *)
Inductive mode : Type :=
  | Text                            (* outside a replacement field *)
  | Name (name : string)            (* after "{": reading the field name *)
  | Spec (name spec : string).      (* after ":": reading the specification *)

Fixpoint snoc (s : string) (c : ascii) : string :=
  match s with
  | EmptyString => String c EmptyString
  | String x s' => String x (snoc s' c)
  end.

(** [fmt.format] with keyword arguments, for a format string of literal
    text and fields of the form {name:spec}. [None] stands for a missing
    argument and for everything outside this form (escaped or unbalanced
    braces, fields without a specification, conversions). *)
Fixpoint format_go (kwargs : gmap string arg) (m : mode) (s : string)
  : option string :=
  match s with
  | EmptyString => match m with Text => Some "" | _ => None end
  | String c s' =>
      match m with
      | Text =>
          if Ascii.eqb c "{" then format_go kwargs (Name "") s'
          else if Ascii.eqb c "}" then None
          else String c <$> format_go kwargs Text s'
      | Name name =>
          if Ascii.eqb c ":" then format_go kwargs (Spec name "") s'
          else if Ascii.eqb c "}" then None
          else format_go kwargs (Name (snoc name c)) s'
      | Spec name spec =>
          if Ascii.eqb c "}" then
            value ← kwargs !! name;
            field ← format_field value spec;
            rest ← format_go kwargs Text s';
            Some (field ++ rest)
          else format_go kwargs (Spec name (snoc spec c)) s'
      end
  end.

Definition format (fmt : string) (kwargs : gmap string arg) : option string :=
  format_go kwargs Text fmt.

End PyFormat.

(** ** tf_util.tf_print *)

Module TfPrint.
Local Open Scope string_scope.

(** What a keyword argument of [tf.print] can be. *)
Inductive kwarg : Type :=
  | KInt (z : Z)
  | KStr (s : string)
  | KStream (name : string).     (* sys.stdout, sys.stderr, a file *)

(** How a call ends: with the call of [tf.print] it forwards to, or with
    the NameError of a global name that is not bound. *)
Inductive outcome (A : Type) : Type :=
  | Printed (args : list A) (kwargs : gmap string kwarg)
  | NameError (name : string).
Arguments Printed {A} args kwargs.
Arguments NameError {A} name.

(** [tf_print], called with positional and keyword arguments. The module
    imports tensorflow and two lidbox packages and nothing else: the name
    [sys] that the default output stream is read from is not bound. *)
Definition tf_print {A} (args : list A) (kwargs : gmap string kwarg)
  : outcome A :=
  let kwargs :=
    if decide (is_Some (kwargs !! "summarize")) then kwargs
    else <["summarize" := KInt (-1)]> kwargs in
  if decide (is_Some (kwargs !! "output_stream")) then Printed args kwargs
  else NameError "sys".

End TfPrint.

(** ** tf.math.argmax, as the doctest of make_label2onehot uses it *)

(** The position of the largest entry, the first one among equals. *)
Fixpoint argmax_go (best_at : nat) (best : Z) (i : nat) (row : list Z) : nat :=
  match row with
  | [] => best_at
  | x :: row' =>
      if best <? x then argmax_go i x (S i) row'
      else argmax_go best_at best (S i) row'
  end.

Definition argmax (row : list Z) : nat :=
  match row with
  | [] => 0%nat
  | x :: row' => argmax_go 0 x 1 row'
  end.

(** ** commands/model.py: predict *)

Module ModelPredict.
Import Model.
Local Open Scope string_scope.

(** What [predict] calls into besides the parts of [Toolkit]. *)
Class PredictToolkit `{Toolkit} := {
  Score : Type;
  (* system.load_features_meta(features) *)
  load_features_meta : list (string * string) → FeaturesMeta;
  (* list(system.load_audiofile_paths(args.predict)) *)
  load_audiofile_paths : option string → list string;
  (* model.predict(utterances), for a model holding the given weights: a
     row of scores for each utterance *)
  model_predict : KerasWrapper → pyval → list Utterance → list (list Score);
  (* "{:8.3f}".format(p) *)
  format_8_3f : Score → string;
}.

(** What a run does to the model and prints, in order. The messages that
    depend on the verbosity are left out. *)
Inductive output `{PredictToolkit} : Type :=
  | PredictPrepare (meta : FeaturesMeta) (model_config : pyval)
  | PredictLoadWeights (checkpoint : pyval)
  | Print (line : string).

(** [sorted(items)]: a stable sort that compares with [<] only. An item is
    put behind the items it is not smaller than. *)
Fixpoint insort {A} (lt : A → A → bool) (x : A) (l : list A) : list A :=
  match l with
  | [] => [x]
  | y :: l' => if lt x y then x :: l else y :: insort lt x l'
  end.

Definition py_sorted {A} (lt : A → A → bool) (items : list A) : list A :=
  foldl (λ acc x, insort lt x acc) [] items.

(** [(i, a) < (j, b)] on tuples of an int and a str: the first components
    decide unless they are equal. *)
Definition tuple_lt (p q : Z * string) : bool :=
  if (p.1 =? q.1)%Z then String.ltb p.2 q.2 else (p.1 <? q.1)%Z.

(** [d[k] = v] on an insertion-ordered dict: a key that is present keeps
    its place. *)
Fixpoint dict_set (d : list (Z * string)) (k : Z) (v : string)
  : list (Z * string) :=
  match d with
  | [] => [(k, v)]
  | (k', v') :: d' =>
      if (k' =? k)%Z then (k', v) :: d' else (k', v') :: dict_set d' k v
  end.

(** [collections.OrderedDict(pairs)] *)
Definition ordered_dict (pairs : list (Z * string)) : list (Z * string) :=
  foldl (λ d '(k, v), dict_set d k v) [] pairs.

Definition index_to_label (label_to_index : list (string * Z))
  : list (Z * string) :=
  ordered_dict (py_sorted tuple_lt ((λ '(label, i), (i, label))
                                      <$> label_to_index)).

(** ["{:>8s}".format(s)]: to the right in a field of eight places; a longer
    text is not cut. *)
Definition format_r8s (s : string) : string :=
  String.concat "" (replicate (8 - String.length s)%nat " ") ++ s.

(** The loop over what [files_to_utterances] yields. *)
Definition extract_step `{Toolkit}
    (acc : list Utterance * list string) (item : string * option Utterance)
  : list Utterance * list string :=
  let '(utterances, extracted_paths) := acc in
  let '(path, utterance) := item in
  match utterance with
  | None => (utterances, extracted_paths)
  | Some u => ((utterances ++ [u])%list, (extracted_paths ++ [path])%list)
  end.

(** The three lines printed for one path and its prediction. *)
Definition report `{PredictToolkit} (index_to_label : list (Z * string))
    (item : string * list Score) : list string :=
  let '(path, prediction) := item in
  ["'" ++ path ++ "':";
   String.concat "" (format_r8s <$> index_to_label.*2);
   String.concat "" (format_8_3f <$> prediction)].

Definition predict `{FloatModel} `{PredictToolkit}
    (self : Command) (fs : gmap string (list string))
  : result (list output) :=
  let args := args self in
  let config := experiment_config self in
  model_config ← match config !! "model" with
                 | Some v => Ok v
                 | None => Raise KeyError
                 end;
  let model := state_model self in
  training ← match state_data self !! "training" with
              | Some d => Ok d
              | None => Raise KeyError
              end;
  let features_meta := load_features_meta (features training) in
  best_checkpoint ← get_best_weights_checkpoint fs args (model_id self);
  let paths := load_audiofile_paths (Model.predict args) in
  let '(utterances, extracted_paths) :=
    foldl extract_step ([], []) (files_to_utterances paths config) in
  let index_to_label := index_to_label (label_to_index self) in
  let lines :=
    mjoin (report index_to_label
             <$> zip extracted_paths
                     (model_predict model best_checkpoint utterances)) in
  Ok ([PredictPrepare features_meta model_config;
       PredictLoadWeights best_checkpoint] ++ (Print <$> lines))%list.

End ModelPredict.

(** * Vocabulary of the properties, and stand-ins for running the
      definitions *)

(** ** A model of floats for running the definitions: exact decimals *)

Module ExactFloat.

(** Values are exact rationals, the two infinities and NaN. Rounding to
    binary64 is not part of this model. *)
Inductive xfloat : Type :=
  | XNan
  | XInf (negative : bool)
  | XFin (q : Q).

Definition xvalue (lit : PyStr.float_literal) : xfloat :=
  match lit with
  | PyStr.LitNan => XNan
  | PyStr.LitInf negative => XInf negative
  | PyStr.LitDec negative m e =>
      let q := Qmult (inject_Z (Z.of_N m)) (Qpower (inject_Z 10) e) in
      XFin (if negative then Qopp q else q)
  end.

Definition Qltb (a b : Q) : bool := negb (Qle_bool b a).

(** [x < y]: false whenever NaN takes part. *)
Definition xlt (x y : xfloat) : bool :=
  match x, y with
  | XNan, _ | _, XNan => false
  | XInf n1, XInf n2 => n1 && negb n2
  | XInf n, XFin _ => n
  | XFin _, XInf n => negb n
  | XFin a, XFin b => Qltb a b
  end.

End ExactFloat.

#[local] Instance exact_float : FloatModel := {|
  float := ExactFloat.xfloat;
  float_value := ExactFloat.xvalue;
  float_lt := ExactFloat.xlt;
|}.

Section CreateModelVocabulary.
Import Model.
Local Open Scope string_scope.

Definition example_args : Args :=
  {| cache_dir := "/tmp/cache"; no_save_model := false;
     model_id_arg := None; train := true;
     evaluate_test_set_arg := "confusion-matrix"; predict := None;
     verbosity := 0 |}.

End CreateModelVocabulary.

Section SplitVocabulary.
Import PyStr.
Local Open Scope string_scope.

(** [sep] occurs nowhere in [s]. *)
Definition no_occurrence (sep s : string) : Prop :=
  ∀ u v, s ≠ u ++ sep ++ v.

(** No proper non-empty head of [sep] is also a tail of it: two occurrences
    of [sep] cannot overlap. *)
Definition border_free (sep : string) : Prop :=
  ∀ p x y, sep = p ++ x → sep = x ++ y → p = "" ∨ x = "".

(** Deciding the two side conditions on concrete names. *)
Fixpoint occurs (sep s : string) : bool :=
  String.prefix sep s ||
  match s with
  | String _ s' => occurs sep s'
  | EmptyString => false
  end.

Fixpoint occurs_before (sep s : string) (n : nat) {struct n} : bool :=
  match n with
  | O => false
  | S n' =>
      String.prefix sep s ||
      match s with
      | String _ s' => occurs_before sep s' n'
      | EmptyString => false
      end
  end.

End SplitVocabulary.

Section CheckpointExampleData.
Import Model.
Local Open Scope string_scope.

Definition example_fs : gmap string (list string) :=
  {[ "/tmp/cache/cnn/checkpoints" :=
       ["epoch01_loss0.53.hdf5"; "epoch02_loss0.48.hdf5";
        "epoch03_loss0.50.hdf5"] ]}.

End CheckpointExampleData.

Section EvaluateVocabulary.
Import Model.
Context `{FM : FloatModel} `{TK : Toolkit}.
Local Open Scope string_scope.

(** The labelled utterances that survive: the pairs of the zip whose
    utterance is present, in order, each label with the utterance it was
    zipped with. *)
Definition kept (items : list (string * (string * option Utterance)))
  : list (string * Utterance) :=
  omap (λ item, (λ u, (item.1, u)) <$> item.2.2) items.

End EvaluateVocabulary.

Section EvaluateExampleData.
Import Model.
Local Open Scope string_scope.

(** A stand-in toolkit for running the definitions: utterances are named by
    their file, a file called "short.wav" yields none, and the confusion
    matrix simply records what it was computed from. *)
#[local] Instance example_toolkit : Toolkit := {|
  Utterance := string;
  Dataset := list string;
  FeaturesMeta := nat;
  ConfusionMatrix := list (string * Z);
  load_features_as_dataset := λ files _, (files, length files);
  files_to_utterances := λ paths _,
    (λ p, (p, if String.eqb p "short.wav" then None else Some p)) <$> paths;
  evaluate_confusion_matrix := λ _ _ utterances real_labels,
    zip utterances real_labels;
|}.

Definition example_command : Command := {|
  args := example_args;
  experiment_config := {[ "model" := VDict ∅ ]};
  model_id := "cnn";
  state_model := {| kw_model_id := "cnn"; kw_callbacks_kwargs := ∅ |};
  state_data_ok := true;
  state_data :=
    {[ "test" := {| paths := ["a.wav"; "short.wav"; "b.wav"];
                    labels := ["fin"; "swe"; "eng"];
                    features := [("fin", "fin.tfrecord")] |} ]};
  label_to_index := [("eng", 0); ("fin", 1); ("swe", 2)];
|}.

End EvaluateExampleData.

#[local] Existing Instance example_toolkit.

Section TensorVocabulary.
Context {A : Type}.
Implicit Types l row : list A.
Local Open Scope nat_scope.

(** The number of entries a shape stands for. *)
Definition size_of (dims : list nat) : nat := foldr Nat.mul 1 dims.

Definition well_formed (t : tensor A) : Prop :=
  length (values t) = size_of (shape t).

End TensorVocabulary.

Section ExtractFeaturesVocabulary.
Import TfUtil.
Context `{AO : AudioOps}.
Local Open Scope string_scope.

(** The chain as the specification words it, one feature type at a time:
    the spectrogram of the signals, its mel-spectrogram, the logarithm of
    that plus 1e-6, and the cepstral coefficients from coef_begin up to
    coef_end. *)
Definition claimed_chain
    (signals : tensor scalar) (sample_rate : Z) (feattype : string)
    (spec_kwargs melspec_kwargs mfcc_kwargs db_spec_kwargs
       : gmap string pyval)
  : result (tensor scalar) :=
  let spectrogram := spectrograms signals sample_rate spec_kwargs in
  let mel := melspectrograms spectrogram sample_rate melspec_kwargs in
  let logmel := tensor_map (λ x, scalar_log (scalar_add x scalar_1e_6)) mel in
  if String.eqb feattype "mfcc" then
    coef_begin ← as_bound (default (VInt 1) (mfcc_kwargs !! "coef_begin"));
    coef_end ← as_bound (default (VInt 13) (mfcc_kwargs !! "coef_end"));
    slice_last coef_begin coef_end (mfccs_from_log_mel_spectrograms logmel)
  else if String.eqb feattype "logmelspectrogram" then Ok logmel
  else if String.eqb feattype "melspectrogram" then Ok mel
  else if String.eqb feattype "db_spectrogram" then
    Ok (power_to_db spectrogram db_spec_kwargs)
  else Ok spectrogram.

(** What every feature type goes through afterwards: scaling and window
    normalization, each only when it is configured. *)
Definition post_process (feat : tensor scalar)
    (feat_scale_kwargs window_norm_kwargs : gmap string pyval)
  : tensor scalar :=
  let feat :=
    if truthy feat_scale_kwargs
    then feature_scaling feat feat_scale_kwargs else feat in
  if truthy window_norm_kwargs
  then window_normalization feat window_norm_kwargs else feat.

(** The features as they stand when the final assertion looks at them. *)
Definition unchecked_features
    (signals : tensor scalar) (sample_rate : Z) (feattype : string)
    (spec_kwargs melspec_kwargs mfcc_kwargs db_spec_kwargs
     feat_scale_kwargs window_norm_kwargs : gmap string pyval)
  : result (tensor scalar) :=
  feat ← claimed_chain signals sample_rate feattype spec_kwargs
            melspec_kwargs mfcc_kwargs db_spec_kwargs;
  Ok (post_process feat feat_scale_kwargs window_norm_kwargs).

(** One sample rate for the whole batch. *)
Definition common_rate (sample_rates : list Z) (sample_rate : Z) : Prop :=
  sample_rates ≠ [] ∧ Forall (λ r, r = sample_rate) sample_rates.

End ExtractFeaturesVocabulary.

Section ExtractFeaturesExampleData.
Import TfUtil ExactFloat.
Local Open Scope string_scope.

(** Stand-in operations for running the definitions. They have the shapes
    of the real ones, not their numbers: the "spectrogram" turns every
    sample into a frame of three bins, the "logarithm" only has the sign
    behaviour of one, and the remaining operations leave a tensor as it
    is. *)
Definition xadd (x y : xfloat) : xfloat :=
  match x, y with
  | XNan, _ | _, XNan => XNan
  | XInf s, _ | _, XInf s => XInf s
  | XFin a, XFin b => XFin (Qplus a b)
  end.

Definition xlog (x : xfloat) : xfloat :=
  match x with
  | XFin q =>
      if Qltb 0 q then XFin (Qminus q 1)
      else if Qeq_bool q 0 then XInf true else XNan
  | XInf false => XInf false
  | _ => XNan
  end.

#[local] Instance example_ops : AudioOps := {|
  scalar := xfloat;
  is_finite := λ x, match x with XFin _ => true | _ => false end;
  scalar_add := xadd;
  scalar_log := xlog;
  scalar_1e_6 := XFin (1 # 1000000);
  spectrograms := λ t _ _,
    Tensor (shape t ++ [3%nat])
           (x ← values t; [x; xadd x x; xadd x (xadd x x)]);
  melspectrograms := λ t _ _, t;
  mfccs_from_log_mel_spectrograms := λ t, t;
  power_to_db := λ t _, t;
  feature_scaling := λ t _, t;
  window_normalization := λ t _, t;
|}.

Definition example_signals : tensor scalar :=
  Tensor [1%nat; 2%nat] [XFin 1; XFin 2].

Definition rank1_signals : tensor scalar :=
  Tensor [2%nat] [XFin 1; XFin 2].

Definition infinite_signals : tensor scalar :=
  Tensor [1%nat; 2%nat] [XFin 1; XInf false].

Definition example_mfcc_kwargs : gmap string pyval :=
  {[ "coef_begin" := VInt 1; "coef_end" := VInt 3 ]}.

End ExtractFeaturesExampleData.

#[local] Existing Instance example_ops.

Section NdArrayVocabulary.
Import Features.
Context {A : Type}.
Implicit Types a src dst : ndarray A.
Local Open Scope nat_scope.

(** The rows are as many and as long as the shape says. *)
Definition rectangular a : Prop :=
  length (cells a) = nrows a ∧
  Forall (λ row, length row = ncols a) (cells a).

End NdArrayVocabulary.

Section MfccDeltasExampleData.
Import Features.
Local Open Scope nat_scope.

(** Stand-in operations for running the definitions: two "coefficients"
    per frame, the sample and its double, and "deltas" that add their order
    to every cell. *)
Definition example_mfcc (signal : list Z) : ndarray Z :=
  NdArray 2 (length signal) [signal; (λ x, 2 * x)%Z <$> signal].

Definition example_delta (a : ndarray Z) (order : Z) : ndarray Z :=
  NdArray (nrows a) (ncols a)
          ((λ row : list Z, (λ x, x + order)%Z <$> row) <$> cells a).

#[local] Instance example_librosa : Librosa := {|
  sample := Z;
  uninit := 0%Z;
  feature_melspectrogram := λ signal _, NdArray 1 (length signal) [signal];
  power := λ S _, S;
  power_to_db_max := λ S, S;
  feature_mfcc := λ signal _ _ _, example_mfcc signal;
  util_normalize := λ M, M;
  feature_delta := λ M order _, example_delta M order;
|}.

Definition example_utterance : list sample * Z :=
  ([10; 20; 30]%Z, 16000%Z).

End MfccDeltasExampleData.

#[local] Existing Instance example_librosa.

Section ArgsortVocabulary.
Import DimSizes.
Implicit Types row : list Z.

(** The entry a position stands for. *)
Definition entry row (j : nat) : Z := default 0 (row !! j).

(** Larger entries first. *)
Definition descending row (i j : nat) : Prop := entry row j ≤ entry row i.

End ArgsortVocabulary.

Section CountVocabulary.
Import DimSizes.
Implicit Types (m : list (list Z)) (shape : list Z) (shapes : list (list Z)).

(** A counter of [n] rows and [cols] columns. *)
Definition matrix (n cols : nat) m : Prop :=
  length m = n ∧ Forall (λ row, length row = cols) m.

Definition at_ m (a s : nat) : option Z := row ← m !! a; row !! s.

(** How many of the shapes have size [s] in axis [a]. *)
Definition occurrences shapes (a : nat) (s : Z) : Z :=
  Z.of_nat (length (filter (λ shape, shape !! a = Some s) shapes)).

(** [accumulate_dim_size_counts] for [n] axes. *)
Definition accumulate (n : nat) (counter : list (list Z)) (shape : list Z)
  : result (list (list Z)) :=
  enumerated_shape ← stack_columns (LabelTable.tf_range n) shape;
  tensor_scatter_nd_add counter enumerated_shape (replicate n 1).

Definition shape_fits (n cols : nat) shape : Prop :=
  length shape = n ∧ Forall (λ s, 0 ≤ s < Z.of_nat cols) shape.

End CountVocabulary.

Section CountDimSizesVocabulary.
Import DimSizes.

(** How many elements of the dataset have, in the tensor at index [idx],
    size [s] in axis [a]. *)
Definition sizes_count (ds : list (list (list Z))) (idx a : nat) (s : Z) : Z :=
  Z.of_nat (length (filter (λ t, (t !! idx ≫= λ shape, shape !! a) = Some s)
                           ds)).

(** The tensor at index [idx] has [n] axes, each of a size from 0 to [hi]. *)
Definition tensor_at (idx n : nat) (hi : Z) (t : list (list Z)) : Prop :=
  ∃ shape, t !! idx = Some shape ∧ length shape = n ∧
           Forall (λ s, 0 ≤ s ≤ hi) shape.

End CountDimSizesVocabulary.

Section CountDimSizesExampleData.
Import DimSizes.

(** Ten elements, each a tensor of shape (3, 4) and one of shape (1). *)
Definition example_dataset : list (list (list Z)) :=
  replicate 10 [[3; 4]; [1]].

End CountDimSizesExampleData.

Section FormatVocabulary.
Import PyStr PyFormat.

(** The literal a printed value reads back as. *)
Definition literal_of (x : fixed2) : float_literal :=
  match x with
  | FixNan => LitNan
  | FixInf negative => LitInf negative
  | FixDec negative h => LitDec negative h (-2)
  end.

(** The characters of decimal numerals. *)
Definition is_digit (c : ascii) : bool := bool_decide (is_Some (digit_of c)).

End FormatVocabulary.

Section MoreExampleData.
Import Model PyFormat.
Local Open Scope string_scope.

(** Two checkpoints with the same, least loss. *)
Definition tied_fs : gmap string (list string) :=
  {[ "/tmp/cache/cnn/checkpoints" :=
       ["epoch01_loss0.53.hdf5"; "epoch02_loss0.48.hdf5";
        "epoch03_loss0.48.hdf5"] ]}.

(** A checkpoints directory that exists and is empty. *)
Definition empty_fs : gmap string (list string) :=
  {[ "/tmp/cache/cnn/checkpoints" := [] ]}.

Definition loss_command : Command := {|
  args := {| cache_dir := "/tmp/cache"; no_save_model := false;
             model_id_arg := None; train := false;
             evaluate_test_set_arg := "loss"; predict := None;
             verbosity := 0 |};
  experiment_config := {[ "model" := VDict ∅ ]};
  model_id := "cnn";
  state_model := {| kw_model_id := "cnn"; kw_callbacks_kwargs := ∅ |};
  state_data_ok := true;
  state_data :=
    {[ "test" := {| paths := ["a.wav"]; labels := ["fin"];
                    features := [("fin", "fin.tfrecord")] |} ]};
  label_to_index := [("fin", 0)];
|}.

(** What Keras hands to [format] at the end of epoch 7 (counted from 1)
    with a validation loss that rounds to 0.48. *)
Definition example_logs : gmap string arg :=
  {[ "epoch" := AInt 7; "val_loss" := AFloat (FixDec false 48);
     "loss" := AFloat (FixDec false 51) ]}.

End MoreExampleData.

Section CountMoreVocabulary.
Import DimSizes.

(** One row of the result, read off one row of the counter. *)
Definition row_of (counts : list Z) : list (Z * Z) :=
  masked_pairs (gather counts (argsort_descending counts))
               (argsort_descending counts).

(** The order of the pairs of a row: the larger count first and, of two
    equal counts, the one of the smaller size. *)
Definition before_in_row (p q : Z * Z) : Prop :=
  q.1 < p.1 ∨ (q.1 = p.1 ∧ p.2 < q.2).

Definition sum_of (l : list Z) : Z := foldr Z.add 0 l.

(** Five vectors: two of length 2, two of length 3, one of length 5. *)
Definition lengths_dataset : list (list (list Z)) :=
  [[[2]]; [[3]]; [[3]]; [[2]]; [[5]]].

End CountMoreVocabulary.

Section PredictVocabulary.
Import Model ModelPredict.
Context `{TK : Toolkit}.

(** The paths that come with an utterance, each with its utterance, in the
    order yielded. *)
Definition extracted (items : list (string * option Utterance))
  : list (string * Utterance) :=
  omap (λ item, (λ u, (item.1, u)) <$> item.2) items.

End PredictVocabulary.

Section PredictExampleData.
Import Model ModelPredict.
Local Open Scope string_scope.

(** A stand-in for running [predict]: the file list names three files, and
    the score of a label is 1 or 0. *)
#[local] Instance example_predict_toolkit : PredictToolkit := {|
  Score := bool;
  load_features_meta := λ features, length features;
  load_audiofile_paths := λ _, ["a.wav"; "short.wav"; "b.wav"];
  model_predict := λ _ _ utterances,
    (λ u, [String.eqb u "a.wav"; String.eqb u "b.wav"; false])
      <$> utterances;
  format_8_3f := λ b : bool, if b then "   1.000" else "   0.000";
|}.

Definition predict_command : Command := {|
  args := {| cache_dir := "/tmp/cache"; no_save_model := false;
             model_id_arg := None; train := false;
             evaluate_test_set_arg := "loss";
             Model.predict := Some "files.txt"; verbosity := 0 |};
  experiment_config := {[ "model" := VDict ∅ ]};
  model_id := "cnn";
  state_model := {| kw_model_id := "cnn"; kw_callbacks_kwargs := ∅ |};
  state_data_ok := true;
  state_data :=
    {[ "training" := {| paths := ["t.wav"]; labels := ["fin"];
                        features := [("fin", "fin.tfrecord")] |} ]};
  label_to_index := [("swe", 2); ("eng", 0); ("fin", 1)];
|}.

End PredictExampleData.

#[local] Existing Instance example_predict_toolkit.

(** * Properties *)

(** ** make_label2onehot *)

Section LabelTableFacts.
Import LabelTable.

Lemma tf_range_lookup (n i : nat) :
  (i < n)%nat → tf_range n !! i = Some (Z.of_nat i).
Proof.
  intros Hi. unfold tf_range.
  rewrite list_lookup_fmap, lookup_seq_lt by done. done.
Qed.

Lemma length_tf_range (n : nat) : length (tf_range n) = n.
Proof. unfold tf_range. by rewrite length_fmap, length_seq. Qed.

(** Keys the initializer does not mention keep the binding they had. *)
Lemma initialize_other kvs : ∀ m m' (k : string),
  initialize kvs m = Ok m' → k ∉ kvs.*1 → m' !! k = m !! k.
Proof.
  induction kvs as [|[k0 v0] kvs IH]; intros m m' k Hinit Hk; simpl in *.
  - by inversion Hinit.
  - apply not_elem_of_cons in Hk as [Hne Hk].
    destruct (m !! k0) as [v'|] eqn:Hm.
    + destruct (Z.eqb v' v0); [by eapply IH | done].
    + rewrite (IH _ _ _ Hinit Hk). by rewrite lookup_insert_ne.
Qed.

(** With pairwise distinct fresh keys the initializer succeeds and binds
    every key to its value. *)
Lemma initialize_nodup kvs : ∀ m,
  NoDup kvs.*1 → (∀ k, k ∈ kvs.*1 → m !! k = None) →
  initialize kvs m = Ok (list_to_map kvs ∪ m).
Proof.
  induction kvs as [|[k0 v0] kvs IH]; intros m Hnd Hfresh; simpl in *.
  - by rewrite (left_id_L ∅ (∪)).
  - apply NoDup_cons in Hnd as [Hk0 Hnd].
    rewrite Hfresh by left.
    rewrite IH; [|done|].
    + f_equal. rewrite <- insert_union_l. symmetry. apply insert_union_r.
      by apply not_elem_of_list_to_map_1.
    + intros k Hk. rewrite lookup_insert_ne; [apply Hfresh; by right|].
      intros ->. done.
Qed.

Lemma one_hot_row_lookup (depth : nat) (i : Z) (j : nat) :
  (j < depth)%nat →
  one_hot_row depth i !! j = Some (if Z.eqb (Z.of_nat j) i then 1 else 0).
Proof.
  intros Hj. unfold one_hot_row.
  by rewrite list_lookup_fmap, lookup_seq_lt.
Qed.

Lemma length_one_hot_row depth i : length (one_hot_row depth i) = depth.
Proof. unfold one_hot_row. by rewrite length_fmap, length_seq. Qed.

(** C1. For a non-empty list of n pairwise distinct labels,
    make_label2onehot returns a table and a matrix OH such that, for every
    index i < n, the table sends labels[i] to i and row i of OH has length n,
    holds 1 at position i and 0 at every other position. *)
Theorem make_label2onehot_one_hot (labels : list string) :
  labels ≠ [] → NoDup labels →
  ∃ label2int OH,
    make_label2onehot labels = Ok (label2int, OH) ∧
    length OH = length labels ∧
    ∀ (i : nat) (l : string), labels !! i = Some l →
      lookup label2int l = Z.of_nat i ∧
      ∃ row, OH !! i = Some row ∧
             length row = length labels ∧
             row !! i = Some 1 ∧
             ∀ j, (j < length labels)%nat → j ≠ i → row !! j = Some 0.
Proof.
  intros _ Hnd. unfold make_label2onehot, mkStaticHashTable.
  assert (Hfst : (zip labels (tf_range (length labels))).*1 = labels).
  { apply fst_zip. by rewrite length_tf_range. }
  rewrite initialize_nodup; [| by rewrite Hfst | by intros; apply lookup_empty].
  simpl. eexists _, _. split; [reflexivity|]. split.
  { unfold one_hot. by rewrite length_fmap, length_tf_range. }
  intros i l Hi. pose proof (lookup_lt_Some _ _ _ Hi) as Hlt. split.
  - unfold lookup. simpl.
    rewrite (right_id_L ∅ (∪)).
    assert (Hin : (l, Z.of_nat i) ∈ zip labels (tf_range (length labels))).
    { apply list_elem_of_lookup. exists i.
      rewrite lookup_zip_with, Hi. simpl. by rewrite tf_range_lookup. }
    apply elem_of_list_to_map in Hin; [| by rewrite Hfst].
    by rewrite Hin.
  - exists (one_hot_row (length labels) (Z.of_nat i)). split.
    { unfold one_hot. by rewrite list_lookup_fmap, tf_range_lookup. }
    split; [apply length_one_hot_row|]. split.
    + rewrite one_hot_row_lookup by done. by rewrite Z.eqb_refl.
    + intros j Hj Hne. rewrite one_hot_row_lookup by done.
      destruct (Z.eqb_spec (Z.of_nat j) (Z.of_nat i)); [lia | done].
Qed.

Lemma make_label2onehot_one_hot_witness :
  let labels := ["one"; "two"; "three"]%string in
  ∃ label2int OH,
    make_label2onehot labels = Ok (label2int, OH) ∧
    length OH = length labels ∧
    ∀ (i : nat) (l : string), labels !! i = Some l →
      lookup label2int l = Z.of_nat i ∧
      ∃ row, OH !! i = Some row ∧
             length row = length labels ∧
             row !! i = Some 1 ∧
             ∀ j, (j < length labels)%nat → j ≠ i → row !! j = Some 0.
Proof.
  intros labels. apply (make_label2onehot_one_hot labels).
  - discriminate.
  - unfold labels. apply (bool_decide_unpack _). vm_compute. exact I.
Defined.

(** C10. Whenever make_label2onehot returns a table, the table sends every
    key that does not occur among the labels to len(labels), the index one
    past the last label. *)
Theorem make_label2onehot_default (labels : list string) label2int OH key :
  make_label2onehot labels = Ok (label2int, OH) →
  key ∉ labels →
  lookup label2int key = Z.of_nat (length labels).
Proof.
  unfold make_label2onehot, mkStaticHashTable. intros Hmk Hkey.
  destruct (initialize _ _) as [m|e] eqn:Hinit; simpl in Hmk; [|done].
  inversion Hmk; subst; clear Hmk. unfold lookup; simpl.
  rewrite (initialize_other _ _ _ key Hinit).
  - by rewrite lookup_empty.
  - rewrite fst_zip; [done|]. by rewrite length_tf_range.
Qed.

Lemma make_label2onehot_default_witness :
  ∃ label2int OH,
    make_label2onehot ["one"; "two"; "three"]%string = Ok (label2int, OH) ∧
    lookup label2int "four"%string = 3.
Proof.
  eexists _, _. split; [reflexivity|].
  eapply (make_label2onehot_default ["one"; "two"; "three"]%string).
  - reflexivity.
  - apply (bool_decide_unpack _). vm_compute. exact I.
Defined.

End LabelTableFacts.

(** ** create_model *)

Section CreateModelFacts.
Import Model.
Local Open Scope string_scope.

Lemma dict_with_lookup base o d (k : string) :
  dict_with base (VDict o) = Ok d →
  d !! k = match o !! k with Some v => Some v | None => base !! k end.
Proof.
  intros [= <-]. rewrite lookup_union.
  destruct (o !! k), (base !! k); done.
Qed.

(** C6. With the tensorboard and checkpoints sections of the model
    configuration absent or mappings, create_model returns a wrapper whose
    callback parameters hold a checkpoints configuration exactly when
    training is requested and --no-save-model is absent. With training and
    --no-save-model the checkpoints entry is None; with training and without
    --no-save-model it is the defaults (save_best_only true, monitor
    val_loss, mode min, file path inside the checkpoints directory of the
    model's cache directory) overridden by the entries of the checkpoints
    section, and that directory is created; without training the parameters
    have no checkpoints and no tensorboard entry and no directory is made. *)
Theorem create_model_checkpoints
    (args : Args) (now_str model_id : string)
    (model_config tb_section ck_section : gmap string pyval) :
  dict_get model_config "tensorboard" (VDict ∅) = VDict tb_section →
  dict_get model_config "checkpoints" (VDict ∅) = VDict ck_section →
  let checkpoint_dir :=
    Path.join (Path.join (cache_dir args) model_id) "checkpoints" in
  let defaults := default_checkpoints_config checkpoint_dir in
  ∃ kw made,
    create_model args now_str model_id model_config = Ok (kw, made) ∧
    ((∃ c, kw_callbacks_kwargs kw !! "checkpoints" = Some (VDict c)) ↔
       train args = true ∧ no_save_model args = false) ∧
    (train args = true → no_save_model args = true →
       kw_callbacks_kwargs kw !! "checkpoints" = Some VNone ∧
       (checkpoint_dir, "checkpoints") ∉ made) ∧
    (train args = true → no_save_model args = false →
       ∃ c, kw_callbacks_kwargs kw !! "checkpoints" = Some (VDict c) ∧
            (∀ k v, ck_section !! k = Some v → c !! k = Some v) ∧
            (∀ k, ck_section !! k = None → c !! k = defaults !! k) ∧
            (checkpoint_dir, "checkpoints") ∈ made) ∧
    (train args = false →
       kw_callbacks_kwargs kw !! "checkpoints" = None ∧
       kw_callbacks_kwargs kw !! "tensorboard" = None ∧
       made = []) ∧
    defaults !! "save_best_only" = Some (VBool true) ∧
    defaults !! "monitor" = Some (VStr "val_loss") ∧
    defaults !! "mode" = Some (VStr "min") ∧
    defaults !! "filepath" =
      Some (VStr (Path.join checkpoint_dir checkpoint_format)).
Proof.
  intros Htb Hck checkpoint_dir defaults. unfold create_model.
  rewrite Htb, Hck. cbn [dict_with mbind result_bind].
  destruct (train args) eqn:Htrain, (no_save_model args) eqn:Hsave;
    cbn [negb]; eexists _, _; (split; [reflexivity|]); cbn [kw_callbacks_kwargs];
    fold checkpoint_dir; fold defaults; split_and!; try done.
  - split; [intros [c Hc]; by simplify_map_eq | by intros [_ [=]]].
  - intros _ _. split; [by simplify_map_eq|].
    intros Hin. apply list_elem_of_singleton in Hin.
    injection Hin as _ Hne. discriminate.
  - split; [done | intros _]. eexists. by simplify_map_eq.
  - intros _ _. exists (ck_section ∪ defaults). split_and!.
    + by simplify_map_eq.
    + intros k v Hk. by apply lookup_union_Some_l.
    + intros k Hk. by rewrite lookup_union_r.
    + set_solver.
  - split; [intros [c Hc]; by simplify_map_eq | by intros [[=] _]].
  - split; [intros [c Hc]; by simplify_map_eq | by intros [[=] _]].
Qed.

Lemma create_model_checkpoints_witness :
  ∃ kw made,
    create_model example_args "2019-01-01_00:00:00" "cnn"
      {[ "checkpoints" := VDict {[ "verbose" := VInt 1 ]} ]} = Ok (kw, made) ∧
    ∃ c, kw_callbacks_kwargs kw !! "checkpoints" = Some (VDict c) ∧
         c !! "verbose" = Some (VInt 1) ∧
         c !! "save_best_only" = Some (VBool true).
Proof.
  destruct (create_model_checkpoints example_args "2019-01-01_00:00:00" "cnn"
              {[ "checkpoints" := VDict {[ "verbose" := VInt 1 ]} ]}
              ∅ {[ "verbose" := VInt 1 ]})
    as (kw & made & Hrun & _ & _ & Hon & _ & Hbest & _).
  { vm_compute. reflexivity. }
  { vm_compute. reflexivity. }
  exists kw, made. split; [exact Hrun|].
  destruct (Hon eq_refl eq_refl) as (c & Hc & Hover & Hdef & _).
  exists c. split; [exact Hc|]. split.
  - apply Hover. vm_compute. reflexivity.
  - rewrite Hdef; [exact Hbest|]. vm_compute. reflexivity.
Defined.

End CreateModelFacts.

(** ** Strings: str.split *)

Section SplitFacts.
Import PyStr.
Local Open Scope string_scope.

Lemma str_app_cons (x : ascii) (a b : string) :
  String x a ++ b = String x (a ++ b).
Proof. reflexivity. Qed.

Lemma str_app_nil_l (a : string) : "" ++ a = a.
Proof. reflexivity. Qed.

Lemma str_app_assoc (a b c : string) : (a ++ b) ++ c = a ++ (b ++ c).
Proof.
  induction a as [|x a IH]; [done|]. by rewrite !str_app_cons, IH.
Qed.

Lemma str_app_nil_r (a : string) : a ++ "" = a.
Proof.
  induction a as [|x a IH]; [done|]. by rewrite str_app_cons, IH.
Qed.

Lemma str_length_app (a b : string) :
  String.length (a ++ b) = (String.length a + String.length b)%nat.
Proof.
  induction a as [|x a IH]; [done|]. rewrite str_app_cons. simpl.
  by rewrite IH.
Qed.

Lemma prefix_spec (sep s : string) :
  String.prefix sep s = true ↔ ∃ t, s = sep ++ t.
Proof.
  revert s. induction sep as [|c sep IH]; intros s.
  - destruct s; simpl; (split; [intros _; by eexists | done]).
  - destruct s as [|c' s]; simpl; [split; [done | by intros [t Ht]]|].
    destruct (ascii_dec c c') as [->|Hne].
    + rewrite IH. split; intros [t Ht]; exists t.
      * by rewrite str_app_cons, Ht.
      * rewrite str_app_cons in Ht. congruence.
    + split; [done | intros [t Ht]]. rewrite str_app_cons in Ht. congruence.
Qed.

(** Two ways of cutting one string: the shorter head is a head of the
    longer one. *)
Lemma str_app_cut (a b c d : string) :
  a ++ b = c ++ d → (String.length c ≤ String.length a)%nat →
  ∃ x, a = c ++ x ∧ d = x ++ b.
Proof.
  revert a. induction c as [|y c IH]; intros a Heq Hlen.
  - by exists a.
  - destruct a as [|y' a]; simpl in Hlen; [lia|].
    rewrite !str_app_cons in Heq. injection Heq as -> Heq.
    destruct (IH a Heq) as (x & -> & ->); [lia|]. by exists x.
Qed.

Lemma split_go_nonempty sep k s : split_go sep k s ≠ [].
Proof.
  revert k. induction s as [|c s IH]; intros k; cbn [split_go]; [done|].
  destruct k; [|apply IH].
  destruct (String.prefix sep (String c s)); [done|].
  by destruct (split_go sep 0 s).
Qed.

Lemma split_go_skip sep (u s : string) :
  split_go sep (String.length u) (u ++ s) = split_go sep 0 s.
Proof.
  induction u as [|c u IH]; [by destruct s|].
  rewrite str_app_cons. simpl. apply IH.
Qed.

(** Past an occurrence at the head, splitting goes on in what follows. *)
Lemma split_go_head sep (t : string) :
  sep ≠ "" → split_go sep 0 (sep ++ t) = "" :: split_go sep 0 t.
Proof.
  intros Hsep. destruct sep as [|c sep]; [done|]. rewrite str_app_cons.
  assert (Hp : String.prefix (String c sep) (String c (sep ++ t)) = true).
  { apply prefix_spec. by exists t. }
  cbn [split_go]. rewrite Hp. f_equal.
  replace (String.length (String c sep) - 1)%nat with (String.length sep)
    by (simpl; lia).
  apply split_go_skip.
Qed.

Lemma split_go_no_occurrence sep s :
  no_occurrence sep s → split_go sep 0 s = [s].
Proof.
  induction s as [|c s IH]; intros Hno; [done|]. cbn [split_go].
  destruct (String.prefix sep (String c s)) eqn:Hp.
  - apply prefix_spec in Hp as [t Ht]. by destruct (Hno "" t).
  - rewrite IH; [done|]. intros u v ->. by apply (Hno (String c u) v).
Qed.

(** The piece before the first separator. *)
Lemma split_first sep (mid post : string) :
  sep ≠ "" →
  (∀ u v, mid ++ sep ++ post = u ++ sep ++ v →
          (String.length mid ≤ String.length u)%nat) →
  List.hd "" (split (mid ++ sep ++ post) sep) = mid.
Proof.
  intros Hsep. unfold split.
  induction mid as [|c mid IH]; intros Hfirst.
  - rewrite str_app_nil_l. by rewrite split_go_head.
  - rewrite str_app_cons. cbn [split_go].
    destruct (String.prefix sep _) eqn:Hp.
    { apply prefix_spec in Hp as [t Ht].
      specialize (Hfirst "" t Ht). simpl in Hfirst. lia. }
    assert (IH' : List.hd "" (split_go sep 0 (mid ++ sep ++ post)) = mid).
    { apply IH. intros u v Huv.
      specialize (Hfirst (String c u) v).
      rewrite !str_app_cons, Huv in Hfirst.
      specialize (Hfirst eq_refl). simpl in Hfirst. lia. }
    pose proof (split_go_nonempty sep 0 (mid ++ sep ++ post)) as Hne.
    destruct (split_go sep 0 (mid ++ sep ++ post)); [done|].
    simpl in *. by rewrite IH'.
Qed.

(** The piece after the last separator. *)
Lemma split_last sep (rest : string) :
  sep ≠ "" → border_free sep → no_occurrence sep rest →
  ∀ pre, List.last (split (pre ++ sep ++ rest) sep) "" = rest.
Proof.
  intros Hsep Hbf Hno pre. unfold split.
  cut (∃ pieces, pieces ≠ [] ∧
         split_go sep 0 (pre ++ sep ++ rest) = (pieces ++ [rest])%list).
  { intros (pieces & _ & ->). apply last_last. }
  remember (String.length pre) as n eqn:Hn.
  revert pre Hn. induction (lt_wf n) as [n _ IH]. intros pre ->.
  destruct (String.prefix sep (pre ++ sep ++ rest)) eqn:Hp.
  - apply prefix_spec in Hp as [t Ht].
    destruct (decide (String.length sep ≤ String.length pre)%nat) as [Hle|Hgt].
    + (* the occurrence found lies inside [pre] *)
      destruct (str_app_cut _ _ _ _ Ht Hle) as (pre' & -> & ->).
      rewrite str_app_assoc, split_go_head by done.
      destruct (IH (String.length pre')) with (pre := pre')
        as (pieces & _ & Hps); [|done|].
      { rewrite str_length_app. destruct sep; [done | simpl; lia]. }
      exists ("" :: pieces). by rewrite Hps.
    + (* it would overlap the occurrence after [pre]: then [pre] is empty *)
      symmetry in Ht.
      destruct (str_app_cut sep t pre (sep ++ rest)) as (x & Hx & Hx');
        [done | lia |].
      destruct (str_app_cut sep rest x t) as (y & Hy & _); [done | |].
      { rewrite Hx, str_length_app. lia. }
      destruct (Hbf pre x y Hx Hy) as [-> | ->].
      * rewrite str_app_nil_l, split_go_head by done.
        rewrite split_go_no_occurrence by done. by exists [""].
      * rewrite str_app_nil_r in Hx. subst pre. lia.
  - destruct pre as [|c pre].
    { rewrite str_app_nil_l in Hp.
      assert (String.prefix sep (sep ++ rest) = true) as Hp'
        by (apply prefix_spec; by exists rest). congruence. }
    rewrite str_app_cons in *. cbn [split_go]. rewrite Hp.
    destruct (IH (String.length pre)) with (pre := pre)
      as (pieces & Hne & Hps); [simpl; lia | done |].
    rewrite Hps. destruct pieces as [|p pieces]; [done|].
    by exists (String c p :: pieces).
Qed.

Lemma border_free_loss : border_free "loss".
Proof.
  intros p x y Hp Hx.
  destruct p as [|a [|b [|c [|d p]]]]; [by left|..];
    rewrite ?str_app_cons, ?str_app_nil_l in Hp;
    injection Hp as <-; subst;
    rewrite ?str_app_cons in Hx; try discriminate.
  right. destruct p; [|discriminate]. done.
Qed.

Lemma occurs_false sep s : occurs sep s = false → no_occurrence sep s.
Proof.
  induction s as [|c s IH]; intros Hocc u v Huv;
    cbn [occurs] in Hocc; apply orb_false_iff in Hocc as [Hp Hocc].
  - apply not_true_iff_false in Hp. apply Hp, prefix_spec.
    destruct u; [by exists v | done].
  - destruct u as [|c' u].
    + apply not_true_iff_false in Hp. apply Hp, prefix_spec. by exists v.
    + rewrite str_app_cons in Huv. injection Huv as -> Huv.
      by apply (IH Hocc u v).
Qed.

Lemma occurs_before_false sep s (n : nat) :
  occurs_before sep s n = false →
  ∀ u v, s = u ++ sep ++ v → (n ≤ String.length u)%nat.
Proof.
  revert s. induction n as [|n IH]; intros s Hocc u v Huv; [lia|].
  cbn [occurs_before] in Hocc. apply orb_false_iff in Hocc as [Hp Hocc].
  destruct u as [|c' u].
  { apply not_true_iff_false in Hp. destruct Hp. apply prefix_spec.
    by exists v. }
  destruct s as [|c s]; [done|].
  rewrite str_app_cons in Huv. injection Huv as -> Huv.
  specialize (IH s Hocc u v Huv). simpl. lia.
Qed.

End SplitFacts.

(** ** The exact decimals are ordered as the properties ask *)

Section ExactFloatFacts.
Import ExactFloat.

Lemma Qltb_lt a b : Qltb a b = true ↔ Qlt a b.
Proof.
  unfold Qltb. rewrite negb_true_iff, <- not_true_iff_false, Qle_bool_iff.
  split; [apply Qnot_le_lt | apply Qlt_not_le].
Qed.

Lemma xlt_irrefl x : xlt x x = false.
Proof.
  destruct x as [|[]|q]; simpl; try done.
  apply not_true_iff_false. rewrite Qltb_lt. apply Qlt_irrefl.
Qed.

Lemma xlt_trans x y z : xlt x y = true → xlt y z = true → xlt x z = true.
Proof.
  destruct x as [|[]|a], y as [|[]|b], z as [|[]|c]; simpl; try done.
  rewrite !Qltb_lt. apply Qlt_trans.
Qed.

End ExactFloatFacts.

#[local] Instance exact_float_laws : FloatLaws.
Proof. split; [apply xlt_irrefl | apply xlt_trans]. Qed.

(** ** get_loss_as_float and get_best_weights_checkpoint *)

Section CheckpointFacts.
Import Model.
Context `{FM : FloatModel} `{FL : !FloatLaws}.
Local Open Scope string_scope.

Lemma get_loss_as_float_ok (f : string) :
  is_Some (PyStr.parse_float (loss_text f)) →
  ∃ k, get_loss_as_float f = Ok k.
Proof.
  intros [lit Hlit]. unfold get_loss_as_float, py_float. rewrite Hlit.
  by eexists.
Qed.

Lemma get_loss_as_float_raise (f : string) :
  PyStr.parse_float (loss_text f) = None →
  get_loss_as_float f = Raise ValueError.
Proof.
  intros Hlit. unfold get_loss_as_float, py_float. by rewrite Hlit.
Qed.

(** The loop of [min]: the item returned is one of those seen, its key is
    not above the key it started from, and no item of the rest has a
    strictly smaller key. *)
Lemma min_go_ok {A} (key : A → result float) (items : list A) :
  Forall (λ x, ∃ k, key x = Ok k) items →
  ∀ best best_key, key best = Ok best_key →
  ∃ b kb, min_go key best best_key items = Ok b ∧
          b ∈ best :: items ∧ key b = Ok kb ∧
          (∀ k, float_lt k kb = true → float_lt k best_key = true) ∧
          (∀ x kx, x ∈ items → key x = Ok kx → float_lt kx kb = false).
Proof.
  induction 1 as [|x items [k Hk] _ IH]; intros best best_key Hbest.
  - exists best, best_key. split_and!; try done; [by left|].
    intros x kx Hx. by apply elem_of_nil in Hx.
  - cbn [min_go]. rewrite Hk. cbn [mbind result_bind].
    destruct (float_lt k best_key) eqn:Hlt.
    + destruct (IH x k Hk) as (b & kb & Hrun & Hin & Hkb & Hle & Hmin).
      exists b, kb. split_and!; try done.
      * apply elem_of_cons in Hin as [-> | Hin]; [right; by left|].
        by do 2 right.
      * intros k' Hk'. eapply float_lt_trans; [by apply Hle | done].
      * intros y ky Hy Hky. apply elem_of_cons in Hy as [-> | Hy].
        -- assert (ky = k) as -> by congruence.
           apply not_true_iff_false. intros Hc. apply Hle in Hc.
           by rewrite float_lt_irrefl in Hc.
        -- by eapply Hmin.
    + destruct (IH best best_key Hbest)
        as (b & kb & Hrun & Hin & Hkb & Hle & Hmin).
      exists b, kb. split_and!; try done.
      * apply elem_of_cons in Hin as [-> | Hin]; [by left|]. by do 2 right.
      * intros y ky Hy Hky. apply elem_of_cons in Hy as [-> | Hy].
        -- assert (ky = k) as -> by congruence.
           apply not_true_iff_false. intros Hc. apply Hle in Hc. congruence.
        -- by eapply Hmin.
Qed.

Lemma py_min_ok {A} (key : A → result float) (items : list A) :
  items ≠ [] → Forall (λ x, ∃ k, key x = Ok k) items →
  ∃ b kb, py_min items key = Ok b ∧ b ∈ items ∧ key b = Ok kb ∧
          ∀ x kx, x ∈ items → key x = Ok kx → float_lt kx kb = false.
Proof.
  destruct items as [|x items]; [done|]. intros _ Hall.
  apply Forall_cons in Hall as [[k Hk] Hall].
  cbn [py_min]. rewrite Hk. cbn [mbind result_bind].
  destruct (min_go_ok key items Hall x k Hk)
    as (b & kb & Hrun & Hin & Hkb & Hle & Hmin).
  exists b, kb. split_and!; try done.
  intros y ky Hy Hky. apply elem_of_cons in Hy as [-> | Hy].
  - assert (ky = k) as -> by congruence.
    apply not_true_iff_false. intros Hc. apply Hle in Hc.
    by rewrite float_lt_irrefl in Hc.
  - by eapply Hmin.
Qed.

(** A key that raises stops [min], whichever item it belongs to. *)
Lemma min_go_raise {A} (key : A → result float) (e : exn) (items : list A) :
  (∀ x e', key x = Raise e' → e' = e) →
  Exists (λ x, ∀ k, key x ≠ Ok k) items →
  ∀ best best_key, min_go key best best_key items = Raise e.
Proof.
  intros Hexn. induction items as [|x items IH]; intros Hex best best_key.
  - by apply Exists_nil in Hex.
  - cbn [min_go]. destruct (key x) as [k|e'] eqn:Hk; cbn [mbind result_bind].
    + apply Exists_cons in Hex as [Hx | Hex]; [by destruct (Hx k)|].
      destruct (float_lt k best_key); by apply IH.
    + by rewrite (Hexn _ _ Hk).
Qed.

Lemma py_min_raise {A} (key : A → result float) (e : exn) (items : list A) :
  (∀ x e', key x = Raise e' → e' = e) →
  Exists (λ x, ∀ k, key x ≠ Ok k) items →
  py_min items key = Raise e.
Proof.
  intros Hexn Hex. destruct items as [|x items]; [by apply Exists_nil in Hex|].
  cbn [py_min]. destruct (key x) as [k|e'] eqn:Hk; cbn [mbind result_bind].
  - apply Exists_cons in Hex as [Hx | Hex]; [by destruct (Hx k)|].
    by apply min_go_raise.
  - by rewrite (Hexn _ _ Hk).
Qed.

(** The text handed to [float]: what stands between the last "loss" and the
    first ".hdf5" after it. *)
Lemma loss_text_between (pre mid post : string) :
  no_occurrence "loss" (mid ++ ".hdf5" ++ post) →
  (∀ u v, mid ++ ".hdf5" ++ post = u ++ ".hdf5" ++ v →
          (String.length mid ≤ String.length u)%nat) →
  loss_text (pre ++ "loss" ++ mid ++ ".hdf5" ++ post) = mid.
Proof.
  intros Hno Hfirst. unfold loss_text.
  rewrite split_last; [|done|apply border_free_loss|done].
  by apply split_first.
Qed.


End CheckpointFacts.

Section CheckpointExamples.
Import Model.
Local Open Scope string_scope.



End CheckpointExamples.

(** ** evaluate_test_set *)

Section EvaluateFacts.
Import Model.
Context `{FM : FloatModel} `{TK : Toolkit}.
Local Open Scope string_scope.

Lemma foldl_collect_step items : ∀ ls us,
  foldl collect_step (ls, us) items =
    ((ls ++ (kept items).*1)%list, (us ++ (kept items).*2)%list).
Proof.
  induction items as [|[label [path [u|]]] items IH]; intros ls us.
  - by rewrite !app_nil_r.
  - cbn [foldl collect_step]. rewrite IH. unfold kept. cbn.
    by rewrite <- !app_assoc.
  - cbn [foldl collect_step]. by rewrite IH.
Qed.

Lemma collect_kept items : collect items = ((kept items).*1, (kept items).*2).
Proof. unfold collect. by rewrite foldl_collect_step. Qed.

Lemma kept_filter items :
  (λ lu, (lu.1, Some lu.2)) <$> kept items =
    filter (λ lu, is_Some lu.2) ((λ item, (item.1, item.2.2)) <$> items).
Proof.
  induction items as [|[label [path [u|]]] items IH]; [done|..].
  - cbn -[filter]. rewrite filter_cons_True by (by eexists).
    f_equal. apply IH.
  - cbn -[filter]. rewrite filter_cons_False by (by intros [? [=]]).
    apply IH.
Qed.

Lemma mapM_getitem {V} (d : list (string * V)) (keys : list string) :
  Forall (λ k, ∃ v, getitem d k = Ok v) keys →
  ∃ vs, mapM (getitem d) keys = Ok vs ∧
        Forall2 (λ k v, getitem d k = Ok v) keys vs.
Proof.
  induction 1 as [|k keys [v Hv] _ (vs & Hvs & Hall)].
  - by exists [].
  - exists (v :: vs). cbn. rewrite Hv. cbn. rewrite Hvs. cbn.
    split; [done|]. by constructor.
Qed.

Lemma contains_app c (a b : string) :
  Path.contains c (a ++ b) = Path.contains c a || Path.contains c b.
Proof.
  induction a as [|x a IH]; [done|].
  rewrite str_app_cons. cbn [Path.contains]. by rewrite IH, orb_assoc.
Qed.

Lemma basename_no_sep (p : string) : Path.contains "/" (Path.basename p) = false.
Proof.
  induction p as [|c p IH]; [done|]. cbn [Path.basename].
  destruct (Path.contains "/" p) eqn:Hp; [done|].
  destruct (Ascii.eqb c "/") eqn:Hc; [done|].
  cbn [Path.contains]. by rewrite Hc, Hp.
Qed.

(** Joining a directory with a relative name puts the name in it. *)
Lemma join_relative (dir name : string) :
  String.prefix "/" name = false →
  Path.join dir name = dir ++ name ∨ Path.join dir name = dir ++ "/" ++ name.
Proof.
  intros Hrel. unfold Path.join. rewrite Hrel.
  destruct (_ || _); [by left | by right].
Qed.

(** C5. A run of evaluate_test_set with --evaluate-test-set confusion-matrix
    that gets past its guards (model configuration present, state data in
    order, a test set, a best checkpoint on disk, every surviving label
    known to label_to_index) passes over every zipped entry whose utterance
    is None, label included; what is left keeps each label with its own
    utterance in the order of the test set; the confusion matrix is computed
    from exactly these utterances and the indices of these labels; and the
    figure is written to a file directly inside the cache directory. *)
Theorem evaluate_test_set_confusion_matrix
    (self : Command) (fs : gmap string (list string))
    (model_config : gmap string pyval) (test_set_data : SplitData)
    (best : string) :
  evaluate_test_set_arg (args self) = "confusion-matrix" →
  experiment_config self !! "model" = Some (VDict model_config) →
  state_data_ok self = true →
  state_data self !! "test" = Some test_set_data →
  get_best_weights_checkpoint fs (args self) (model_id self)
    = Ok (VStr best) →
  let transformer :=
    files_to_utterances (paths test_set_data) (experiment_config self) in
  let survivors := kept (zip (labels test_set_data) transformer) in
  Forall (λ label, ∃ i, getitem (label_to_index self) label = Ok i)
         survivors.*1 →
  let meta :=
    (load_features_as_dataset (features test_set_data).*2 model_config).2 in
  let figure_name :=
    "confusion-matrix_test-set_model-" ++ Path.basename best ++ ".svg" in
  ∃ real_labels figure_path,
    evaluate_test_set self fs =
      Ok (None,
          [Prepare meta model_config;
           LoadWeights (VStr best);
           WriteConfusionMatrix
             (evaluate_confusion_matrix (state_model self) (VStr best)
                                        survivors.*2 real_labels)
             (label_to_index self).*1 figure_path]) ∧
    Forall2 (λ label i, getitem (label_to_index self) label = Ok i)
            survivors.*1 real_labels ∧
    (λ lu, (lu.1, Some lu.2)) <$> survivors =
      filter (λ lu, is_Some lu.2)
             ((λ item, (item.1, item.2.2)) <$>
                zip (labels test_set_data) transformer) ∧
    (figure_path = cache_dir (args self) ++ figure_name ∨
     figure_path = cache_dir (args self) ++ "/" ++ figure_name) ∧
    Path.contains "/" figure_name = false.
Proof.
  intros Harg Hconfig Hok Htest Hbest transformer survivors Hknown
    meta figure_name.
  destruct (mapM_getitem _ _ Hknown) as (real_labels & Hmap & Hall).
  exists real_labels, (Path.join (cache_dir (args self)) figure_name).
  split_and!.
  - unfold evaluate_test_set. rewrite Hconfig, Hok, Htest, Hbest, Harg.
    cbn [mbind result_bind negb]. subst meta.
    destruct (load_features_as_dataset _ _) as [test_set features_meta].
    cbn [mbind result_bind String.eqb Ascii.eqb Bool.eqb].
    fold transformer. rewrite collect_kept. fold survivors.
    rewrite Hmap. by cbn [mbind result_bind path_of].
  - done.
  - apply kept_filter.
  - by apply join_relative.
  - subst figure_name. rewrite !contains_app, basename_no_sep. done.
Qed.

End EvaluateFacts.

Section EvaluateExamples.
Import Model.
Local Open Scope string_scope.

Lemma evaluate_test_set_confusion_matrix_witness :
  ∃ real_labels figure_path,
    evaluate_test_set example_command example_fs =
      Ok (None,
          [Prepare 1%nat ∅;
           LoadWeights
             (VStr "/tmp/cache/cnn/checkpoints/epoch02_loss0.48.hdf5");
           WriteConfusionMatrix
             (zip ["a.wav"; "b.wav"] real_labels) ["eng"; "fin"; "swe"]
             figure_path]).
Proof.
  destruct (evaluate_test_set_confusion_matrix example_command example_fs ∅
              {| paths := ["a.wav"; "short.wav"; "b.wav"];
                 labels := ["fin"; "swe"; "eng"];
                 features := [("fin", "fin.tfrecord")] |}
              "/tmp/cache/cnn/checkpoints/epoch02_loss0.48.hdf5")
    as (real_labels & figure_path & Hrun & _).
  - reflexivity.
  - vm_compute. reflexivity.
  - reflexivity.
  - vm_compute. reflexivity.
  - vm_compute. reflexivity.
  - repeat constructor; eexists; vm_compute; reflexivity.
  - exists real_labels, figure_path. exact Hrun.
Defined.

End EvaluateExamples.

(** ** Tensors: rows of the last axis and slices *)

Section TensorFacts.
Context {A : Type}.
Implicit Types l row : list A.
Local Open Scope nat_scope.

Lemma size_of_snoc (outer : list nat) (n : nat) :
  size_of (outer ++ [n]) = size_of outer * n.
Proof.
  unfold size_of. induction outer as [|d outer IH]; simpl; [lia|].
  rewrite IH. lia.
Qed.

Lemma chunks_go_rows (n : nat) : ∀ fuel m l,
  0 < n → length l = m * n → m ≤ fuel →
  chunks_go fuel n l = (λ r, take n (drop (r * n) l)) <$> seq 0 m.
Proof.
  induction fuel as [|fuel IH]; intros m l Hn Hlen Hfuel.
  - by replace m with 0 by lia.
  - destruct l as [|x l].
    { replace m with 0; [done|]. simpl in Hlen. nia. }
    destruct m as [|m]; [done|]. cbn [chunks_go].
    rewrite (IH m) by (done || lia || (rewrite length_drop; simpl in *; lia)).
    cbn [seq fmap list_fmap]. f_equal.
    rewrite <- fmap_S_seq, <- list_fmap_compose. apply list_fmap_ext.
    intros _ r _. cbn. rewrite drop_drop. do 2 f_equal; lia.
Qed.

Lemma chunks_rows (n m : nat) l :
  0 < n → length l = m * n →
  chunks n l = (λ r, take n (drop (r * n) l)) <$> seq 0 m.
Proof. intros Hn Hlen. apply chunks_go_rows; [done..|nia]. Qed.

Lemma slice_bound_inside (n : nat) (i : Z) :
  (0 ≤ i ≤ Z.of_nat n)%Z → slice_bound n i = Z.to_nat i.
Proof.
  intros Hi. unfold slice_bound.
  destruct (Z.ltb_spec i 0); [lia|]. f_equal. lia.
Qed.

(** An entry of a slice is the entry [start] places further in the row. *)
Lemma slice_lookup (b e : Z) row (j : nat) :
  (0 ≤ b ≤ e)%Z → (e ≤ Z.of_nat (length row))%Z → j < Z.to_nat (e - b) →
  slice (Some b) (Some e) row !! j = row !! (Z.to_nat b + j).
Proof.
  intros Hb He Hj. unfold slice. cbn [from_option].
  rewrite !slice_bound_inside by lia.
  rewrite lookup_take_lt by lia. by rewrite lookup_drop.
Qed.

Lemma length_slice (b e : Z) row :
  (0 ≤ b ≤ e)%Z → (e ≤ Z.of_nat (length row))%Z →
  length (slice (Some b) (Some e) row) = Z.to_nat (e - b).
Proof.
  intros Hb He. unfold slice. cbn [from_option].
  rewrite !slice_bound_inside by lia.
  rewrite length_take, length_drop. lia.
Qed.

(** Slicing the last axis of a well-formed tensor between bounds that lie
    inside it: the other axes are kept, the last one has [stop - start]
    places, and place [j] of every row holds what place [start + j] held. *)
Lemma slice_last_inside (t : tensor A) (outer : list nat) (n : nat) (b e : Z) :
  shape t = outer ++ [n] → well_formed t →
  (0 ≤ b ≤ e)%Z → (e ≤ Z.of_nat n)%Z →
  ∃ t', slice_last (Some b) (Some e) t = Ok t' ∧
        shape t' = outer ++ [Z.to_nat (e - b)] ∧
        well_formed t' ∧
        ∀ r j, r < size_of outer → j < Z.to_nat (e - b) →
          values t' !! (r * Z.to_nat (e - b) + j) =
          values t !! (r * n + (Z.to_nat b + j)).
Proof.
  intros Hshape Hwf Hb He. unfold well_formed in Hwf.
  rewrite Hshape, size_of_snoc in Hwf.
  unfold slice_last. rewrite Hshape, reverse_snoc, reverse_involutive.
  eexists. split; [reflexivity|]. cbn [shape values].
  assert (Hlen : slice_len (Some b) (Some e) n = Z.to_nat (e - b)).
  { unfold slice_len. cbn [from_option].
    rewrite !slice_bound_inside by lia. lia. }
  rewrite Hlen. split; [done|].
  destruct (decide (n = 0)) as [->|Hn].
  { assert (values t = []) as -> by (apply nil_length_inv; lia).
    split; [|intros r j _ Hj; lia].
    unfold well_formed. cbn. rewrite size_of_snoc. lia. }
  rewrite (chunks_rows n (size_of outer)) by (done || lia).
  rewrite <- list_fmap_compose.
  set (rows := (slice (Some b) (Some e) ∘ _) <$> _).
  assert (Hrows : Forall (λ row, length row = Z.to_nat (e - b)) rows).
  { apply Forall_fmap, Forall_forall. intros r Hr%elem_of_seq. cbn.
    apply length_slice; [done|].
    rewrite length_take, length_drop. nia. }
  split.
  { unfold well_formed. cbn [shape values].
    rewrite length_join, (sum_list_fmap_same (Z.to_nat (e - b))) by done.
    rewrite size_of_snoc. unfold rows. by rewrite length_fmap, length_seq. }
  intros r j Hr Hj.
  assert (Hrow : rows !! r =
            Some (slice (Some b) (Some e) (take n (drop (r * n) (values t))))).
  { unfold rows. rewrite list_lookup_fmap, lookup_seq_lt by done. done. }
  destruct (values t !! (r * n + (Z.to_nat b + j))) as [x|] eqn:Hx.
  - apply (join_lookup_Some_same_length' _ _ _ _ _ Hrows Hj).
    eexists. split; [exact Hrow|].
    rewrite slice_lookup; [|done|rewrite length_take, length_drop; nia|done].
    rewrite lookup_take_lt by lia. by rewrite lookup_drop.
  - apply lookup_ge_None in Hx. nia.
Qed.

End TensorFacts.

(** ** tf_util.extract_features *)

Section ExtractFeaturesFacts.
Import TfUtil.
Context `{AO : AudioOps}.
Local Open Scope string_scope.

Lemma forallb_eqb_common (sample_rate : Z) (rates : list Z) :
  forallb (Z.eqb sample_rate) rates = true ↔
  Forall (λ r, r = sample_rate) rates.
Proof.
  rewrite forallb_forall, Forall_forall. split; intros Hall r Hr.
  - symmetry. apply Z.eqb_eq, Hall. by apply list_elem_of_In.
  - apply Z.eqb_eq. symmetry. by apply Hall, list_elem_of_In.
Qed.

Lemma all_finite_spec (t : tensor scalar) :
  all_finite t = false ↔ ∃ x, x ∈ values t ∧ is_finite x = false.
Proof.
  unfold all_finite. induction (values t) as [|x l IH]; cbn [forallb].
  - split; [done|]. intros (x & Hx & _). by apply elem_of_nil in Hx.
  - rewrite andb_false_iff, IH. split.
    + intros [Hx | (y & Hy & Hfin)].
      * exists x. split; [by left | done].
      * exists y. split; [by right | done].
    + intros (y & Hy & Hfin). apply elem_of_cons in Hy as [-> | Hy].
      * by left.
      * right. by exists y.
Qed.

Lemma one_of_cons (feattype name : string) (names : list string) :
  one_of feattype (name :: names) =
    String.eqb feattype name || one_of feattype names.
Proof. done. Qed.

(** The body of [extract_features] once both entry assertions have passed. *)
Lemma extract_features_chain_eq
    (signals : tensor scalar) (sample_rates : list Z) (sample_rate : Z)
    (feattype : string)
    (spec_kwargs melspec_kwargs mfcc_kwargs db_spec_kwargs
     feat_scale_kwargs window_norm_kwargs : gmap string pyval) :
  rank signals = 2%nat → common_rate sample_rates sample_rate →
  extract_features signals sample_rates feattype spec_kwargs melspec_kwargs
      mfcc_kwargs db_spec_kwargs feat_scale_kwargs window_norm_kwargs =
    (feat ← unchecked_features signals sample_rate feattype spec_kwargs
               melspec_kwargs mfcc_kwargs db_spec_kwargs
               feat_scale_kwargs window_norm_kwargs;
     if all_finite feat then Ok feat else Raise NonFiniteError).
Proof.
  intros Hrank [Hne Hall]. unfold extract_features.
  rewrite Hrank. cbn [Nat.eqb assert mbind result_bind].
  destruct sample_rates as [|first rest]; [done|].
  assert (first = sample_rate) as -> by (by apply Forall_cons in Hall as [? _]).
  apply forallb_eqb_common in Hall. cbn [mbind result_bind].
  rewrite Hall. cbn [assert mbind result_bind].
  unfold unchecked_features, claimed_chain, post_process.
  rewrite !one_of_cons. cbn [one_of existsb orb].
  destruct (String.eqb_spec feattype "mfcc") as [->|_].
  { cbn [String.eqb Ascii.eqb Bool.eqb orb andb].
    destruct (as_bound (default (VInt 1) _)) as [b|]; [|done].
    destruct (as_bound (default (VInt 13) _)) as [e|]; [|done].
    cbn [mbind result_bind].
    destruct (slice_last _ _ _) as [feat|]; [|done].
    cbn [mbind result_bind]. by destruct (all_finite _). }
  destruct (String.eqb_spec feattype "logmelspectrogram") as [->|_].
  { cbn [String.eqb Ascii.eqb Bool.eqb orb andb mbind result_bind].
    by destruct (all_finite _). }
  destruct (String.eqb_spec feattype "melspectrogram") as [->|_].
  { cbn [String.eqb Ascii.eqb Bool.eqb orb andb mbind result_bind].
    by destruct (all_finite _). }
  rewrite !orb_false_r. cbn [orb].
  destruct (String.eqb feattype "db_spectrogram");
    cbn [mbind result_bind]; by destruct (all_finite _).
Qed.

Lemma claimed_chain_raise signals sample_rate feattype
    spec_kwargs melspec_kwargs mfcc_kwargs db_spec_kwargs (e : exn) :
  claimed_chain signals sample_rate feattype spec_kwargs melspec_kwargs
    mfcc_kwargs db_spec_kwargs = Raise e →
  e = TypeError ∨ e = IndexError.
Proof.
  unfold claimed_chain. destruct (String.eqb feattype "mfcc").
  - destruct (default (VInt 1) _), (default (VInt 13) _);
      cbn [as_bound mbind result_bind]; try (intros [= <-]; by left);
      unfold slice_last; destruct (reverse _); intros [= <-]; by right.
  - by repeat case_match.
Qed.

(** C2. For a rank-2 batch of signals with one common sample rate, the
    features of type "mfcc" are the cepstral coefficients
    (mfccs_from_log_mel_spectrograms) of the elementwise logarithm of the
    mel-spectrogram of the spectrogram of the signals plus 1e-6, cut in the
    last axis to the coefficients from coef_begin (1 unless given) up to but
    excluding coef_end (13 unless given); "melspectrogram" stops after the
    mel step, "logmelspectrogram" after the logarithm, and "db_spectrogram"
    is power_to_db of the spectrogram. What follows for every type is the
    configured scaling and window normalization and the finiteness check. *)
Theorem extract_features_chain
    (signals : tensor scalar) (sample_rates : list Z) (sample_rate : Z)
    (feattype : string)
    (spec_kwargs melspec_kwargs mfcc_kwargs db_spec_kwargs
     feat_scale_kwargs window_norm_kwargs : gmap string pyval) :
  rank signals = 2%nat → common_rate sample_rates sample_rate →
  let spectrogram := spectrograms signals sample_rate spec_kwargs in
  let mel := melspectrograms spectrogram sample_rate melspec_kwargs in
  let logmel :=
    tensor_map (λ x, scalar_log (scalar_add x scalar_1e_6)) mel in
  let mfccs := mfccs_from_log_mel_spectrograms logmel in
  let finish : result (tensor scalar) → result (tensor scalar) := λ chain,
    feat ← chain;
    let feat := post_process feat feat_scale_kwargs window_norm_kwargs in
    if all_finite feat then Ok feat else Raise NonFiniteError in
  let run :=
    extract_features signals sample_rates feattype spec_kwargs
      melspec_kwargs mfcc_kwargs db_spec_kwargs feat_scale_kwargs
      window_norm_kwargs in
  (feattype = "mfcc" →
   ∀ coef_begin coef_end : Z,
     default (VInt 1) (mfcc_kwargs !! "coef_begin") = VInt coef_begin →
     default (VInt 13) (mfcc_kwargs !! "coef_end") = VInt coef_end →
     run = finish (slice_last (Some coef_begin) (Some coef_end) mfccs) ∧
     ∀ outer n,
       shape mfccs = (outer ++ [n])%list → well_formed mfccs →
       (0 ≤ coef_begin ≤ coef_end)%Z → (coef_end ≤ Z.of_nat n)%Z →
       ∃ coefficients,
         slice_last (Some coef_begin) (Some coef_end) mfccs
           = Ok coefficients ∧
         shape coefficients =
           (outer ++ [Z.to_nat (coef_end - coef_begin)])%list ∧
         ∀ r j : nat,
           (r < size_of outer)%nat →
           (j < Z.to_nat (coef_end - coef_begin))%nat →
           values coefficients
             !! (r * Z.to_nat (coef_end - coef_begin) + j)%nat =
           values mfccs !! (r * n + (Z.to_nat coef_begin + j))%nat) ∧
  (feattype = "melspectrogram" → run = finish (Ok mel)) ∧
  (feattype = "logmelspectrogram" → run = finish (Ok logmel)) ∧
  (feattype = "db_spectrogram" →
   run = finish (Ok (power_to_db spectrogram db_spec_kwargs))).
Proof.
  intros Hrank Hrate spectrogram mel logmel mfccs finish run.
  assert (Hrun : run = finish (claimed_chain signals sample_rate feattype
                   spec_kwargs melspec_kwargs mfcc_kwargs db_spec_kwargs)).
  { subst run finish. cbv beta.
    rewrite (extract_features_chain_eq _ _ sample_rate) by done.
    unfold unchecked_features. by destruct (claimed_chain _ _ _ _ _ _ _). }
  rewrite Hrun. unfold claimed_chain. split_and!; intros ->.
  - intros b e Hb He. rewrite Hb, He. split; [done|].
    intros outer n Hshape Hwf Hbe Hen.
    destruct (slice_last_inside mfccs outer n b e) as (t' & ? & ? & _ & ?);
      [done..|].
    by exists t'.
  - done.
  - done.
  - done.
Qed.

(** C8. [extract_features] raises when the signals are not of rank 2, and
    when two sample rates of the batch differ. For rank-2 signals with one
    common sample rate neither entry assertion raises; once the features
    are computed, the final assertion raises exactly when one of their
    values is not finite, and the features are returned otherwise. *)
Theorem extract_features_assertions
    (signals : tensor scalar) (sample_rates : list Z) (feattype : string)
    (spec_kwargs melspec_kwargs mfcc_kwargs db_spec_kwargs
     feat_scale_kwargs window_norm_kwargs : gmap string pyval) :
  let run :=
    extract_features signals sample_rates feattype spec_kwargs
      melspec_kwargs mfcc_kwargs db_spec_kwargs feat_scale_kwargs
      window_norm_kwargs in
  (rank signals ≠ 2%nat → run = Raise AssertRankError) ∧
  ((∃ r1 r2, r1 ∈ sample_rates ∧ r2 ∈ sample_rates ∧ r1 ≠ r2) →
   ∃ e, run = Raise e ∧ (e = AssertRankError ∨ e = AssertEqualError)) ∧
  (∀ sample_rate,
     rank signals = 2%nat → common_rate sample_rates sample_rate →
     run ≠ Raise AssertRankError ∧ run ≠ Raise AssertEqualError ∧
     ∀ feat,
       unchecked_features signals sample_rate feattype spec_kwargs
         melspec_kwargs mfcc_kwargs db_spec_kwargs feat_scale_kwargs
         window_norm_kwargs = Ok feat →
       (run = Raise NonFiniteError ↔
          ∃ x, x ∈ values feat ∧ is_finite x = false) ∧
       (run = Ok feat ↔ ∀ x, x ∈ values feat → is_finite x = true)).
Proof.
  intros run. split_and!.
  - intros Hrank. subst run. unfold extract_features.
    apply Nat.eqb_neq in Hrank. by rewrite Hrank.
  - intros (r1 & r2 & Hr1 & Hr2 & Hne). subst run. unfold extract_features.
    destruct (rank signals =? 2)%nat; cbn [assert mbind result_bind];
      [|exists AssertRankError; split; [done | by left]].
    destruct sample_rates as [|first rest]; [by apply elem_of_nil in Hr1|].
    cbn [mbind result_bind].
    destruct (forallb (Z.eqb first) (first :: rest)) eqn:Hall.
    + apply forallb_eqb_common in Hall. rewrite Forall_forall in Hall.
      destruct Hne. by rewrite (Hall r1), (Hall r2).
    + exists AssertEqualError. split; [done | by right].
  - intros sample_rate Hrank Hrate.
    assert (Hrun := extract_features_chain_eq signals sample_rates sample_rate
              feattype spec_kwargs melspec_kwargs mfcc_kwargs db_spec_kwargs
              feat_scale_kwargs window_norm_kwargs Hrank Hrate).
    fold run in Hrun. rewrite Hrun. clear Hrun.
    unfold unchecked_features.
    destruct (claimed_chain _ _ _ _ _ _ _) as [chain|e] eqn:Hchain;
      cbn [mbind result_bind].
    + split_and!; [by destruct (all_finite _)..|].
      intros feat [= <-].
      destruct (all_finite _) eqn:Hfin.
      * split; split.
        -- done.
        -- intros Hex. apply all_finite_spec in Hex. congruence.
        -- intros _ x Hx. unfold all_finite in Hfin.
           rewrite forallb_forall in Hfin. by apply Hfin, list_elem_of_In.
        -- done.
      * pose proof (proj1 (all_finite_spec _) Hfin) as (x & Hx & Hxfin).
        split; split.
        -- intros _. by exists x.
        -- done.
        -- done.
        -- intros Hall. rewrite (Hall x Hx) in Hxfin. done.
    + apply claimed_chain_raise in Hchain as [-> | ->];
        split_and!; try done.
Qed.

End ExtractFeaturesFacts.

Section ExtractFeaturesExamples.
Import TfUtil ExactFloat.
Local Open Scope string_scope.

Lemma extract_features_chain_witness :
  ∃ coefficients,
    slice_last (Some 1) (Some 3)
      (mfccs_from_log_mel_spectrograms
         (tensor_map (λ x, scalar_log (scalar_add x scalar_1e_6))
            (melspectrograms (spectrograms example_signals 16000 ∅)
                             16000 ∅)))
      = Ok coefficients ∧
    shape coefficients = [1%nat; 2%nat; 2%nat] ∧
    extract_features example_signals [16000; 16000] "mfcc"
      ∅ ∅ example_mfcc_kwargs ∅ ∅ ∅ = Ok coefficients.
Proof.
  destruct (extract_features_chain example_signals [16000; 16000] 16000
              "mfcc" ∅ ∅ example_mfcc_kwargs ∅ ∅ ∅) as [Hmfcc _].
  { reflexivity. }
  { split; [discriminate | by repeat constructor]. }
  destruct (Hmfcc eq_refl 1 3) as [Hrun Hslice];
    [vm_compute; reflexivity..|].
  destruct (Hslice [1%nat; 2%nat] 3%nat)
    as (coefficients & Hcoef & Hshape & _);
    [reflexivity | reflexivity | lia | lia |].
  exists coefficients. split; [exact Hcoef|]. split; [exact Hshape|].
  rewrite Hrun, Hcoef. clear Hrun Hslice Hmfcc.
  vm_compute in Hcoef. injection Hcoef as <-. vm_compute. reflexivity.
Defined.

Lemma extract_features_assertions_witness :
  extract_features rank1_signals [16000] "mfcc"
    ∅ ∅ ∅ ∅ ∅ ∅ = Raise AssertRankError ∧
  (∃ e, extract_features example_signals [16000; 8000] "mfcc"
          ∅ ∅ ∅ ∅ ∅ ∅ = Raise e) ∧
  extract_features infinite_signals [16000]
    "melspectrogram" ∅ ∅ ∅ ∅ ∅ ∅ = Raise NonFiniteError.
Proof.
  split_and!.
  - apply (extract_features_assertions rank1_signals).
    discriminate.
  - destruct (extract_features_assertions example_signals [16000; 8000]
                "mfcc" ∅ ∅ ∅ ∅ ∅ ∅) as (_ & Hrates & _).
    destruct Hrates as (e & He & _); [|by exists e].
    exists 16000, 8000. split_and!; [by left | by right; left | discriminate].
  - destruct (extract_features_assertions
                infinite_signals [16000] "melspectrogram" ∅ ∅ ∅ ∅ ∅ ∅) as (_ & _ & Hfinal).
    destruct (Hfinal 16000) as (_ & _ & Hcheck).
    { reflexivity. }
    { split; [discriminate | by repeat constructor]. }
    eapply Hcheck; [vm_compute; reflexivity|].
    exists (XInf false). split; [|reflexivity].
    cbn. do 3 right. by left.
Defined.

End ExtractFeaturesExamples.

(** ** mfcc_deltas_012 *)

Ltac lia_mod := zify; Z.div_mod_to_equations; lia.

Section NdArrayFacts.
Import Features.
Context {A : Type}.
Implicit Types a src dst : ndarray A.
Local Open Scope nat_scope.

Lemma cell_transpose (pad : A) a (i j : nat) :
  rectangular a → i < ncols a → j < nrows a →
  cell (transpose pad a) i j = cell a j i.
Proof.
  intros [Hrows Hcols] Hi Hj. unfold cell, transpose. cbn [cells].
  rewrite list_lookup_fmap, lookup_seq_lt by done. cbn.
  rewrite list_lookup_fmap.
  destruct (cells a !! j) as [row|] eqn:Hrow; cbn.
  - rewrite Forall_lookup in Hcols. specialize (Hcols _ _ Hrow).
    destruct (row !! i) as [x|] eqn:Hx; [done|].
    apply lookup_ge_None in Hx. lia.
  - apply lookup_ge_None in Hrow. lia.
Qed.

Lemma rectangular_transpose (pad : A) a :
  length (cells a) = nrows a → rectangular (transpose pad a).
Proof.
  intros Hrows. split; cbn.
  - by rewrite length_fmap, length_seq.
  - apply Forall_fmap, Forall_forall. intros j _. cbn.
    by rewrite length_fmap.
Qed.

Lemma rectangular_np_empty (x : A) (r c : nat) : rectangular (np_empty x r c).
Proof.
  split; cbn; [apply length_replicate|].
  apply Forall_replicate. apply length_replicate.
Qed.

Lemma selected_spec (start step i : nat) :
  selected start step i = true ↔ start ≤ i ∧ (i - start) mod step = 0.
Proof.
  unfold selected. by rewrite andb_true_iff, Nat.leb_le, Nat.eqb_eq.
Qed.

(** Every third row, from any of the first three on: a third of the rows. *)
Lemma count_selected (start n : nat) :
  start < 3 →
  length (filter (λ i, selected start 3 i = true) (seq 0 (3 * n))) = n.
Proof.
  intros Hstart. induction n as [|n IH]; [done|].
  replace (3 * S n) with (3 * n + 3) by lia.
  rewrite seq_app, filter_app, length_app, IH. cbn [seq].
  assert (Hsel : ∀ d, d < 3 →
            selected start 3 (0 + 3 * n + d) = true ↔ d = start).
  { intros d Hd. rewrite selected_spec. lia_mod. }
  replace (0 + 3 * n) with (0 + 3 * n + 0) at 1 by lia.
  replace (S (0 + 3 * n)) with (0 + 3 * n + 1) by lia.
  replace (S (0 + 3 * n + 1)) with (0 + 3 * n + 2) by lia.
  rewrite !filter_cons, filter_nil.
  repeat case_decide; cbn [length];
    repeat match goal with
           | H : selected _ _ _ = true |- _ => apply Hsel in H; [|lia]
           | H : ¬ selected _ _ _ = true |- _ => rewrite Hsel in H by lia
           end; lia.
Qed.

(** What [dst[start::3] = src] leaves in the cells of an array of [3 n]
    rows, for a source of [n] rows of the same width. *)
Lemma assign_rows_third (start n : nat) src dst :
  start < 3 → nrows dst = 3 * n → nrows src = n → ncols src = ncols dst →
  rectangular src → rectangular dst →
  ∃ out, assign_rows start 3 src dst = Ok out ∧
         nrows out = nrows dst ∧ ncols out = ncols dst ∧ rectangular out ∧
         ∀ i j, i < 3 * n →
           cell out i j =
             if selected start 3 i
             then cell src ((i - start) / 3) j else cell dst i j.
Proof.
  intros Hstart Hdst Hsrc Hcols [Hsrows Hscols] [Hdrows Hdcols].
  unfold assign_rows. rewrite Hdst, count_selected by done.
  rewrite Hsrc, Hcols, !Nat.eqb_refl. cbn [andb].
  eexists. split; [reflexivity|]. cbn [nrows ncols cells].
  assert (Hin : ∀ i, i < 3 * n → selected start 3 i = true →
            (i - start) / 3 < n).
  { intros i Hi Hsel%selected_spec. lia_mod. }
  split_and!; [done..| |].
  - split; cbn [nrows ncols cells]; [rewrite length_imap; congruence|].
    apply Forall_lookup. intros i row Hrow.
    apply list_lookup_imap_Some in Hrow as (row' & Hrow' & ->).
    rewrite Forall_lookup in Hdcols, Hscols.
    destruct (selected start 3 i) eqn:Hsel; [|by eapply Hdcols].
    destruct (cells src !! _) as [srow|] eqn:Hsrow; cbn.
    + rewrite (Hscols _ _ Hsrow). done.
    + by eapply Hdcols.
  - intros i j Hi. unfold cell. cbn [cells].
    rewrite list_lookup_imap.
    destruct (lookup_lt_is_Some_2 (cells dst) i) as [row Hrow]; [lia|].
    rewrite Hrow. cbn -[Nat.div Nat.modulo selected].
    destruct (selected start 3 i) eqn:Hsel; [|done].
    destruct (lookup_lt_is_Some_2 (cells src) ((i - start) / 3))
      as [srow Hsrow]; [specialize (Hin i Hi Hsel); lia|].
    by rewrite Hsrow.
Qed.

End NdArrayFacts.

Section MfccDeltasFacts.
Import Features.
Context `{L : Librosa}.
Local Open Scope nat_scope.

Lemma selected_third (start d k : nat) :
  start < 3 → d < 3 →
  selected start 3 (3 * k + d) = bool_decide (d = start).
Proof.
  intros Hstart Hd. case_bool_decide as Heq.
  - apply selected_spec. lia_mod.
  - apply not_true_iff_false. rewrite selected_spec. lia_mod.
Qed.


End MfccDeltasFacts.

Section MfccDeltasExamples.
Import Features.
Local Open Scope nat_scope.


End MfccDeltasExamples.

(** ** count_dim_sizes *)

Section ArgsortFacts.
Import DimSizes.
Implicit Types row : list Z.

Lemma insert_descending_perm row i sorted :
  insert_descending row i sorted ≡ₚ i :: sorted.
Proof.
  induction sorted as [|j rest IH]; cbn [insert_descending]; [done|].
  fold (entry row j). fold (entry row i).
  destruct (entry row j <=? entry row i); [done|].
  rewrite IH. apply Permutation_swap.
Qed.

Lemma insert_descending_sorted row i sorted :
  StronglySorted (descending row) sorted →
  StronglySorted (descending row) (insert_descending row i sorted).
Proof.
  induction 1 as [|j rest Hsorted IH Hj]; cbn [insert_descending].
  { repeat constructor. }
  fold (entry row j). fold (entry row i).
  destruct (Z.leb_spec (entry row j) (entry row i)) as [Hle|Hlt].
  - constructor; [by constructor|]. constructor; [done|].
    eapply Forall_impl; [exact Hj|]. unfold descending. intros k Hk. lia.
  - constructor; [done|].
    rewrite insert_descending_perm. constructor; [|done].
    unfold descending. lia.
Qed.

Lemma argsort_descending_perm row :
  argsort_descending row ≡ₚ seq 0 (length row).
Proof.
  unfold argsort_descending. induction (seq 0 (length row)) as [|i l IH];
    cbn [foldr]; [done|].
  by rewrite insert_descending_perm, IH.
Qed.

Lemma argsort_descending_sorted row :
  StronglySorted (descending row) (argsort_descending row).
Proof.
  unfold argsort_descending. induction (seq 0 (length row)) as [|i l IH];
    cbn [foldr]; [constructor|].
  by apply insert_descending_sorted.
Qed.

Lemma zip_gather row (indices : list nat) :
  zip (gather row indices) (Z.of_nat <$> indices) =
    (λ j, (entry row j, Z.of_nat j)) <$> indices.
Proof. induction indices as [|j l IH]; cbn; [done | by rewrite <- IH]. Qed.

(** The row of the result that comes from one row of counts: a count [c]
    stands with a size [s] exactly when it is positive and the count of
    that size; no size stands twice; larger counts come first. *)
Lemma masked_pairs_argsort row :
  let pairs :=
    masked_pairs (gather row (argsort_descending row))
                 (argsort_descending row) in
  (∀ c s, (c, s) ∈ pairs ↔
          0 < c ∧ ∃ j : nat, s = Z.of_nat j ∧ row !! j = Some c) ∧
  NoDup pairs.*2 ∧
  StronglySorted (λ p q, q.1 ≤ p.1) pairs.
Proof.
  cbv zeta. unfold masked_pairs. rewrite zip_gather.
  pose proof (argsort_descending_perm row) as Hperm.
  pose proof (argsort_descending_sorted row) as Hsorted.
  set (indices := argsort_descending row) in *.
  split_and!.
  - intros c s. rewrite list_elem_of_filter, list_elem_of_fmap. cbn.
    split.
    + intros (Hc & j & [= -> ->] & Hj). split; [done|]. exists j.
      split; [done|]. unfold entry in *.
      destruct (row !! j); [done|]. cbn in Hc. lia.
    + intros (Hc & j & -> & Hj). split; [done|]. exists j.
      split; [unfold entry; by rewrite Hj|].
      rewrite Hperm. apply elem_of_seq. apply lookup_lt_Some in Hj. lia.
  - apply (sublist_NoDup _
             (((λ j, (entry row j, Z.of_nat j)) <$> indices).*2)).
    + rewrite <- list_fmap_compose. cbn.
      apply (NoDup_fmap_2 Z.of_nat).
      rewrite Hperm. apply NoDup_seq.
    + apply fmap_sublist, sublist_filter.
  - clear Hperm. clearbody indices.
    induction Hsorted as [|j rest Hrest IH Hj]; [constructor|].
    cbn [fmap list_fmap]. rewrite filter_cons.
    assert (Hfilter : StronglySorted (λ p q : Z * Z, q.1 ≤ p.1)
              (filter (λ p, 0 < p.1)
                 ((λ j, (entry row j, Z.of_nat j)) <$> rest))).
    { apply IH. }
    case_decide; [|done]. constructor; [done|].
    apply Forall_forall. intros [c s] Hin.
    apply list_elem_of_filter in Hin as [_ Hin].
    apply list_elem_of_fmap in Hin as (k & [= -> ->] & Hk).
    rewrite Forall_forall in Hj. apply (Hj k Hk).
Qed.

End ArgsortFacts.

Section CountFacts.
Import DimSizes.
Implicit Types (m : list (list Z)) (shape : list Z) (shapes : list (list Z)).

Lemma wrap32_id (z : Z) : - 2 ^ 31 ≤ z ≤ int32_max → wrap32 z = z.
Proof.
  unfold wrap32, int32_max. intros Hz.
  rewrite Z.mod_small; lia.
Qed.

Lemma at_lt_Some n cols m (a s : nat) :
  matrix n cols m → (a < n)%nat → (s < cols)%nat → is_Some (at_ m a s).
Proof.
  intros [Hrows Hcols] Ha Hs. unfold at_.
  destruct (lookup_lt_is_Some_2 m a) as [row Hrow]; [lia|].
  rewrite Hrow. cbn. apply lookup_lt_is_Some_2.
  rewrite Forall_lookup in Hcols. by rewrite (Hcols _ _ Hrow).
Qed.

(** One update inside the counter. *)
Lemma add_at_inside n cols m (i j : nat) (u : Z) :
  matrix n cols m → (i < n)%nat → (j < cols)%nat →
  ∃ m', add_at m (Z.of_nat i, Z.of_nat j) u = Ok m' ∧ matrix n cols m' ∧
        ∀ a s, at_ m' a s =
               if decide (a = i ∧ s = j)
               then (λ c, wrap32 (c + u)) <$> at_ m a s
               else at_ m a s.
Proof.
  intros [Hrows Hcols] Hi Hj. unfold add_at.
  destruct (Z.leb_spec 0 (Z.of_nat i)); [|lia].
  destruct (Z.leb_spec 0 (Z.of_nat j)); [|lia]. cbn [andb].
  rewrite !Nat2Z.id.
  destruct (lookup_lt_is_Some_2 m i) as [row Hrow]; [lia|]. rewrite Hrow.
  pose proof Hcols as Hcols'. rewrite Forall_lookup in Hcols'.
  pose proof (Hcols' _ _ Hrow) as Hlen.
  destruct (lookup_lt_is_Some_2 row j) as [c Hc]; [lia|]. rewrite Hc.
  eexists. split; [reflexivity|]. split.
  - split; [by rewrite length_insert|].
    apply Forall_insert; [done|]. by rewrite length_insert.
  - intros a s. unfold at_. destruct (decide (a = i)) as [->|Ha].
    + rewrite list_lookup_insert_eq by lia. rewrite Hrow. cbn.
      destruct (decide (s = j)) as [->|Hs].
      * rewrite decide_True by done.
        rewrite list_lookup_insert_eq by lia. by rewrite Hc.
      * rewrite decide_False by (by intros [_ ?]).
        by rewrite list_lookup_insert_ne.
    + rewrite decide_False by (by intros [? _]).
      by rewrite list_lookup_insert_ne.
Qed.

(** The updates one shape asks for, from axis [k] on: in every row from
    [k] on, the count of the size the shape has in that axis goes up by
    one. *)
Lemma scatter_from (cols : nat) : ∀ shape (k n : nat) m,
  matrix n cols m → (k + length shape = n)%nat →
  Forall (λ s, 0 ≤ s < Z.of_nat cols) shape →
  (∀ a s c, (k ≤ a)%nat → at_ m a s = Some c →
            - 2 ^ 31 ≤ c + 1 ≤ int32_max) →
  ∃ m',
    reduce (λ c '(index, update), add_at c index update) m
      (zip (zip (Z.of_nat <$> seq k (length shape)) shape)
           (replicate (length shape) 1)) = Ok m' ∧
    matrix n cols m' ∧
    ∀ a s, at_ m' a s =
           if decide ((k ≤ a)%nat ∧
                      shape !! (a - k)%nat = Some (Z.of_nat s))
           then (λ c, c + 1) <$> at_ m a s
           else at_ m a s.
Proof.
  intros shape. induction shape as [|s0 shape IH];
    intros k n m Hm Hlen Hsizes Hroom.
  - exists m. split_and!; [done..|]. intros a s.
    rewrite decide_False; [done|]. by intros [_ ?].
  - apply Forall_cons in Hsizes as [Hs0 Hsizes]. cbn [length] in *.
    cbn [seq fmap list_fmap zip zip_with replicate reduce].
    destruct (add_at_inside n cols m k (Z.to_nat s0) 1 Hm)
      as (m1 & Hadd & Hm1 & Hat1); [lia..|].
    rewrite Z2Nat.id in Hadd by lia. rewrite Hadd.
    cbn [mbind result_bind].
    destruct (IH (S k) n m1 Hm1) as (m' & Hrun & Hm' & Hat');
      [lia|done| |].
    { intros a s c Ha. rewrite Hat1.
      rewrite decide_False by lia. intros Hc.
      eapply Hroom; [|exact Hc]. lia. }
    exists m'. split_and!; [done..|]. intros a s.
    rewrite Hat', Hat1. destruct (decide (a = k)) as [->|Hak].
    + rewrite decide_False by lia. rewrite Nat.sub_diag, lookup_cons.
      destruct (decide (s = Z.to_nat s0)) as [->|Hs].
      * rewrite decide_True by done.
        rewrite decide_True by (split; [lia | f_equal; lia]).
        destruct (at_ m k (Z.to_nat s0)) as [c|] eqn:Hc; [|done]. cbn.
        f_equal. apply wrap32_id. by eapply Hroom.
      * rewrite decide_False by (by intros [_ ?]).
        rewrite decide_False; [done|]. intros [_ [= ->]]. lia.
    + rewrite (decide_False (P := a = k ∧ _)) by (by intros [? _]).
      destruct (decide (k ≤ a)%nat) as [Hle|Hgt].
      * replace (a - k)%nat with (S (a - S k)) by lia. rewrite lookup_cons.
        destruct (decide (shape !! (a - S k)%nat = Some (Z.of_nat s)))
          as [Hsh|Hsh].
        -- by rewrite !decide_True by (split; [lia|done]).
        -- by rewrite !decide_False by (by intros [_ ?]).
      * by rewrite !decide_False by (intros [? _]; lia).
Qed.

Lemma accumulate_fits (n cols : nat) m shape :
  matrix n cols m → shape_fits n cols shape →
  (∀ a s c, at_ m a s = Some c → - 2 ^ 31 ≤ c + 1 ≤ int32_max) →
  ∃ m', accumulate n m shape = Ok m' ∧ matrix n cols m' ∧
        ∀ a s, at_ m' a s =
               if decide (shape !! a = Some (Z.of_nat s))
               then (λ c, c + 1) <$> at_ m a s
               else at_ m a s.
Proof.
  intros Hm [<- Hsizes] Hroom. unfold accumulate, stack_columns.
  rewrite length_tf_range, Nat.eqb_refl. cbn [mbind result_bind].
  unfold tensor_scatter_nd_add, LabelTable.tf_range.
  destruct (scatter_from cols shape 0 (length shape) m)
    as (m' & Hrun & Hm' & Hat);
    [done|lia|done|by intros; eapply Hroom|].
  exists m'. split_and!; [done..|]. intros a s. rewrite Hat, Nat.sub_0_r.
  destruct (decide (shape !! a = Some (Z.of_nat s))).
  - rewrite decide_True; [done|]. split; [lia|done].
  - rewrite decide_False; [done|]. by intros [_ ?].
Qed.

Lemma occurrences_cons shape shapes (a : nat) (s : Z) :
  occurrences (shape :: shapes) a s =
    (if decide (shape !! a = Some s) then 1 else 0) + occurrences shapes a s.
Proof.
  unfold occurrences. rewrite filter_cons.
  destruct (decide (shape !! a = Some s)); cbn [length]; lia.
Qed.

Lemma occurrences_bounds shapes (a : nat) (s : Z) :
  0 ≤ occurrences shapes a s ≤ Z.of_nat (length shapes).
Proof.
  unfold occurrences. pose proof (length_filter (λ shape, shape !! a = Some s)
                                    shapes). lia.
Qed.

Lemma occurrences_pos shapes (a : nat) (s : Z) :
  0 < occurrences shapes a s ↔ ∃ shape, shape ∈ shapes ∧ shape !! a = Some s.
Proof.
  unfold occurrences. split.
  - intros Hpos.
    destruct (filter (λ shape, shape !! a = Some s) shapes)
      as [|shape l] eqn:Hfilter; [cbn in Hpos; lia|].
    exists shape.
    assert (Hin : shape ∈ filter (λ shape, shape !! a = Some s) shapes)
      by (rewrite Hfilter; by left).
    apply list_elem_of_filter in Hin as [? ?]. done.
  - intros (shape & Hin & Hs).
    assert (Hf : shape ∈ filter (λ shape, shape !! a = Some s) shapes)
      by (by apply list_elem_of_filter).
    destruct (filter _ shapes); [by apply elem_of_nil in Hf | cbn; lia].
Qed.

(** Counting over the dataset: every entry of the counter grows by the
    number of shapes that have its size in its axis. *)
Lemma reduce_accumulate (n cols : nat) : ∀ shapes m,
  matrix n cols m → Forall (shape_fits n cols) shapes →
  (∀ a s c, at_ m a s = Some c →
            0 ≤ c ∧ c + Z.of_nat (length shapes) ≤ int32_max) →
  ∃ m', reduce (accumulate n) m shapes = Ok m' ∧ matrix n cols m' ∧
        ∀ a s, at_ m' a s =
               (λ c, c + occurrences shapes a (Z.of_nat s)) <$> at_ m a s.
Proof.
  induction shapes as [|shape shapes IH]; intros m Hm Hfits Hroom.
  - exists m. split_and!; [done..|]. intros a s.
    destruct (at_ m a s) as [c|]; [|done]. cbn. f_equal.
    unfold occurrences. cbn. lia.
  - apply Forall_cons in Hfits as [Hfit Hfits]. cbn [reduce length] in *.
    destruct (accumulate_fits n cols m shape Hm Hfit)
      as (m1 & -> & Hm1 & Hat1).
    { intros a s c Hc. destruct (Hroom a s c Hc). unfold int32_max in *.
      lia. }
    cbn [mbind result_bind].
    destruct (IH m1 Hm1 Hfits) as (m' & Hrun & Hm' & Hat').
    { intros a s c. rewrite Hat1. case_decide.
      - destruct (at_ m a s) as [c0|] eqn:Hc0; [|done]. intros [= <-].
        destruct (Hroom a s c0 Hc0). lia.
      - intros Hc. destruct (Hroom a s c Hc). lia. }
    exists m'. split_and!; [done..|]. intros a s.
    rewrite Hat', Hat1, occurrences_cons.
    case_decide; destruct (at_ m a s) as [c|]; cbn; try done; f_equal; lia.
Qed.

(** The running maximum of the shapes. *)
Lemma reduce_maximum (n : nat) (hi : Z) : ∀ shapes acc,
  length acc = n → Forall (λ v, 0 ≤ v ≤ hi) acc →
  Forall (λ shape, length shape = n ∧ Forall (λ s, 0 ≤ s ≤ hi) shape)
         shapes →
  ∃ max_sizes,
    reduce maximum acc shapes = Ok max_sizes ∧ length max_sizes = n ∧
    Forall (λ v, 0 ≤ v ≤ hi) max_sizes ∧
    (∀ a v, acc !! a = Some v → ∃ v', max_sizes !! a = Some v' ∧ v ≤ v') ∧
    (∀ shape a s, shape ∈ shapes → shape !! a = Some s →
                  ∃ v', max_sizes !! a = Some v' ∧ s ≤ v').
Proof.
  induction shapes as [|shape shapes IH]; intros acc Hlen Hacc Hshapes.
  - exists acc. split_and!; [done..| |].
    + intros a v Hv. exists v. split; [done | lia].
    + intros shape a s Hin. by apply elem_of_nil in Hin.
  - apply Forall_cons in Hshapes as [[Hslen Hs] Hshapes].
    assert (Hmax : maximum acc shape = Ok (zip_with Z.max acc shape)).
    { unfold maximum. by rewrite Hlen, Hslen, Nat.eqb_refl. }
    cbn [reduce]. rewrite Hmax. cbn [mbind result_bind].
    assert (Hzlen : length (zip_with Z.max acc shape) = n).
    { rewrite length_zip_with. lia. }
    assert (Hzlook : ∀ a x y, acc !! a = Some x → shape !! a = Some y →
              zip_with Z.max acc shape !! a = Some (Z.max x y)).
    { intros a x y Hx Hy. rewrite lookup_zip_with, Hx. cbn.
      by rewrite Hy. }
    destruct (IH (zip_with Z.max acc shape)) as (ms & Hrun & Hmlen & Hms
                                                  & Hge & Hall);
      [done| |done|].
    { apply Forall_lookup. intros a v Hv.
      rewrite lookup_zip_with in Hv.
      destruct (acc !! a) as [x|] eqn:Hx; [|done]. cbn in Hv.
      destruct (shape !! a) as [y|] eqn:Hy; [|done]. cbn in Hv.
      injection Hv as <-.
      rewrite Forall_lookup in Hacc, Hs.
      specialize (Hacc _ _ Hx). specialize (Hs _ _ Hy). lia. }
    exists ms. split_and!; [done..| |].
    + intros a v Hv.
      destruct (lookup_lt_is_Some_2 shape a) as [y Hy].
      { apply lookup_lt_Some in Hv. lia. }
      destruct (Hge a _ (Hzlook a v y Hv Hy)) as (v' & Hv' & Hle).
      exists v'. split; [done | lia].
    + intros sh a s Hin Hsa. apply elem_of_cons in Hin as [-> | Hin].
      * destruct (lookup_lt_is_Some_2 acc a) as [x Hx].
        { apply lookup_lt_Some in Hsa. lia. }
        destruct (Hge a _ (Hzlook a x s Hx Hsa)) as (v' & Hv' & Hle).
        exists v'. split; [done | lia].
      * by eapply Hall.
Qed.

Lemma reduce_max_ge (v : Z) (l : list Z) : v ∈ l → v ≤ reduce_max l.
Proof.
  unfold reduce_max. induction l as [|x l IH]; intros Hin.
  - by apply elem_of_nil in Hin.
  - cbn [foldr]. apply elem_of_cons in Hin as [-> | Hin]; [lia|].
    specialize (IH Hin). lia.
Qed.

Lemma reduce_max_le (hi : Z) (l : list Z) :
  - 2 ^ 31 ≤ hi → Forall (λ v, v ≤ hi) l → reduce_max l ≤ hi.
Proof.
  unfold reduce_max. intros Hhi. induction 1 as [|x l Hx _ IH]; cbn [foldr];
    lia.
Qed.

End CountFacts.

Section CountDimSizesFacts.
Import DimSizes.

Lemma mapM_get_shape (idx n : nat) (hi : Z) (ds : list (list (list Z))) :
  Forall (tensor_at idx n hi) ds →
  ∃ shapes,
    mapM (get_shape_at_index idx) ds = Ok shapes ∧
    Forall2 (λ t shape, t !! idx = Some shape) ds shapes ∧
    Forall (λ shape, length shape = n ∧ Forall (λ s, 0 ≤ s ≤ hi) shape)
           shapes.
Proof.
  induction 1 as [|t ds (shape & Ht & Hlen & Hsizes) _
                    (shapes & Hrun & Hall & Hfit)].
  - exists []. by split_and!.
  - exists (shape :: shapes). split_and!.
    + change (mapM (get_shape_at_index idx) (t :: ds))
        with (y ← get_shape_at_index idx t;
              k ← mapM (get_shape_at_index idx) ds; Ok (y :: k)).
      assert (get_shape_at_index idx t = Ok shape) as ->
        by (unfold get_shape_at_index; by rewrite Ht).
      by rewrite Hrun.
    + by constructor.
    + by constructor.
Qed.

Lemma sizes_count_shapes (idx a : nat) (s : Z) ds shapes :
  Forall2 (λ t shape, t !! idx = Some shape) ds shapes →
  sizes_count ds idx a s = occurrences shapes a s.
Proof.
  unfold sizes_count, occurrences. intros Hall. f_equal.
  induction Hall as [|t shape ds shapes Ht _ IH]; [done|].
  rewrite !filter_cons, Ht. cbn.
  destruct (decide (shape !! a = Some s)); cbn; by rewrite IH.
Qed.

Lemma at_replicate (n cols a s : nat) :
  at_ (replicate n (replicate cols 0)) a s =
    if decide ((a < n)%nat ∧ (s < cols)%nat) then Some 0 else None.
Proof.
  unfold at_. destruct (decide (a < n)%nat) as [Ha|Ha].
  - rewrite lookup_replicate_2 by done. cbn.
    destruct (decide (s < cols)%nat) as [Hs|Hs].
    + rewrite lookup_replicate_2 by done. by rewrite decide_True.
    + rewrite decide_False by (by intros [_ ?]).
      apply lookup_replicate_None. lia.
  - rewrite decide_False by (by intros [? _]).
    assert (replicate n (replicate cols 0) !! a = None) as ->; [|done].
    apply lookup_replicate_None. lia.
Qed.

Lemma matrix_replicate (n cols : nat) :
  matrix n cols (replicate n (replicate cols 0)).
Proof.
  split; [apply length_replicate|].
  apply Forall_replicate, length_replicate.
Qed.

(** The rows of the result, read off the counter. *)
Lemma result_rows_lookup (size_counts : list (list Z)) (a : nat) row :
  zip_with masked_pairs
    (zip_with gather size_counts (argsort_descending <$> size_counts))
    (argsort_descending <$> size_counts) !! a = Some row →
  ∃ counts, size_counts !! a = Some counts ∧
            row = masked_pairs (gather counts (argsort_descending counts))
                               (argsort_descending counts).
Proof.
  rewrite !lookup_zip_with, list_lookup_fmap.
  destruct (size_counts !! a) as [counts|]; [|done]. cbn.
  intros [= <-]. by exists counts.
Qed.

(** C3 (amended). For a dataset of fewer than 2^31 elements whose tensor
    at the given index has ndims > 0 axes, each of a size below 2^31 - 1,
    count_dim_sizes returns one row per axis; the row of an axis holds
    exactly the pairs (count, size) of the sizes that occur in that axis,
    each with the number of elements that have it, every size once, larger
    counts first, and no pair of count zero. *)
Theorem count_dim_sizes_spec
    (ds : list (list (list Z))) (ds_element_index : nat) (ndims : Z) :
  0 < ndims →
  Forall (tensor_at ds_element_index (Z.to_nat ndims) (int32_max - 1)) ds →
  Z.of_nat (length ds) ≤ int32_max →
  ∃ rows,
    count_dim_sizes ds ds_element_index ndims = Ok rows ∧
    length rows = Z.to_nat ndims ∧
    ∀ (axis : nat) row, rows !! axis = Some row →
      (∀ count size,
         (count, size) ∈ row ↔
         0 < count ∧ count = sizes_count ds ds_element_index axis size) ∧
      NoDup row.*2 ∧
      StronglySorted (λ p q, q.1 ≤ p.1) row.
Proof.
  intros Hndims Hds Hlen. set (n := Z.to_nat ndims) in *.
  destruct (mapM_get_shape _ _ _ _ Hds) as (shapes & Hshapes & Hall & Hfit).
  assert (Hslen : length shapes = length ds)
    by (symmetry; by eapply Forall2_length).
  destruct (reduce_maximum n (int32_max - 1) shapes (replicate n 0))
    as (max_sizes & Hmax & Hmlen & Hmbound & Hmacc & Hmge).
  { apply length_replicate. }
  { apply Forall_replicate. unfold int32_max. lia. }
  { done. }
  set (M := reduce_max max_sizes).
  assert (HM : 0 ≤ M ≤ int32_max - 1).
  { split.
    - destruct (Hmacc 0%nat 0) as (v & Hv & Hle).
      { apply lookup_replicate_2. lia. }
      etrans; [exact Hle|]. apply reduce_max_ge.
      by eapply list_elem_of_lookup_2.
    - apply reduce_max_le; [unfold int32_max; lia|].
      eapply Forall_impl; [exact Hmbound|]. cbn. lia. }
  set (cols := Z.to_nat (M + 1)).
  assert (Hfits : Forall (shape_fits n cols) shapes).
  { apply Forall_forall. intros shape Hin.
    rewrite Forall_forall in Hfit. destruct (Hfit _ Hin) as [Hl Hs].
    split; [done|]. apply Forall_lookup. intros a s Hs'.
    rewrite Forall_lookup in Hs. specialize (Hs _ _ Hs').
    destruct (Hmge shape a s Hin Hs') as (v & Hv & Hle).
    assert (v ≤ M) by (apply reduce_max_ge; by eapply list_elem_of_lookup_2).
    subst cols. lia. }
  destruct (reduce_accumulate n cols shapes (replicate n (replicate cols 0)))
    as (size_counts & Hcounts & Hmatrix & Hat).
  { apply matrix_replicate. }
  { done. }
  { intros a s c. rewrite at_replicate. case_decide; [|done].
    intros [= <-]. lia. }
  eexists. split.
  { unfold count_dim_sizes.
    destruct (Z.ltb_spec 0 ndims); [|lia]. cbn [assert mbind result_bind].
    rewrite Hshapes. cbn [mbind result_bind]. fold n.
    rewrite Hmax. cbn [mbind result_bind]. fold M.
    rewrite wrap32_id by (unfold int32_max in *; lia).
    unfold zeros. destruct (Z.ltb_spec (M + 1) 0); [lia|].
    cbn [mbind result_bind]. fold cols.
    unfold accumulate in Hcounts. rewrite Hcounts.
    cbn [mbind result_bind]. reflexivity. }
  destruct Hmatrix as [Hrows Hcols]. split.
  { rewrite !length_zip_with, length_fmap. lia. }
  intros axis row Hrow.
  apply result_rows_lookup in Hrow as (counts & Hcrow & ->).
  destruct (masked_pairs_argsort counts) as (Hmem & Hnodup & Hsorted).
  split_and!; [|done..].
  intros count size. rewrite Hmem.
  rewrite (sizes_count_shapes _ _ _ _ _ Hall).
  assert (Haxis : (axis < n)%nat)
    by (apply lookup_lt_Some in Hcrow; lia).
  assert (Hentry : ∀ j : nat, counts !! j =
            if decide (j < cols)%nat
            then Some (occurrences shapes axis (Z.of_nat j)) else None).
  { intros j. specialize (Hat axis j). unfold at_ in Hat at 1.
    rewrite Hcrow in Hat. cbn in Hat. rewrite Hat, at_replicate.
    destruct (decide (j < cols)%nat).
    - rewrite decide_True by done. cbn. f_equal; lia.
    - rewrite decide_False; [done|]. by intros [_ ?]. }
  split.
  - intros (Hpos & j & -> & Hj). split; [done|].
    rewrite Hentry in Hj. case_decide; [|done]. by injection Hj as <-.
  - intros [Hpos ->]. split; [done|].
    apply occurrences_pos in Hpos as (shape & Hin & Hsize).
    rewrite Forall_forall in Hfits. destruct (Hfits _ Hin) as [_ Hs].
    rewrite Forall_lookup in Hs. specialize (Hs _ _ Hsize).
    exists (Z.to_nat size). split; [lia|].
    rewrite Hentry, decide_True by lia. do 2 f_equal. lia.
Qed.

End CountDimSizesFacts.

Section CountDimSizesExamples.
Import DimSizes.

Lemma count_dim_sizes_spec_witness :
  count_dim_sizes example_dataset 0 2 = Ok [[(10, 3)]; [(10, 4)]].
Proof.
  destruct (count_dim_sizes_spec example_dataset 0 2)
    as (rows & Hrun & _).
  - lia.
  - apply Forall_replicate. exists [3; 4].
    split_and!; [done..|]. unfold int32_max. repeat constructor; lia.
  - unfold int32_max. cbn. lia.
  - rewrite Hrun. vm_compute in Hrun. by injection Hrun as <-.
Defined.

(** C3, as stated, fails: a dataset of one tensor of shape
    (2147483647, 0), which has two axes and no entries, makes the int32
    sum max_max_size + 1 wrap around to a negative number of columns, and
    the call raises instead of returning the pairs. *)
Lemma count_dim_sizes_int32_overflow :
  let ds : list (list (list Z)) := [[[2147483647; 0]]] in
  Forall (λ t, ∃ shape, t !! 0%nat = Some shape ∧ length shape = 2%nat) ds ∧
  count_dim_sizes ds 0 2 = Raise InvalidArgument ∧
  ¬ ∃ rows, count_dim_sizes ds 0 2 = Ok rows.
Proof.
  cbv zeta. split_and!.
  - repeat constructor. by exists [2147483647; 0].
  - vm_compute. reflexivity.
  - intros [rows Hrows]. vm_compute in Hrows. discriminate.
Qed.

End CountDimSizesExamples.

(** ** tf_print *)

Section TfPrintFacts.
Import TfPrint.
Local Open Scope string_scope.

(** X1. tf_print reaches tf.print exactly when the caller names an
    output stream; without one it ends in a NameError, the module never
    importing sys. When it reaches tf.print, the positional arguments and
    every keyword argument of the caller are passed on as given, and the
    only addition is summarize=-1 when the caller gave no summarize. *)
Theorem tf_print_forwards {A} (args : list A) (kwargs : gmap string kwarg) :
  (kwargs !! "output_stream" = None →
   tf_print args kwargs = NameError "sys") ∧
  (is_Some (kwargs !! "output_stream") →
   ∃ passed,
     tf_print args kwargs = Printed args passed ∧
     (∀ k v, kwargs !! k = Some v → passed !! k = Some v) ∧
     passed !! "summarize" =
       Some (default (KInt (-1)) (kwargs !! "summarize")) ∧
     (∀ k, k ≠ "summarize" → passed !! k = kwargs !! k)).
Proof.
  unfold tf_print.
  destruct (kwargs !! "summarize") as [s|] eqn:Hsum.
  - rewrite (decide_True (P := is_Some (Some s))) by (by eexists). split.
    + intros Hnone. rewrite decide_False; [done|].
      rewrite Hnone. by intros [? [=]].
    + intros Hstream. rewrite decide_True by done.
      eexists. by split_and!.
  - rewrite (decide_False (P := is_Some None)) by (by intros [? [=]]).
    rewrite lookup_insert_ne by done. split.
    + intros Hnone. rewrite decide_False; [done|].
      rewrite Hnone. by intros [? [=]].
    + intros Hstream. rewrite decide_True by done.
      eexists. split; [done|]. split_and!.
      * intros k v Hk. rewrite lookup_insert_ne; [done|]. congruence.
      * by rewrite lookup_insert_eq.
      * intros k Hk. by rewrite lookup_insert_ne.
Qed.

End TfPrintFacts.

(** ** make_label2onehot: repeated labels, unknown keys, decoding *)

Section LabelTableMoreFacts.
Import LabelTable.

(** A key that comes twice, or is bound already, comes with a value the
    table does not hold for it: the initializer gives up. *)
Lemma initialize_repeated (labels : list string) : ∀ (k : nat) m,
  (∀ key v, m !! key = Some v → v < Z.of_nat k) →
  ¬ NoDup labels ∨ (∃ l, l ∈ labels ∧ is_Some (m !! l)) →
  initialize (zip labels (Z.of_nat <$> seq k (length labels))) m =
    Raise FailedPrecondition.
Proof.
  induction labels as [|l labels IH]; intros k m Hbelow Hbad.
  { destruct Hbad as [Hdup | (l & Hin & _)];
      [destruct Hdup; constructor | by apply elem_of_nil in Hin]. }
  cbn [length seq fmap list_fmap zip zip_with initialize].
  destruct (m !! l) as [v'|] eqn:Hl.
  { specialize (Hbelow _ _ Hl).
    destruct (Z.eqb_spec v' (Z.of_nat k)); [lia | done]. }
  apply IH.
  - intros key v. destruct (decide (key = l)) as [->|Hne].
    + rewrite lookup_insert_eq. intros [= <-]. lia.
    + rewrite lookup_insert_ne by done. intros Hv%Hbelow. lia.
  - destruct (decide (l ∈ labels)) as [Hin|Hnotin].
    { right. exists l. split; [done|]. rewrite lookup_insert_eq. by eexists. }
    destruct Hbad as [Hdup | (l' & Hin & Hsome)].
    + left. intros Hnd. apply Hdup. by constructor.
    + right. exists l'. apply elem_of_cons in Hin as [-> | Hin].
      * rewrite Hl in Hsome. by destruct Hsome.
      * split; [done|]. rewrite lookup_insert_ne; [done|]. by intros ->.
Qed.

Lemma make_label2onehot_repeated (labels : list string) :
  ¬ NoDup labels → make_label2onehot labels = Raise FailedPrecondition.
Proof.
  intros Hdup. unfold make_label2onehot, mkStaticHashTable, tf_range.
  rewrite (initialize_repeated labels 0 ∅); [done| |by left].
  intros key v. by rewrite lookup_empty.
Qed.

(** What a call that returns has returned. *)
Lemma make_label2onehot_inv (labels : list string) label2int OH :
  make_label2onehot labels = Ok (label2int, OH) →
  NoDup labels ∧
  table label2int = list_to_map (zip labels (tf_range (length labels))) ∧
  default_value label2int = Z.of_nat (length labels) ∧
  OH = one_hot (tf_range (length labels)) (length labels).
Proof.
  intros Hmk.
  assert (Hnd : NoDup labels).
  { destruct (decide (NoDup labels)) as [|Hdup]; [done|].
    by rewrite (make_label2onehot_repeated _ Hdup) in Hmk. }
  split; [done|]. revert Hmk. unfold make_label2onehot, mkStaticHashTable.
  rewrite initialize_nodup; [| |by intros; apply lookup_empty].
  - cbn. intros [= <- <-]. cbn. by rewrite (right_id_L ∅ (∪)).
  - rewrite fst_zip; [done|]. by rewrite length_tf_range.
Qed.

Lemma make_label2onehot_index (labels : list string) label2int OH
    (i : nat) (l : string) :
  make_label2onehot labels = Ok (label2int, OH) →
  labels !! i = Some l → lookup label2int l = Z.of_nat i.
Proof.
  intros (Hnd & Htable & _ & _)%make_label2onehot_inv Hi.
  pose proof (lookup_lt_Some _ _ _ Hi) as Hlt.
  unfold lookup. rewrite Htable.
  assert (Hin : (l, Z.of_nat i) ∈ zip labels (tf_range (length labels))).
  { apply list_elem_of_lookup. exists i.
    rewrite lookup_zip_with, Hi. cbn. by rewrite tf_range_lookup. }
  apply elem_of_list_to_map in Hin; [by rewrite Hin|].
  rewrite fst_zip; [done|]. by rewrite length_tf_range.
Qed.

Lemma make_label2onehot_unknown (labels : list string) label2int OH
    (key : string) :
  make_label2onehot labels = Ok (label2int, OH) →
  key ∉ labels → lookup label2int key = Z.of_nat (length labels).
Proof.
  intros (Hnd & Htable & Hdefault & _)%make_label2onehot_inv Hkey.
  unfold lookup. rewrite Htable, Hdefault.
  rewrite (not_elem_of_list_to_map_1 _ key); [done|].
  rewrite fst_zip; [done|]. by rewrite length_tf_range.
Qed.


(** X3. Indexing OH with what the table returns: the index of a key is a
    row of OH exactly when the key is one of the labels; for every other
    key it is len(labels), one past the last row. *)
Theorem make_label2onehot_row_in_range (labels : list string) label2int OH
    (key : string) :
  make_label2onehot labels = Ok (label2int, OH) →
  0 ≤ lookup label2int key ≤ Z.of_nat (length labels) ∧
  length OH = length labels ∧
  (is_Some (OH !! Z.to_nat (lookup label2int key)) ↔ key ∈ labels).
Proof.
  intros Hmk.
  pose proof (make_label2onehot_inv _ _ _ Hmk) as (_ & _ & _ & HOH).
  assert (Hlen : length OH = length labels).
  { rewrite HOH. unfold one_hot. by rewrite length_fmap, length_tf_range. }
  destruct (decide (key ∈ labels)) as [Hin|Hnotin].
  - apply list_elem_of_lookup in Hin as [i Hi].
    pose proof (lookup_lt_Some _ _ _ Hi) as Hlt.
    rewrite (make_label2onehot_index _ _ _ _ _ Hmk Hi), Nat2Z.id.
    split_and!; [lia..|done|].
    split; [intros _; by eapply list_elem_of_lookup_2|intros _].
    apply lookup_lt_is_Some_2. lia.
  - rewrite (make_label2onehot_unknown _ _ _ _ Hmk Hnotin), Nat2Z.id.
    split_and!; [lia..|done|].
    split; [|done]. intros Hsome%lookup_lt_is_Some_1. lia.
Qed.

Lemma argmax_go_keep (row : list Z) : ∀ (best_at : nat) (best : Z) (i : nat),
  Forall (λ x, x ≤ best) row → argmax_go best_at best i row = best_at.
Proof.
  induction row as [|x row IH]; intros best_at best i Hall; [done|].
  apply Forall_cons in Hall as [Hx Hall]. cbn [argmax_go].
  destruct (Z.ltb_spec best x); [lia|]. by apply IH.
Qed.

Lemma argmax_go_one_hot (depth : nat) (i : Z) : ∀ (k best_at : nat),
  (k ≤ Z.to_nat i)%nat → 0 ≤ i →
  (Z.to_nat i < k + depth)%nat →
  argmax_go best_at 0 k
    ((λ j : nat, if Z.of_nat j =? i then 1 else 0) <$> seq k depth) =
    Z.to_nat i.
Proof.
  induction depth as [|depth IH]; intros k best_at Hk Hi Hlt; [lia|].
  cbn [seq fmap list_fmap argmax_go].
  destruct (Z.eqb_spec (Z.of_nat k) i) as [<-|Hne].
  - cbn. rewrite argmax_go_keep; [lia|].
    apply Forall_fmap, Forall_forall. intros j _. cbn.
    destruct (Z.of_nat j =? Z.of_nat k); lia.
  - cbn. apply IH; lia.
Qed.

(** X4. Decoding what was encoded: for distinct labels, the row of OH
    that the table sends a label to has its largest entry (tf.math.argmax)
    at the position of that label, so the label is read back from it. *)
Theorem make_label2onehot_round_trip (labels : list string) label2int OH
    (i : nat) (l : string) :
  make_label2onehot labels = Ok (label2int, OH) →
  labels !! i = Some l →
  ∃ row, OH !! Z.to_nat (lookup label2int l) = Some row ∧
         argmax row = i ∧ labels !! argmax row = Some l.
Proof.
  intros Hmk Hi.
  pose proof (make_label2onehot_inv _ _ _ Hmk) as (_ & _ & _ & HOH).
  pose proof (lookup_lt_Some _ _ _ Hi) as Hlt.
  rewrite (make_label2onehot_index _ _ _ _ _ Hmk Hi), Nat2Z.id.
  exists (one_hot_row (length labels) (Z.of_nat i)).
  assert (Hmax : argmax (one_hot_row (length labels) (Z.of_nat i)) = i).
  { unfold one_hot_row. destruct (length labels) as [|n]; [lia|].
    cbn [seq fmap list_fmap argmax].
    destruct (Z.eqb_spec (Z.of_nat 0) (Z.of_nat i)) as [Heq|Hne].
    - rewrite argmax_go_keep; [lia|].
      apply Forall_fmap, Forall_forall. intros j _. cbn.
      destruct (Z.of_nat j =? Z.of_nat i); lia.
    - rewrite argmax_go_one_hot; lia. }
  split_and!.
  - rewrite HOH. unfold one_hot.
    by rewrite list_lookup_fmap, tf_range_lookup.
  - done.
  - by rewrite Hmax.
Qed.

End LabelTableMoreFacts.

(** ** count_dim_sizes: order of ties, totals, uniform and empty datasets,
       ill-shaped elements *)

Section CountDimSizesMoreFacts.
Import DimSizes.

Lemma rows_fmap (size_counts : list (list Z)) :
  zip_with masked_pairs
    (zip_with gather size_counts (argsort_descending <$> size_counts))
    (argsort_descending <$> size_counts) = row_of <$> size_counts.
Proof. induction size_counts as [|c l IH]; [done|]. cbn. by rewrite IH. Qed.

(** Whatever is returned is read off a counter, row by row. *)
Lemma count_dim_sizes_rows (ds : list (list (list Z))) (idx : nat) (ndims : Z)
    rows :
  count_dim_sizes ds idx ndims = Ok rows →
  ∃ size_counts, rows = row_of <$> size_counts.
Proof.
  unfold count_dim_sizes.
  destruct (assert _ _); cbn [mbind result_bind]; [|done].
  destruct (mapM _ _); cbn [mbind result_bind]; [|done].
  destruct (reduce maximum _ _); cbn [mbind result_bind]; [|done].
  destruct (zeros _ _); cbn [mbind result_bind]; [|done].
  destruct (reduce _ _ _) as [size_counts|]; cbn [mbind result_bind]; [|done].
  intros [= <-]. exists size_counts. apply rows_fmap.
Qed.

Lemma insert_descending_ties row (i : nat) sorted :
  StronglySorted (λ a b, entry row b < entry row a ∨
                         (entry row b = entry row a ∧ a < b)%nat) sorted →
  Forall (λ j, i < j)%nat sorted →
  StronglySorted (λ a b, entry row b < entry row a ∨
                         (entry row b = entry row a ∧ a < b)%nat)
                 (insert_descending row i sorted).
Proof.
  induction 1 as [|j rest Hsorted IH Hj]; intros Hgt; cbn [insert_descending].
  { repeat constructor. }
  apply Forall_cons in Hgt as [Hij Hgt].
  fold (entry row j). fold (entry row i).
  destruct (Z.leb_spec (entry row j) (entry row i)) as [Hle|Hlt].
  - constructor; [by constructor|]. constructor; [lia|].
    rewrite Forall_forall in Hj, Hgt. apply Forall_forall. intros k Hk.
    specialize (Hj k Hk). specialize (Hgt k Hk). cbn in *. lia.
  - constructor; [by apply IH|].
    rewrite insert_descending_perm. constructor; [lia | done].
Qed.

Lemma argsort_descending_ties row :
  StronglySorted (λ a b, entry row b < entry row a ∨
                         (entry row b = entry row a ∧ a < b)%nat)
                 (argsort_descending row).
Proof.
  unfold argsort_descending. generalize (length row) as n.
  intros n. generalize 0%nat as k. induction n as [|n IH]; intros k;
    cbn [seq foldr]; [constructor|].
  apply insert_descending_ties; [apply IH|].
  assert (Hperm : foldr (insert_descending row) [] (seq (S k) n)
                  ≡ₚ seq (S k) n).
  { clear. induction (seq (S k) n) as [|i l IH]; cbn [foldr]; [done|].
    by rewrite insert_descending_perm, IH. }
  rewrite Hperm. apply Forall_forall. intros j Hj%elem_of_seq. lia.
Qed.

Lemma row_of_ties (counts : list Z) :
  StronglySorted before_in_row (row_of counts).
Proof.
  unfold row_of, masked_pairs. rewrite zip_gather.
  induction (argsort_descending_ties counts) as [|j rest Hrest IH Hj];
    [constructor|].
  cbn [fmap list_fmap]. rewrite filter_cons. case_decide; [|done].
  constructor; [done|].
  apply Forall_forall. intros [c s] Hin.
  apply list_elem_of_filter in Hin as [_ Hin].
  apply list_elem_of_fmap in Hin as (k & [= -> ->] & Hk).
  rewrite Forall_forall in Hj. specialize (Hj k Hk).
  unfold before_in_row. cbn. lia.
Qed.

(** X5. In every row that count_dim_sizes returns, the pairs stand in a
    fixed order: larger counts first, and among sizes that occur equally
    often the smaller size first. No two pairs of a row are tied. *)
Theorem count_dim_sizes_order
    (ds : list (list (list Z))) (ds_element_index : nat) (ndims : Z) rows :
  count_dim_sizes ds ds_element_index ndims = Ok rows →
  Forall (StronglySorted before_in_row) rows.
Proof.
  intros [size_counts ->]%count_dim_sizes_rows.
  apply Forall_fmap, Forall_forall. intros counts _. apply row_of_ties.
Qed.

Lemma mapM_get_shape_inv (idx : nat) (ds : list (list (list Z))) shapes :
  mapM (get_shape_at_index idx) ds = Ok shapes →
  Forall2 (λ t shape, t !! idx = Some shape) ds shapes.
Proof.
  revert shapes. induction ds as [|t ds IH]; intros shapes.
  { intros [= <-]. constructor. }
  change (mapM (get_shape_at_index idx) (t :: ds))
    with (y ← get_shape_at_index idx t;
          k ← mapM (get_shape_at_index idx) ds; Ok (y :: k)).
  destruct (get_shape_at_index idx t) as [shape|] eqn:Ht;
    cbn [mbind result_bind]; [|done].
  destruct (mapM _ ds) as [shapes'|]; cbn [mbind result_bind]; [|done].
  intros [= <-]. constructor; [|by apply IH].
  unfold get_shape_at_index in Ht. destruct (t !! idx); congruence.
Qed.

Lemma reduce_maximum_raise (n : nat) : ∀ shapes acc,
  length acc = n → Exists (λ shape, length shape ≠ n) shapes →
  reduce maximum acc shapes = Raise InvalidArgument.
Proof.
  induction shapes as [|shape shapes IH]; intros acc Hlen Hex.
  { by apply Exists_nil in Hex. }
  cbn [reduce].
  destruct (maximum acc shape) as [acc'|e] eqn:Hmax; unfold maximum in Hmax;
    destruct (Nat.eqb_spec (length acc) (length shape)) as [Heq|Hne];
    try discriminate Hmax; cbn [mbind result_bind].
  - injection Hmax as <-. apply IH.
    + rewrite length_zip_with. lia.
    + apply Exists_cons in Hex as [Hbad | Hex]; [|done].
      destruct Hbad. congruence.
  - by injection Hmax as <-.
Qed.

(** X6. An element without a tensor at the element index, or with a tensor
    there whose number of axes is not ndims, makes count_dim_sizes raise:
    nothing is counted for a dataset that holds one. *)
Theorem count_dim_sizes_ill_shaped
    (ds : list (list (list Z))) (ds_element_index : nat) (ndims : Z) :
  Exists (λ t, ∀ shape, t !! ds_element_index = Some shape →
                        length shape ≠ Z.to_nat ndims) ds →
  ∃ e, count_dim_sizes ds ds_element_index ndims = Raise e.
Proof.
  intros Hex. unfold count_dim_sizes.
  destruct (assert _ _); cbn [mbind result_bind]; [|by eexists].
  destruct (mapM _ _) as [shapes|] eqn:Hshapes; cbn [mbind result_bind];
    [|by eexists].
  apply mapM_get_shape_inv in Hshapes.
  rewrite (reduce_maximum_raise (Z.to_nat ndims)); [by eexists| |].
  - apply length_replicate.
  - clear -Hex Hshapes. induction Hshapes as [|t shape ds shapes Ht _ IH].
    { by apply Exists_nil in Hex. }
    apply Exists_cons in Hex as [Hbad | Hex].
    + left. by apply Hbad.
    + right. by apply IH.
Qed.

End CountDimSizesMoreFacts.

Section CountDimSizesTotals.
Import DimSizes.

(** The run on a dataset whose sizes and length fit int32: the result is
    read off a counter that holds, for every axis and size, the number of
    shapes with that size in that axis. *)
Lemma count_dim_sizes_counter
    (ds : list (list (list Z))) (idx : nat) (ndims : Z) :
  0 < ndims →
  Forall (tensor_at idx (Z.to_nat ndims) (int32_max - 1)) ds →
  Z.of_nat (length ds) ≤ int32_max →
  ∃ shapes size_counts (cols : nat),
    Forall2 (λ t shape, t !! idx = Some shape) ds shapes ∧
    Forall (shape_fits (Z.to_nat ndims) cols) shapes ∧
    matrix (Z.to_nat ndims) cols size_counts ∧
    count_dim_sizes ds idx ndims = Ok (row_of <$> size_counts) ∧
    ∀ (a : nat) counts, size_counts !! a = Some counts →
      ∀ j : nat, counts !! j =
        if decide (j < cols)%nat
        then Some (occurrences shapes a (Z.of_nat j)) else None.
Proof.
  intros Hndims Hds Hlen. set (n := Z.to_nat ndims) in *.
  destruct (mapM_get_shape _ _ _ _ Hds) as (shapes & Hshapes & Hall & Hfit).
  assert (Hslen : length shapes = length ds)
    by (symmetry; by eapply Forall2_length).
  destruct (reduce_maximum n (int32_max - 1) shapes (replicate n 0))
    as (max_sizes & Hmax & Hmlen & Hmbound & Hmacc & Hmge).
  { apply length_replicate. }
  { apply Forall_replicate. unfold int32_max. lia. }
  { done. }
  set (M := reduce_max max_sizes).
  assert (HM : 0 ≤ M ≤ int32_max - 1).
  { split.
    - destruct (Hmacc 0%nat 0) as (v & Hv & Hle).
      { apply lookup_replicate_2. lia. }
      etrans; [exact Hle|]. apply reduce_max_ge.
      by eapply list_elem_of_lookup_2.
    - apply reduce_max_le; [unfold int32_max; lia|].
      eapply Forall_impl; [exact Hmbound|]. cbn. lia. }
  set (cols := Z.to_nat (M + 1)).
  assert (Hfits : Forall (shape_fits n cols) shapes).
  { apply Forall_forall. intros shape Hin.
    rewrite Forall_forall in Hfit. destruct (Hfit _ Hin) as [Hl Hs].
    split; [done|]. apply Forall_lookup. intros a s Hs'.
    rewrite Forall_lookup in Hs. specialize (Hs _ _ Hs').
    destruct (Hmge shape a s Hin Hs') as (v & Hv & Hle).
    assert (v ≤ M) by (apply reduce_max_ge; by eapply list_elem_of_lookup_2).
    subst cols. lia. }
  destruct (reduce_accumulate n cols shapes (replicate n (replicate cols 0)))
    as (size_counts & Hcounts & Hmatrix & Hat).
  { apply matrix_replicate. }
  { done. }
  { intros a s c. rewrite at_replicate. case_decide; [|done].
    intros [= <-]. lia. }
  exists shapes, size_counts, cols. split_and!; [done..| |].
  { unfold count_dim_sizes.
    destruct (Z.ltb_spec 0 ndims); [|lia]. cbn [assert mbind result_bind].
    rewrite Hshapes. cbn [mbind result_bind]. fold n.
    rewrite Hmax. cbn [mbind result_bind]. fold M.
    rewrite wrap32_id by (unfold int32_max in *; lia).
    unfold zeros. destruct (Z.ltb_spec (M + 1) 0); [lia|].
    cbn [mbind result_bind]. fold cols.
    unfold accumulate in Hcounts. rewrite Hcounts.
    cbn [mbind result_bind]. by rewrite rows_fmap. }
  intros a counts Hcrow j.
  assert (Haxis : (a < n)%nat).
  { destruct Hmatrix as [<- _]. by eapply lookup_lt_Some. }
  specialize (Hat a j). unfold at_ in Hat at 1.
  rewrite Hcrow in Hat. cbn in Hat. rewrite Hat, at_replicate.
  destruct (decide (j < cols)%nat).
  - rewrite decide_True by done. cbn. f_equal; lia.
  - rewrite decide_False; [done|]. by intros [_ ?].
Qed.

Lemma sum_of_perm (l k : list Z) : l ≡ₚ k → sum_of l = sum_of k.
Proof.
  unfold sum_of. induction 1; cbn [foldr]; lia.
Qed.

Lemma sum_of_positive (pairs : list (Z * Z)) :
  Forall (λ p, 0 ≤ p.1) pairs →
  sum_of (filter (λ p, 0 < p.1) pairs).*1 = sum_of pairs.*1.
Proof.
  unfold sum_of. induction 1 as [|p l Hp _ IH]; [done|].
  rewrite filter_cons. case_decide; cbn [fmap list_fmap foldr] in *; lia.
Qed.

(** Of the sizes from [k] on, [m] of them, a shape has at most one in an
    axis. *)
Lemma sum_of_indicator (v : option Z) (m : nat) : ∀ k : nat,
  sum_of ((λ j : nat, if decide (v = Some (Z.of_nat j)) then 1 else 0)
            <$> seq k m) =
    match v with
    | Some s => if decide (Z.of_nat k ≤ s < Z.of_nat (k + m)) then 1 else 0
    | None => 0
    end.
Proof.
  unfold sum_of. induction m as [|m IH]; intros k;
    cbn [seq fmap list_fmap foldr].
  - destruct v as [s|]; [|done]. rewrite decide_False; [done | lia].
  - rewrite IH. destruct v as [s|].
    + destruct (decide (s = Z.of_nat k)) as [->|Hne].
      * rewrite decide_True by done. repeat case_decide; lia.
      * rewrite decide_False by congruence. repeat case_decide; lia.
    + by rewrite decide_False.
Qed.

Lemma sum_of_occurrences (n cols : nat) (a : nat) : ∀ shapes,
  (a < n)%nat → Forall (shape_fits n cols) shapes →
  sum_of ((λ j : nat, occurrences shapes a (Z.of_nat j)) <$> seq 0 cols) =
    Z.of_nat (length shapes).
Proof.
  intros shapes Ha. induction 1 as [|shape shapes [Hlen Hsizes] _ IH].
  - unfold sum_of, occurrences. cbn. induction (seq 0 cols); cbn; lia.
  - assert (Hsplit : ∀ l : list nat,
      sum_of ((λ j : nat, occurrences (shape :: shapes) a (Z.of_nat j)) <$> l)
      = sum_of ((λ j : nat, if decide (shape !! a = Some (Z.of_nat j))
                            then 1 else 0) <$> l) +
        sum_of ((λ j : nat, occurrences shapes a (Z.of_nat j)) <$> l)).
    { unfold sum_of. induction l as [|j l IHl]; cbn [fmap list_fmap foldr];
        [lia|].
      rewrite occurrences_cons. lia. }
    rewrite Hsplit, IH, sum_of_indicator. cbn [length].
    destruct (lookup_lt_is_Some_2 shape a) as [s Hs]; [lia|].
    rewrite Hs. rewrite Forall_lookup in Hsizes. specialize (Hsizes _ _ Hs).
    rewrite decide_True by lia. lia.
Qed.

(** X7. For a dataset the counter can hold (fewer than 2^31 elements,
    ndims > 0 axes at the element index, sizes below 2^31 - 1),
    the counts of every row of the result add up to the number of elements
    of the dataset: each element is counted once in each axis. *)
Theorem count_dim_sizes_total
    (ds : list (list (list Z))) (ds_element_index : nat) (ndims : Z) :
  0 < ndims →
  Forall (tensor_at ds_element_index (Z.to_nat ndims) (int32_max - 1)) ds →
  Z.of_nat (length ds) ≤ int32_max →
  ∃ rows,
    count_dim_sizes ds ds_element_index ndims = Ok rows ∧
    length rows = Z.to_nat ndims ∧
    Forall (λ row, sum_of row.*1 = Z.of_nat (length ds)) rows.
Proof.
  intros Hndims Hds Hlen.
  destruct (count_dim_sizes_counter ds ds_element_index ndims)
    as (shapes & size_counts & cols & Hall & Hfits & [Hrows Hcols] & Hrun
        & Hentry); [done..|].
  eexists. split; [exact Hrun|]. split; [by rewrite length_fmap|].
  apply Forall_fmap, Forall_lookup. intros a counts Hcounts. cbn.
  assert (Ha : (a < Z.to_nat ndims)%nat).
  { rewrite <- Hrows. by eapply lookup_lt_Some. }
  rewrite Forall_lookup in Hcols. pose proof (Hcols _ _ Hcounts) as Hclen.
  specialize (Hentry a counts Hcounts).
  unfold row_of, masked_pairs. rewrite zip_gather.
  assert (Hvalue : ∀ j, entry counts j =
            if decide (j < cols)%nat
            then occurrences shapes a (Z.of_nat j) else 0).
  { intros j. unfold entry. rewrite Hentry. by case_decide. }
  rewrite sum_of_positive.
  - rewrite <- list_fmap_compose.
    rewrite (sum_of_perm _ (entry counts <$> seq 0 (length counts))).
    2:{ apply fmap_Permutation, argsort_descending_perm. }
    rewrite Hclen, (Forall2_length _ _ _ Hall).
    rewrite <- (sum_of_occurrences (Z.to_nat ndims) cols a shapes Ha Hfits).
    f_equal. apply list_fmap_ext. intros i j Hj.
    apply lookup_seq in Hj as [-> Hj]. cbn.
    rewrite Hvalue. by rewrite decide_True by lia.
  - apply Forall_fmap, Forall_forall. intros j _. cbn. rewrite Hvalue.
    case_decide; [apply occurrences_bounds | done].
Qed.

Lemma occurrences_uniform (shape : list Z) (a : nat) (s : Z) : ∀ shapes,
  Forall (λ sh, sh = shape) shapes →
  occurrences shapes a s =
    if decide (shape !! a = Some s) then Z.of_nat (length shapes) else 0.
Proof.
  induction 1 as [|sh shapes -> _ IH].
  - unfold occurrences. cbn. by case_decide.
  - rewrite occurrences_cons, IH. cbn [length]. case_decide; lia.
Qed.

Lemma singleton_list {A} (x : A) (l : list A) :
  NoDup l → (∀ y, y ∈ l ↔ y = x) → l = [x].
Proof.
  intros Hnodup Hmem. destruct l as [|y l].
  - assert (Hx : x ∈ []) by (by apply Hmem). by apply elem_of_nil in Hx.
  - assert (y = x) as -> by (apply Hmem; by left).
    destruct l as [|z l]; [done|].
    assert (z = x) as -> by (apply Hmem; right; by left).
    apply NoDup_cons in Hnodup as [Hnotin _]. exfalso. apply Hnotin. by left.
Qed.

(** X8. The case of the docstring: when every element has a tensor of one
    and the same shape at the element index, row a of the result is the
    single pair of the number of elements and the size of axis a. *)
Theorem count_dim_sizes_uniform
    (ds : list (list (list Z))) (ds_element_index : nat) (ndims : Z)
    (shape : list Z) :
  ds ≠ [] → Z.of_nat (length ds) ≤ int32_max →
  Forall (λ t, t !! ds_element_index = Some shape) ds →
  0 < ndims → length shape = Z.to_nat ndims →
  Forall (λ s, 0 ≤ s ≤ int32_max - 1) shape →
  count_dim_sizes ds ds_element_index ndims =
    Ok ((λ s, [(Z.of_nat (length ds), s)]) <$> shape).
Proof.
  intros Hne Hlen Hds Hndims Hshape Hsizes.
  destruct (count_dim_sizes_counter ds ds_element_index ndims)
    as (shapes & size_counts & cols & Hall & Hfits & [Hrows Hcols] & Hrun
        & Hentry); [done| |done|].
  { eapply Forall_impl; [exact Hds|]. intros t Ht. by exists shape. }
  rewrite Hrun. f_equal.
  assert (Hsame : Forall (λ sh, sh = shape) shapes).
  { clear -Hall Hds. induction Hall as [|t sh ds shapes Ht _ IH]; [done|].
    apply Forall_cons in Hds as [Ht' Hds]. constructor; [congruence|].
    by apply IH. }
  assert (Hslen : length shapes = length ds)
    by (symmetry; by eapply Forall2_length).
  assert (Hpos : 0 < Z.of_nat (length ds)) by (destruct ds; [done|cbn; lia]).
  apply list_eq. intros a. rewrite !list_lookup_fmap.
  destruct (size_counts !! a) as [counts|] eqn:Hcounts; cbn.
  - destruct (lookup_lt_is_Some_2 shape a) as [s Hs].
    { rewrite Hshape, <- Hrows. by eapply lookup_lt_Some. }
    rewrite Hs. cbn. f_equal.
    destruct (masked_pairs_argsort counts) as (Hmem & Hnodup & _).
    fold (row_of counts) in Hmem, Hnodup.
    apply singleton_list; [by eapply NoDup_fmap_1|].
    intros [c s']. rewrite Hmem. specialize (Hentry a counts Hcounts).
    assert (Hin : s ∈ shape) by (by eapply list_elem_of_lookup_2).
    assert (Hcol : 0 ≤ s < Z.of_nat cols).
    { destruct shapes as [|sh shapes]; [destruct ds; [done|cbn in Hslen; lia]|].
      apply Forall_cons in Hsame as [-> _].
      apply Forall_cons in Hfits as [[_ Hfit] _].
      rewrite Forall_forall in Hfit. by apply Hfit. }
    split.
    + intros (Hc & j & -> & Hj). rewrite Hentry in Hj.
      case_decide; [|done]. injection Hj as <-.
      rewrite (occurrences_uniform shape) in Hc |- * by done.
      case_decide as Heq; [|lia]. rewrite Hs in Heq. injection Heq as ->.
      by rewrite Hslen.
    + intros [= -> ->]. split; [done|]. exists (Z.to_nat s).
      split; [lia|]. rewrite Hentry, decide_True by lia.
      rewrite (occurrences_uniform shape) by done.
      rewrite decide_True by (rewrite Hs; f_equal; lia).
      by rewrite Hslen.
  - rewrite (lookup_ge_None_2 shape a); [done|].
    apply lookup_ge_None_1 in Hcounts. lia.
Qed.

Lemma reduce_max_zeros (n : nat) :
  (0 < n)%nat → reduce_max (replicate n 0) = 0.
Proof.
  unfold reduce_max. destruct n as [|n]; [lia|]. intros _.
  cbn [replicate foldr]. induction n as [|n IH]; cbn [replicate foldr]; lia.
Qed.


End CountDimSizesTotals.

(** ** extract_features: unknown feature types and the bounds of the
       coefficient slice *)

Section SliceMoreFacts.
Context {A : Type}.
Implicit Types l row : list A.
Local Open Scope nat_scope.

Lemma slice_bound_le (n : nat) (i : Z) : slice_bound n i ≤ n.
Proof. unfold slice_bound. destruct (Z.ltb_spec i 0); lia. Qed.

Lemma slice_bounds_le (start stop : option Z) (n : nat) :
  from_option (slice_bound n) 0 start ≤ n ∧
  from_option (slice_bound n) n stop ≤ n.
Proof.
  split; [destruct start | destruct stop]; cbn [from_option];
    try apply slice_bound_le; lia.
Qed.

Lemma length_slice_any (start stop : option Z) row :
  length (slice start stop row) = slice_len start stop (length row).
Proof.
  unfold slice, slice_len.
  pose proof (slice_bounds_le start stop (length row)).
  rewrite length_take, length_drop. lia.
Qed.

Lemma slice_lookup_any (start stop : option Z) row (j : nat) :
  j < slice_len start stop (length row) →
  slice start stop row !! j =
    row !! (from_option (slice_bound (length row)) 0 start + j).
Proof.
  unfold slice, slice_len. intros Hj.
  rewrite lookup_take_lt by lia. by rewrite lookup_drop.
Qed.

(** Slicing the last axis between any two bounds: the bounds are clamped
    to the axis, so the slice is never an error; the other axes are kept,
    and place [j] of every row holds what stood [j] places after the
    clamped start. *)
Lemma slice_last_any (t : tensor A) (outer : list nat) (n : nat)
    (start stop : option Z) :
  shape t = outer ++ [n] → well_formed t →
  let b := from_option (slice_bound n) 0 start in
  let e := from_option (slice_bound n) n stop in
  ∃ t', slice_last start stop t = Ok t' ∧
        shape t' = outer ++ [e - b] ∧
        well_formed t' ∧
        ∀ r j, r < size_of outer → j < e - b →
          values t' !! (r * (e - b) + j) = values t !! (r * n + (b + j)).
Proof.
  intros Hshape Hwf b e. unfold well_formed in Hwf.
  rewrite Hshape, size_of_snoc in Hwf.
  unfold slice_last. rewrite Hshape, reverse_snoc, reverse_involutive.
  eexists. split; [reflexivity|]. cbn [shape values].
  change (slice_len start stop n) with (e - b).
  split; [done|].
  pose proof (slice_bounds_le start stop n) as [Hb He]. fold b e in Hb, He.
  destruct (decide (n = 0)) as [->|Hn].
  { assert (values t = []) as -> by (apply nil_length_inv; lia).
    split; [|intros r j _ Hj; lia].
    unfold well_formed. cbn. rewrite size_of_snoc. lia. }
  rewrite (chunks_rows n (size_of outer)) by (done || lia).
  rewrite <- list_fmap_compose.
  set (rows := (slice start stop ∘ _) <$> _).
  assert (Hchunk : ∀ r, r < size_of outer →
            length (take n (drop (r * n) (values t))) = n).
  { intros r Hr. rewrite length_take, length_drop. nia. }
  assert (Hrows : Forall (λ row, length row = e - b) rows).
  { apply Forall_fmap, Forall_forall. intros r Hr%elem_of_seq. cbn.
    rewrite length_slice_any, Hchunk by lia. done. }
  split.
  { unfold well_formed. cbn [shape values].
    rewrite length_join, (sum_list_fmap_same (e - b)) by done.
    rewrite size_of_snoc. unfold rows. by rewrite length_fmap, length_seq. }
  intros r j Hr Hj.
  assert (Hrow : rows !! r =
            Some (slice start stop (take n (drop (r * n) (values t))))).
  { unfold rows. rewrite list_lookup_fmap, lookup_seq_lt by done. done. }
  destruct (values t !! (r * n + (b + j))) as [x|] eqn:Hx.
  - apply (join_lookup_Some_same_length' _ _ _ _ _ Hrows Hj).
    eexists. split; [exact Hrow|].
    rewrite slice_lookup_any by (rewrite Hchunk by done; exact Hj).
    rewrite Hchunk by done. fold b.
    rewrite lookup_take_lt by lia. by rewrite lookup_drop.
  - apply lookup_ge_None in Hx. nia.
Qed.

End SliceMoreFacts.

Section ExtractFeaturesMoreFacts.
Import TfUtil.
Context `{AO : AudioOps}.
Local Open Scope string_scope.

(** X10. A feature type that is none of "melspectrogram",
    "logmelspectrogram", "mfcc" and "db_spectrogram" is not refused: for a
    rank-2 batch with one sample rate, extract_features then returns the
    spectrogram itself, after the configured scaling and window
    normalization and the finiteness check. *)
Theorem extract_features_unknown_feattype
    (signals : tensor scalar) (sample_rates : list Z) (sample_rate : Z)
    (feattype : string)
    (spec_kwargs melspec_kwargs mfcc_kwargs db_spec_kwargs
     feat_scale_kwargs window_norm_kwargs : gmap string pyval) :
  rank signals = 2%nat → common_rate sample_rates sample_rate →
  feattype ∉ ["melspectrogram"; "logmelspectrogram"; "mfcc";
              "db_spectrogram"] →
  let feat :=
    post_process (spectrograms signals sample_rate spec_kwargs)
                 feat_scale_kwargs window_norm_kwargs in
  extract_features signals sample_rates feattype spec_kwargs melspec_kwargs
      mfcc_kwargs db_spec_kwargs feat_scale_kwargs window_norm_kwargs =
    if all_finite feat then Ok feat else Raise NonFiniteError.
Proof.
  intros Hrank Hrate Hother feat.
  rewrite (extract_features_chain_eq _ _ sample_rate) by done.
  unfold unchecked_features, claimed_chain.
  assert (Hne : ∀ name, name ∈ ["melspectrogram"; "logmelspectrogram";
                                "mfcc"; "db_spectrogram"] →
                        String.eqb feattype name = false).
  { intros name Hin. apply String.eqb_neq. by intros ->. }
  rewrite !Hne by (apply (bool_decide_unpack _); by vm_compute).
  done.
Qed.


End ExtractFeaturesMoreFacts.

(** ** preprocess/features.py: the two transpositions *)

Section TransposeMoreFacts.
Import Features.
Local Open Scope nat_scope.

Lemma transpose_transpose {A} (pad : A) (a : ndarray A) :
  rectangular a → transpose pad (transpose pad a) = a.
Proof.
  destruct a as [r c rows]. intros [Hrows Hcols]. cbn in Hrows, Hcols.
  unfold transpose. cbn [nrows ncols cells]. f_equal.
  apply list_eq_same_length with r; [done|by rewrite length_fmap, length_seq|].
  intros i row row' Hi. rewrite list_lookup_fmap, lookup_seq_lt by done.
  cbn. intros [= <-] Hrow'.
  rewrite Forall_lookup in Hcols. specialize (Hcols _ _ Hrow').
  apply list_eq_same_length with c;
    [done|by rewrite !length_fmap, length_seq|].
  intros j x y Hj. rewrite !list_lookup_fmap, lookup_seq_lt by done.
  cbn. rewrite list_lookup_fmap, Hrow'. cbn.
  intros [= <-] Hy. by rewrite Hy.
Qed.

(** X12. mfcc returns the transposed coefficient matrix, and
    mfcc_deltas_012 transposes it back: the matrix it interleaves and
    computes the deltas from is the very matrix librosa returned
    (normalized when asked for), whenever that matrix is rectangular. *)
Theorem mfcc_transposed_back `{L : Librosa}
    (signal : list sample) (rate : Z) (normalize : bool)
    (mel_spec_power : sample) (kwargs : gmap string pyval) :
  let S :=
    power_to_db_max (power (feature_melspectrogram signal rate)
                           mel_spec_power) in
  let mfccs := feature_mfcc signal rate S kwargs in
  let mfccs := if normalize then util_normalize mfccs else mfccs in
  rectangular mfccs →
  transpose uninit (mfcc (signal, rate) normalize mel_spec_power kwargs)
    = mfccs ∧
  ∀ t k, t < ncols mfccs → k < nrows mfccs →
    cell (mfcc (signal, rate) normalize mel_spec_power kwargs) t k =
    cell mfccs k t.
Proof.
  intros S M M' Hrect. unfold mfcc. fold S. fold M. fold M'. split.
  - by apply transpose_transpose.
  - intros t k Ht Hk. by apply cell_transpose.
Qed.

End TransposeMoreFacts.

(** ** The checkpoint format and get_loss_as_float *)

Section FormatFacts.
Import PyStr PyFormat Model.
Local Open Scope string_scope.

Lemma digit_of_digit_char (d : N) : (d < 10)%N → digit_of (digit_char d) = Some d.
Proof.
  intros Hd. destruct d as [|p]; [done|].
  do 4 (destruct p as [p|p|]; try done; try lia).
Qed.

Lemma is_digit_digit_char (d : N) : (d < 10)%N → is_digit (digit_char d) = true.
Proof.
  intros Hd. unfold is_digit. apply bool_decide_eq_true.
  rewrite digit_of_digit_char by done. by eexists.
Qed.

Lemma digits_go_app (fuel : nat) : ∀ n acc,
  digits_go fuel n acc = (digits_go fuel n [] ++ acc)%list.
Proof.
  induction fuel as [|fuel IH]; intros n acc; cbn [digits_go]; [done|].
  destruct (n <? 10)%N; [done|].
  rewrite IH, (IH _ [_]). by rewrite <- app_assoc.
Qed.

(** The digits are digits, there is at least one, and they stand for the
    number. *)
Lemma digits_go_spec (fuel : nat) : ∀ n,
  (n < 10 * 2 ^ N.of_nat fuel)%N →
  Forall (λ d, (d < 10)%N) (digits_go fuel n []) ∧
  digits_go fuel n [] ≠ [] ∧
  foldl (λ a d, a * 10 + d)%N 0%N (digits_go fuel n []) = n.
Proof.
  induction fuel as [|fuel IH]; intros n Hn; cbn [digits_go].
  - split_and!; [repeat constructor; lia | done | cbn; lia].
  - destruct (N.ltb_spec n 10) as [Hlt|Hge].
    + split_and!; [by repeat constructor | done | cbn; lia].
    + rewrite digits_go_app.
      destruct (IH (n / 10)%N) as (Hall & Hne & Hval).
      { rewrite Nat2N.inj_succ, N.pow_succ_r' in Hn.
        apply N.Div0.div_lt_upper_bound. lia. }
      split_and!.
      * apply Forall_app. split; [done|]. repeat constructor.
        apply N.mod_lt. lia.
      * by destruct (digits_go fuel (n / 10) []).
      * rewrite foldl_app, Hval. cbn.
        pose proof (N.div_mod n 10). lia.
Qed.

Lemma digits_spec (n : N) :
  Forall (λ d, (d < 10)%N) (digits n) ∧ digits n ≠ [] ∧
  foldl (λ a d, a * 10 + d)%N 0%N (digits n) = n.
Proof.
  apply digits_go_spec. rewrite N2Nat.id.
  destruct n as [|p]; [done|].
  pose proof (N.log2_spec (N.pos p) eq_refl) as [_ Hlt].
  rewrite N.pow_succ_r' in Hlt. lia.
Qed.

(** Reading a numeral: its digits are taken up one after the other. *)
Lemma digitpart_numeral (ds : list N) : ∀ acc count rest,
  Forall (λ d, (d < 10)%N) ds →
  digitpart acc count (numeral ds ++ rest) =
    digitpart (foldl (λ a d, a * 10 + d)%N acc ds)
              (count + length ds) rest.
Proof.
  induction ds as [|d ds IH]; intros acc count rest Hall.
  - cbn. by rewrite Nat.add_0_r.
  - apply Forall_cons in Hall as [Hd Hall].
    cbn [numeral foldr]. rewrite str_app_cons. cbn [digitpart].
    rewrite digit_of_digit_char by done.
    fold (numeral ds). rewrite IH by done. cbn [foldl length].
    f_equal. lia.
Qed.

Lemma contains_numeral (c : ascii) (ds : list N) :
  is_digit c = false → Forall (λ d, (d < 10)%N) ds →
  Path.contains c (numeral ds) = false.
Proof.
  intros Hc. induction 1 as [|d ds Hd _ IH]; [done|].
  cbn [numeral foldr Path.contains]. fold (numeral ds). rewrite IH.
  rewrite orb_false_r. apply Ascii.eqb_neq. intros Heq.
  rewrite <- Heq, is_digit_digit_char in Hc; done.
Qed.

Lemma is_digit_not_space (c : ascii) : is_digit c = true → is_space c = false.
Proof.
  intros Hc. destruct c as [[] [] [] [] [] [] [] []];
    vm_compute in Hc; try discriminate Hc; reflexivity.
Qed.

Lemma is_digit_no_sign (c : ascii) (s : string) :
  is_digit c = true → sign_of (String c s) = (false, String c s).
Proof.
  intros Hc. destruct c as [[] [] [] [] [] [] [] []];
    vm_compute in Hc; try discriminate Hc; reflexivity.
Qed.

Lemma is_digit_lower (c : ascii) : is_digit c = true → lower c = c.
Proof.
  intros Hc. destruct c as [[] [] [] [] [] [] [] []];
    vm_compute in Hc; try discriminate Hc; reflexivity.
Qed.

Lemma is_digit_not_letter (c : ascii) :
  is_digit c = true → Ascii.eqb c "i" = false ∧ Ascii.eqb c "n" = false.
Proof.
  intros Hc. destruct c as [[] [] [] [] [] [] [] []];
    vm_compute in Hc; try discriminate Hc; split; reflexivity.
Qed.

Lemma all_space_snoc (s : string) (l : ascii) :
  is_space l = false → all_space (s ++ String l "") = false.
Proof.
  intros Hl. induction s as [|c s IH].
  - rewrite str_app_nil_l. cbn [all_space]. by rewrite Hl.
  - rewrite str_app_cons. cbn [all_space]. by rewrite IH, andb_false_r.
Qed.

Lemma rstrip_snoc (s : string) (l : ascii) :
  is_space l = false → rstrip (s ++ String l "") = s ++ String l "".
Proof.
  intros Hl. induction s as [|c s IH].
  - rewrite str_app_nil_l. cbn [rstrip all_space]. by rewrite Hl.
  - rewrite str_app_cons. cbn [rstrip all_space].
    by rewrite all_space_snoc, andb_false_r, IH.
Qed.

(** Text that neither starts nor ends with white space is stripped of
    nothing. *)
Lemma strip_plain (c l : ascii) (s : string) :
  is_space c = false → is_space l = false →
  strip (String c (s ++ String l "")) = String c (s ++ String l "").
Proof.
  intros Hc Hl. unfold strip. cbn [lstrip]. rewrite Hc.
  rewrite <- str_app_cons. by apply rstrip_snoc.
Qed.

Lemma decimal_numeral (negative : bool) (ds : list N) (d1 d2 : N) :
  Forall (λ d, (d < 10)%N) ds → ds ≠ [] → (d1 < 10)%N → (d2 < 10)%N →
  decimal negative (numeral ds ++ "." ++ numeral [d1; d2]) =
    Some (LitDec negative
            ((foldl (λ a d, a * 10 + d) 0 ds * 10 + d1) * 10 + d2)%N (-2)).
Proof.
  intros Hds Hne Hd1 Hd2. unfold decimal.
  rewrite digitpart_numeral by done.
  destruct ds as [|d0 ds']; [done|]. clear Hne.
  set (ip := foldl _ _ (d0 :: ds')).
  change ("." ++ numeral [d1; d2])
    with (String "." (String (digit_char d1) (numeral [d2]))).
  cbn [digitpart length Nat.add].
  change (digit_of ".") with (@None N). cbn [Ascii.eqb Bool.eqb andb].
  change (String (digit_char d1) (numeral [d2]))
    with (numeral [d1; d2] ++ "").
  rewrite digitpart_numeral by (repeat constructor; done).
  cbn [digitpart foldl length Nat.add exponent].
  done.
Qed.

(** [float] reads a printed value back as the decimal that was printed. *)
Lemma parse_float_format_2f (x : fixed2) :
  parse_float (format_2f x) = Some (literal_of x).
Proof.
  destruct x as [|[]|negative h]; [done..|].
  cbn [format_2f literal_of].
  set (ip := (h / 100)%N). set (d1 := (h mod 100 / 10)%N).
  set (d2 := (h mod 10)%N).
  assert (Hd1 : (d1 < 10)%N).
  { subst d1. apply N.Div0.div_lt_upper_bound.
    pose proof (N.mod_lt h 100). lia. }
  assert (Hd2 : (d2 < 10)%N) by (apply N.mod_lt; lia).
  destruct (digits_spec ip) as (Hall & Hne & Hval).
  assert (Hh : ((ip * 10 + d1) * 10 + d2 = h)%N).
  { subst ip d1 d2.
    pose proof (N.div_mod h 100). pose proof (N.div_mod (h mod 100) 10).
    pose proof (N.Div0.mod_mod h 10).
    assert (h mod 10 = (h mod 100) mod 10)%N as ->; [|lia].
    replace 100%N with (10 * 10)%N by done.
    rewrite N.Div0.mod_mul_r, N.mul_comm, N.Div0.mod_add.
    by rewrite N.Div0.mod_mod. }
  pose proof (decimal_numeral negative (digits ip) d1 d2 Hall Hne Hd1 Hd2)
    as Hdec.
  rewrite Hval, Hh in Hdec.
  destruct (digits ip) as [|d0 ds] eqn:Hds; [done|].
  apply Forall_cons in Hall as [Hd0 _].
  pose proof (is_digit_digit_char d0 Hd0) as Hc0.
  pose proof (is_digit_digit_char d2 Hd2) as Hc2.
  set (mid := numeral ds ++ "." ++ String (digit_char d1) "").
  assert (Hbody : numeral (d0 :: ds) ++ "." ++ numeral [d1; d2] =
            String (digit_char d0) (mid ++ String (digit_char d2) "")).
  { subst mid. cbn [numeral foldr]. fold (numeral ds).
    by rewrite str_app_cons, !str_app_assoc. }
  rewrite Hbody in *. unfold parse_float.
  assert (Hsign : sign_of (strip ((if negative then "-" else "") ++
              String (digit_char d0) (mid ++ String (digit_char d2) ""))) =
            (negative, String (digit_char d0)
                         (mid ++ String (digit_char d2) ""))).
  { destruct negative.
    - change ("-" ++ String (digit_char d0) (mid ++ String (digit_char d2) ""))
        with (String "-" (String (digit_char d0) mid
                            ++ String (digit_char d2) "")).
      rewrite strip_plain; [done|done|by apply is_digit_not_space].
    - rewrite str_app_nil_l.
      rewrite strip_plain by (by apply is_digit_not_space).
      by apply is_digit_no_sign. }
  rewrite Hsign. cbn [lowercase String.eqb].
  rewrite is_digit_lower by done.
  destruct (is_digit_not_letter _ Hc0) as [-> ->]. done.
Qed.

Lemma no_occurrence_char (c : ascii) (sep s : string) :
  Path.contains c sep = true → Path.contains c s = false →
  no_occurrence sep s.
Proof.
  intros Hsep Hs u v ->. rewrite !contains_app, Hsep in Hs.
  by rewrite orb_true_r in Hs.
Qed.

(** The loss text of a name that ends in "loss", a text without the
    letters s and h, and ".hdf5". *)
Lemma loss_text_plain (pre mid : string) :
  Path.contains "s" mid = false → Path.contains "h" mid = false →
  loss_text (pre ++ "loss" ++ mid ++ ".hdf5") = mid.
Proof.
  intros Hs Hh. apply (loss_text_between pre mid "").
  - apply (no_occurrence_char "s"); [done|].
    by rewrite contains_app, Hs.
  - intros u v Huv.
    destruct (decide (String.length mid ≤ String.length u)%nat) as [|Hlt];
      [done|exfalso].
    destruct (str_app_cut mid (".hdf5" ++ "") u (".hdf5" ++ v))
      as (y & -> & Hy); [done|lia|].
    rewrite str_length_app in Hlt. rewrite contains_app in Hh.
    apply orb_false_iff in Hh as [_ Hh].
    destruct y as [|c1 [|c2 y]]; [simpl in Hlt; lia|..];
      rewrite ?str_app_cons, ?str_app_nil_l in Hy.
    + by injection Hy.
    + injection Hy as <- <- _. done.
Qed.

End FormatFacts.

Section FormatRoundTrip.
Import PyStr PyFormat Model.
Context `{FM : FloatModel}.
Local Open Scope string_scope.

Lemma contains_format_2f (c : ascii) (x : fixed2) :
  is_digit c = false →
  Path.contains c "-.infa" = false →
  Path.contains c (format_2f x) = false.
Proof.
  intros Hc Hlet.
  cbn [Path.contains] in Hlet. repeat apply orb_false_iff in Hlet as [? Hlet].
  destruct x as [|negative|negative h]; cbn [format_2f].
  - cbn [Path.contains]. by repeat (apply orb_false_iff; split).
  - destruct negative; cbn [Path.contains];
      by repeat (apply orb_false_iff; split).
  - destruct (digits_spec (h / 100)) as (Hall & _ & _).
    rewrite !contains_app, !contains_numeral; [|done| |done|done].
    + destruct negative; cbn [Path.contains];
        by repeat (apply orb_false_iff; split).
    + repeat constructor.
      * apply N.Div0.div_lt_upper_bound. pose proof (N.mod_lt h 100). lia.
      * apply N.mod_lt. lia.
Qed.

Lemma format_checkpoint_format (kwargs : gmap string arg) (epoch : Z)
    (val_loss : fixed2) :
  kwargs !! "epoch" = Some (AInt epoch) →
  kwargs !! "val_loss" = Some (AFloat val_loss) →
  format checkpoint_format kwargs =
    Some ("epoch" ++ format_0d 2 epoch ++ "_loss" ++ format_2f val_loss
            ++ ".hdf5").
Proof.
  intros Hepoch Hloss. unfold format, checkpoint_format.
  cbn -[format_0d format_2f lookup]. rewrite Hepoch, Hloss.
  reflexivity.
Qed.

(** X13. Formatting and reading back: the file name that [checkpoint_format]
    gives for an epoch number and a validation loss is read by
    get_loss_as_float as the loss that was printed, that is the loss
    rounded to two decimals (or inf, -inf, nan). *)
Theorem checkpoint_format_round_trip (kwargs : gmap string arg) (epoch : Z)
    (val_loss : fixed2) :
  kwargs !! "epoch" = Some (AInt epoch) →
  kwargs !! "val_loss" = Some (AFloat val_loss) →
  ∃ name,
    format checkpoint_format kwargs = Some name ∧
    loss_text name = format_2f val_loss ∧
    get_loss_as_float name = Ok (float_value (literal_of val_loss)).
Proof.
  intros Hepoch Hloss. eexists. split; [by apply format_checkpoint_format|].
  assert (Htext : loss_text ("epoch" ++ format_0d 2 epoch ++ "_loss" ++
                               format_2f val_loss ++ ".hdf5") =
                  format_2f val_loss).
  { replace ("epoch" ++ format_0d 2 epoch ++ "_loss" ++
               format_2f val_loss ++ ".hdf5")
      with (("epoch" ++ format_0d 2 epoch ++ "_") ++ "loss" ++
              format_2f val_loss ++ ".hdf5")
      by (by rewrite !str_app_assoc).
    apply loss_text_plain; by apply contains_format_2f. }
  split; [done|].
  unfold get_loss_as_float, py_float.
  by rewrite Htext, parse_float_format_2f.
Qed.

(** The loop of [min] keeps its first item when no later key is strictly
    smaller. *)
Lemma min_go_keep {A} (key : A → result float) (items : list A)
    (best : A) (best_key : float) :
  Forall (λ x, ∃ kx, key x = Ok kx ∧ float_lt kx best_key = false) items →
  min_go key best best_key items = Ok best.
Proof.
  induction 1 as [|x items (kx & Hkx & Hlt) _ IH]; [done|].
  cbn [min_go]. rewrite Hkx. cbn [mbind result_bind]. by rewrite Hlt.
Qed.

Lemma min_go_reach {A} (key : A → result float) (pre post : list A)
    (b : A) (kb : float) : ∀ best best_key,
  Forall (λ x, ∃ kx, key x = Ok kx ∧ float_lt kb kx = true) pre →
  float_lt kb best_key = true → key b = Ok kb →
  Forall (λ x, ∃ kx, key x = Ok kx ∧ float_lt kx kb = false) post →
  min_go key best best_key (pre ++ b :: post) = Ok b.
Proof.
  induction pre as [|x pre IH]; intros best best_key Hpre Hbest Hb Hpost.
  - cbn [app min_go]. rewrite Hb. cbn [mbind result_bind]. rewrite Hbest.
    by apply min_go_keep.
  - apply Forall_cons in Hpre as [(kx & Hkx & Hlt) Hpre].
    cbn [app min_go]. rewrite Hkx. cbn [mbind result_bind].
    destruct (float_lt kx best_key); by apply IH.
Qed.

Lemma py_min_first {A} (key : A → result float) (pre post : list A)
    (b : A) (kb : float) :
  Forall (λ x, ∃ kx, key x = Ok kx ∧ float_lt kb kx = true) pre →
  key b = Ok kb →
  Forall (λ x, ∃ kx, key x = Ok kx ∧ float_lt kx kb = false) post →
  py_min (pre ++ b :: post) key = Ok b.
Proof.
  intros Hpre Hb Hpost. destruct pre as [|x pre].
  - cbn [app py_min]. rewrite Hb. cbn [mbind result_bind].
    by apply min_go_keep.
  - apply Forall_cons in Hpre as [(kx & Hkx & Hlt) Hpre].
    cbn [app py_min]. rewrite Hkx. cbn [mbind result_bind].
    by apply (min_go_reach key pre post b kb).
Qed.

(** X14. Which checkpoint wins: an entry whose loss is strictly below the
    loss of every entry listed before it, and which no entry listed after
    it has a strictly smaller loss than, is the one returned. Of several
    checkpoints with the least loss the first listed is chosen. *)
Theorem get_best_weights_checkpoint_first_minimum
    (fs : gmap string (list string)) (args : Args) (model_id : string)
    (pre post : list string) (best : string) (kb : float) :
  fs !! checkpoints_dir_of args model_id = Some (pre ++ best :: post)%list →
  get_loss_as_float best = Ok kb →
  Forall (λ f, ∃ kf, get_loss_as_float f = Ok kf ∧ float_lt kb kf = true)
         pre →
  Forall (λ f, ∃ kf, get_loss_as_float f = Ok kf ∧ float_lt kf kb = false)
         post →
  get_best_weights_checkpoint fs args model_id =
    Ok (VStr (Path.join (checkpoints_dir_of args model_id) best)).
Proof.
  intros Hfs Hbest Hpre Hpost.
  unfold get_best_weights_checkpoint, listdir. rewrite Hfs.
  cbn [mbind result_bind].
  rewrite (py_min_first get_loss_as_float pre post best kb) by done.
  by destruct pre.
Qed.

Lemma min_go_elem {A} (key : A → result float) (items : list A) :
  ∀ best best_key b,
  min_go key best best_key items = Ok b → b ∈ best :: items.
Proof.
  induction items as [|x items IH]; intros best best_key b; cbn [min_go].
  - intros [= <-]. by left.
  - destruct (key x) as [kx|]; cbn [mbind result_bind]; [|done].
    destruct (float_lt kx best_key); intros Hrun%IH.
    + by right.
    + apply elem_of_cons in Hrun as [-> | Hin]; [by left | by do 2 right].
Qed.

Lemma py_min_elem {A} (key : A → result float) (items : list A) (b : A) :
  py_min items key = Ok b → b ∈ items.
Proof.
  destruct items as [|x items]; [done|]. cbn [py_min].
  destruct (key x) as [kx|]; cbn [mbind result_bind]; [|done].
  apply min_go_elem.
Qed.

Lemma basename_plain (p : string) :
  Path.contains "/" p = false → Path.basename p = p.
Proof.
  destruct p as [|c p]; [done|]. cbn [Path.contains Path.basename].
  intros [Hc ->]%orb_false_iff. by rewrite Hc.
Qed.

Lemma basename_after_sep (dir name : string) :
  Path.contains "/" name = false →
  Path.basename (dir ++ String "/" name) = name.
Proof.
  intros Hname. induction dir as [|c dir IH].
  - rewrite str_app_nil_l. cbn [Path.basename]. by rewrite Hname.
  - rewrite str_app_cons. cbn [Path.basename].
    rewrite contains_app. cbn [Path.contains Ascii.eqb Bool.eqb].
    by rewrite orb_true_r.
Qed.

Lemma endswith_sep_spec (dir : string) :
  Path.endswith_sep dir = true → ∃ d, dir = d ++ "/".
Proof.
  induction dir as [|c dir IH]; [done|]. cbn [Path.endswith_sep].
  destruct dir as [|c' dir].
  - intros ->%Ascii.eqb_eq. by exists "".
  - intros [d ->]%IH. by exists (String c d).
Qed.

(** Taking the base name of a joined path gives the name back. *)
Lemma basename_join (dir name : string) :
  Path.contains "/" name = false →
  Path.basename (Path.join dir name) = name.
Proof.
  intros Hname. unfold Path.join.
  assert (String.prefix "/" name = false) as ->.
  { destruct name as [|c name]; [done|].
    cbn [Path.contains] in Hname. apply orb_false_iff in Hname as [Hc _].
    cbn [String.prefix]. destruct (ascii_dec "/" c) as [<-|]; done. }
  destruct (String.eqb_spec dir "") as [->|_]; cbn [orb].
  { rewrite str_app_nil_l. by apply basename_plain. }
  destruct (Path.endswith_sep dir) eqn:Hsep.
  - apply endswith_sep_spec in Hsep as [d ->].
    rewrite str_app_assoc. by apply basename_after_sep.
  - by apply basename_after_sep.
Qed.

(** X15. The path returned names a file of the listing: it lies directly
    in the checkpoints directory and its base name is one of the entries
    listed (entries of a directory listing hold no separator). *)
Theorem get_best_weights_checkpoint_names_entry
    (fs : gmap string (list string)) (args : Args) (model_id : string)
    (entries : list string) (path : string) :
  fs !! checkpoints_dir_of args model_id = Some entries →
  Forall (λ f, Path.contains "/" f = false) entries →
  get_best_weights_checkpoint fs args model_id = Ok (VStr path) →
  Path.basename path ∈ entries ∧
  (path = checkpoints_dir_of args model_id ++ Path.basename path ∨
   path = checkpoints_dir_of args model_id ++ "/" ++ Path.basename path).
Proof.
  intros Hfs Hplain. unfold get_best_weights_checkpoint, listdir.
  rewrite Hfs. cbn [mbind result_bind].
  destruct entries as [|f entries]; [done|].
  destruct (py_min _ _) as [best|] eqn:Hmin; cbn [mbind result_bind]; [|done].
  intros [= <-]. apply py_min_elem in Hmin.
  rewrite Forall_forall in Hplain. specialize (Hplain _ Hmin).
  rewrite basename_join by done. split; [done|].
  apply join_relative.
  destruct best as [|c best]; [done|].
  cbn [Path.contains] in Hplain. apply orb_false_iff in Hplain as [Hc _].
  cbn [String.prefix]. destruct (ascii_dec "/" c) as [<-|]; done.
Qed.

End FormatRoundTrip.

(** ** create_model: malformed sections, TensorBoard, directories *)

Section CreateModelMoreFacts.
Import Model.
Local Open Scope string_scope.

(** X16. A tensorboard or checkpoints section that is present without
    being a mapping makes create_model raise TypeError, whatever the
    command line asks for: both sections are merged with their defaults
    before --train and --no-save-model are looked at. *)
Theorem create_model_section_not_mapping
    (args : Args) (now_str model_id : string)
    (model_config : gmap string pyval) (section : string) (v : pyval) :
  section = "tensorboard" ∨ section = "checkpoints" →
  model_config !! section = Some v → (∀ d, v ≠ VDict d) →
  create_model args now_str model_id model_config = Raise TypeError.
Proof.
  intros Hsection Hv Hbad. unfold create_model, dict_get.
  assert (Hraise : ∀ base, dict_with base v = Raise TypeError).
  { intros base. destruct v; try done. by destruct (Hbad d). }
  destruct Hsection as [-> | ->].
  - rewrite Hv. cbn [default]. by rewrite Hraise.
  - rewrite Hv. cbn [default]. rewrite (Hraise (default_checkpoints_config _)).
    by destruct (default (VDict ∅) (model_config !! "tensorboard")).
Qed.

(** X17. When training is requested, with or without --no-save-model, the
    wrapper gets a tensorboard configuration: the entries of the
    tensorboard section, and besides them a log_dir
    <cache_dir>/<model_id>/tensorboard/log/<now> and write_graph False
    where the section does not say otherwise. That log directory is the
    first directory made, and the early_stopping entry is the section of
    that name, None when there is none. *)
Theorem create_model_tensorboard
    (args : Args) (now_str model_id : string)
    (model_config tb_section ck_section : gmap string pyval) :
  train args = true →
  dict_get model_config "tensorboard" (VDict ∅) = VDict tb_section →
  dict_get model_config "checkpoints" (VDict ∅) = VDict ck_section →
  let tensorboard_dir :=
    Path.join
      (Path.join (Path.join (Path.join (cache_dir args) model_id)
                            "tensorboard") "log") now_str in
  ∃ kw made c,
    create_model args now_str model_id model_config = Ok (kw, made) ∧
    kw_callbacks_kwargs kw !! "tensorboard" = Some (VDict c) ∧
    (∀ k v, tb_section !! k = Some v → c !! k = Some v) ∧
    (∀ k, tb_section !! k = None →
          c !! k = if decide (k = "log_dir") then Some (VStr tensorboard_dir)
                   else if decide (k = "write_graph") then Some (VBool false)
                   else None) ∧
    List.hd_error made = Some (tensorboard_dir, "tensorboard") ∧
    kw_callbacks_kwargs kw !! "early_stopping" =
      Some (default VNone (model_config !! "early_stopping")).
Proof.
  intros Htrain Htb Hck tensorboard_dir. unfold create_model.
  rewrite Htb, Hck, Htrain. cbn [dict_with mbind result_bind negb].
  eexists _, _, _. split; [reflexivity|]. cbn [kw_callbacks_kwargs].
  fold tensorboard_dir. split_and!.
  - by simplify_map_eq.
  - intros k v Hk. by apply lookup_union_Some_l.
  - intros k Hk. rewrite lookup_union_r by done.
    unfold default_tensorboard_config.
    repeat case_decide; by simplify_map_eq.
  - done.
  - by simplify_map_eq.
Qed.

Lemma prefix_join (a b : string) :
  String.prefix "/" b = false → String.prefix a (Path.join a b) = true.
Proof.
  intros Hb. apply prefix_spec.
  destruct (join_relative a b Hb) as [-> | ->]; by eexists.
Qed.

Lemma prefix_join_trans (a b c : string) :
  String.prefix a b = true → String.prefix "/" c = false →
  String.prefix a (Path.join b c) = true.
Proof.
  intros [t ->]%prefix_spec Hc. apply prefix_spec.
  destruct (join_relative (a ++ t) c Hc) as [-> | ->];
    rewrite str_app_assoc; by eexists.
Qed.


End CreateModelMoreFacts.

(** ** evaluate_test_set: return value and the checkpoint handed on *)

Section EvaluateMoreFacts.
Import Model.
Context `{FM : FloatModel} `{TK : Toolkit}.
Local Open Scope string_scope.



End EvaluateMoreFacts.

Section ModelMoreExamples.
Import Model PyFormat.
Local Open Scope string_scope.

Lemma checkpoint_format_round_trip_witness :
  ∃ name,
    format checkpoint_format example_logs = Some name ∧
    loss_text name = "0.48" ∧
    get_loss_as_float name = Ok (float_value (PyStr.LitDec false 48 (-2))).
Proof.
  apply (checkpoint_format_round_trip example_logs 7 (FixDec false 48));
    vm_compute; reflexivity.
Defined.

Lemma get_best_weights_checkpoint_first_minimum_witness :
  get_best_weights_checkpoint tied_fs example_args "cnn" =
    Ok (VStr "/tmp/cache/cnn/checkpoints/epoch02_loss0.48.hdf5").
Proof.
  apply (get_best_weights_checkpoint_first_minimum tied_fs example_args "cnn"
           ["epoch01_loss0.53.hdf5"] ["epoch03_loss0.48.hdf5"]
           "epoch02_loss0.48.hdf5"
           (float_value (PyStr.LitDec false 48 (-2)))).
  - vm_compute. reflexivity.
  - vm_compute. reflexivity.
  - repeat constructor. eexists. split; vm_compute; reflexivity.
  - repeat constructor. eexists. split; vm_compute; reflexivity.
Defined.

Lemma get_best_weights_checkpoint_names_entry_witness :
  Path.basename "/tmp/cache/cnn/checkpoints/epoch02_loss0.48.hdf5" ∈
    ["epoch01_loss0.53.hdf5"; "epoch02_loss0.48.hdf5";
     "epoch03_loss0.50.hdf5"].
Proof.
  apply (get_best_weights_checkpoint_names_entry example_fs example_args
           "cnn" _ "/tmp/cache/cnn/checkpoints/epoch02_loss0.48.hdf5").
  - vm_compute. reflexivity.
  - repeat constructor.
  - vm_compute. reflexivity.
Defined.

Lemma create_model_section_not_mapping_witness :
  create_model example_args "2019-01-01_00:00:00" "cnn"
    {[ "tensorboard" := VNone ]} = Raise TypeError.
Proof.
  apply (create_model_section_not_mapping _ _ _ _ "tensorboard" VNone).
  - by left.
  - vm_compute. reflexivity.
  - intros d. discriminate.
Defined.

Lemma create_model_tensorboard_witness :
  ∃ kw made c,
    create_model example_args "2019-01-01_00:00:00" "cnn" ∅ = Ok (kw, made) ∧
    kw_callbacks_kwargs kw !! "tensorboard" = Some (VDict c) ∧
    c !! "log_dir" =
      Some (VStr "/tmp/cache/cnn/tensorboard/log/2019-01-01_00:00:00").
Proof.
  destruct (create_model_tensorboard example_args "2019-01-01_00:00:00" "cnn"
              ∅ ∅ ∅) as (kw & made & c & Hrun & Hc & _ & Hdef & _).
  - reflexivity.
  - vm_compute. reflexivity.
  - vm_compute. reflexivity.
  - exists kw, made, c. split; [exact Hrun|]. split; [exact Hc|].
    rewrite Hdef; vm_compute; reflexivity.
Defined.




End ModelMoreExamples.

Section LabelTableMoreExamples.
Import LabelTable.
Local Open Scope string_scope.

Lemma make_label2onehot_row_in_range_witness :
  ∃ label2int OH,
    make_label2onehot ["one"; "two"; "three"] = Ok (label2int, OH) ∧
    (0 ≤ lookup label2int "four" ≤ 3)%Z ∧
    length OH = 3%nat ∧
    (is_Some (OH !! Z.to_nat (lookup label2int "four")) ↔
     "four" ∈ ["one"; "two"; "three"]).
Proof.
  eexists _, _. split; [reflexivity|].
  eapply (make_label2onehot_row_in_range ["one"; "two"; "three"]).
  reflexivity.
Defined.

Lemma make_label2onehot_round_trip_witness :
  ∃ label2int OH row,
    make_label2onehot ["one"; "two"; "three"] = Ok (label2int, OH) ∧
    OH !! Z.to_nat (lookup label2int "two") = Some row ∧
    argmax row = 1%nat ∧
    ["one"; "two"; "three"] !! argmax row = Some "two".
Proof.
  destruct (make_label2onehot_round_trip ["one"; "two"; "three"]
              _ _ 1 "two" eq_refl eq_refl) as (row & Hrow & Hmax & Hlabel).
  eexists _, _, row. split; [reflexivity|]. by split_and!.
Defined.

End LabelTableMoreExamples.

Section CountDimSizesMoreExamples.
Import DimSizes.

Lemma count_dim_sizes_order_witness :
  count_dim_sizes lengths_dataset 0 1 = Ok [[(2, 2); (2, 3); (1, 5)]] ∧
  Forall (StronglySorted before_in_row) [[(2, 2); (2, 3); (1, 5)]].
Proof.
  split; [vm_compute; reflexivity|].
  apply (count_dim_sizes_order lengths_dataset 0 1).
  vm_compute. reflexivity.
Defined.

Lemma count_dim_sizes_ill_shaped_witness :
  ∃ e, count_dim_sizes [[[3; 4]]; [[3]]] 0 2 = Raise e.
Proof.
  apply count_dim_sizes_ill_shaped.
  right. left. intros shape [= <-]. discriminate.
Defined.

Lemma count_dim_sizes_total_witness :
  ∃ rows,
    count_dim_sizes lengths_dataset 0 1 = Ok rows ∧
    length rows = 1%nat ∧
    Forall (λ row, sum_of row.*1 = 5) rows.
Proof.
  apply (count_dim_sizes_total lengths_dataset 0 1).
  - lia.
  - unfold lengths_dataset, int32_max.
    repeat constructor; eexists; (split_and!; [reflexivity..|]);
      repeat constructor; lia.
  - unfold int32_max. cbn. lia.
Defined.

Lemma count_dim_sizes_uniform_witness :
  count_dim_sizes example_dataset 0 2 = Ok [[(10, 3)]; [(10, 4)]].
Proof.
  apply (count_dim_sizes_uniform example_dataset 0 2 [3; 4]).
  - discriminate.
  - unfold int32_max. cbn. lia.
  - by apply Forall_replicate.
  - lia.
  - reflexivity.
  - unfold int32_max. repeat constructor; lia.
Defined.


End CountDimSizesMoreExamples.

Section ExtractFeaturesMoreExamples.
Import TfUtil ExactFloat.
Local Open Scope string_scope.

Lemma extract_features_unknown_feattype_witness :
  extract_features example_signals [16000] "MFCC" ∅ ∅ ∅ ∅ ∅ ∅ =
    Ok (spectrograms example_signals 16000 ∅).
Proof.
  rewrite (extract_features_unknown_feattype example_signals [16000] 16000
             "MFCC" ∅ ∅ ∅ ∅ ∅ ∅).
  - vm_compute. reflexivity.
  - reflexivity.
  - split; [discriminate | by repeat constructor].
  - apply (bool_decide_unpack _). vm_compute. exact I.
Defined.


End ExtractFeaturesMoreExamples.

Section TransposeMoreExamples.
Import Features.

Lemma mfcc_transposed_back_witness :
  transpose uninit (mfcc example_utterance false 1%Z ∅) =
    example_mfcc [10; 20; 30].
Proof.
  apply (mfcc_transposed_back (L := example_librosa)
           [10; 20; 30]%Z 16000 false 1%Z ∅).
  split; [reflexivity | by repeat constructor].
Defined.

End TransposeMoreExamples.

(** ** commands/model.py: predict *)

Section PredictFacts.
Import Model ModelPredict.
Context `{FM : FloatModel} `{PT : PredictToolkit}.
Local Open Scope string_scope.

Lemma foldl_extract_step items : ∀ us ps,
  foldl extract_step (us, ps) items =
    ((us ++ (extracted items).*2)%list, (ps ++ (extracted items).*1)%list).
Proof.
  induction items as [|[path [u|]] items IH]; intros us ps; cbn.
  - by rewrite !app_nil_r.
  - unfold extracted in *. rewrite IH. cbn. by rewrite <- !app_assoc.
  - apply IH.
Qed.


Lemma insort_perm {A} (lt : A → A → bool) (x : A) (l : list A) :
  insort lt x l ≡ₚ x :: l.
Proof.
  induction l as [|y l IH]; cbn [insort]; [done|].
  destruct (lt x y); [done|]. rewrite IH. apply Permutation_swap.
Qed.

Lemma py_sorted_perm {A} (lt : A → A → bool) (items : list A) :
  py_sorted lt items ≡ₚ items.
Proof.
  unfold py_sorted.
  assert (Hgen : ∀ acc, foldl (λ acc x, insort lt x acc) acc items
                        ≡ₚ (acc ++ items)%list).
  { induction items as [|x items IH]; intros acc; cbn [foldl].
    - by rewrite app_nil_r.
    - rewrite IH, insort_perm.
      by rewrite <- Permutation_middle. }
  apply Hgen.
Qed.

Lemma insort_by_key (x : Z * string) (l : list (Z * string)) :
  x.1 ∉ l.*1 →
  StronglySorted (λ a b, a.1 < b.1)%Z l →
  StronglySorted (λ a b, a.1 < b.1)%Z (insort tuple_lt x l).
Proof.
  intros Hx Hsorted. induction Hsorted as [|y l Hl IH Hy]; cbn [insort].
  { repeat constructor. }
  rewrite fmap_cons, not_elem_of_cons in Hx. destruct Hx as [Hxy Hx].
  unfold tuple_lt at 1.
  destruct (Z.eqb_spec x.1 y.1) as [|_]; [done|].
  destruct (Z.ltb_spec x.1 y.1) as [Hlt|Hge].
  - constructor; [by constructor|]. constructor; [done|].
    eapply Forall_impl; [exact Hy|]. cbn. lia.
  - constructor; [by apply IH|].
    rewrite insort_perm. constructor; [lia | done].
Qed.

Lemma py_sorted_by_key (items : list (Z * string)) :
  NoDup items.*1 →
  StronglySorted (λ a b, a.1 < b.1)%Z (py_sorted tuple_lt items).
Proof.
  unfold py_sorted.
  assert (Hgen : ∀ acc,
            NoDup (acc ++ items)%list.*1 →
            StronglySorted (λ a b, a.1 < b.1)%Z acc →
            StronglySorted (λ a b, a.1 < b.1)%Z
              (foldl (λ acc x, insort tuple_lt x acc) acc items)).
  { induction items as [|x items IH]; intros acc Hnodup Hacc; cbn [foldl];
      [done|].
    rewrite fmap_app, fmap_cons in Hnodup.
    apply IH.
    - rewrite fmap_app, insort_perm, fmap_cons.
      by rewrite <- Permutation_middle in Hnodup.
    - apply insort_by_key; [|done].
      apply NoDup_app in Hnodup as (_ & Hdisj & _).
      intros Hin. apply (Hdisj _ Hin). by left. }
  intros Hnodup. apply Hgen; [done | constructor].
Qed.

Lemma dict_set_fresh (d : list (Z * string)) (k : Z) (v : string) :
  k ∉ d.*1 → dict_set d k v = (d ++ [(k, v)])%list.
Proof.
  induction d as [|[k' v'] d IH]; intros Hk; cbn; [done|].
  rewrite fmap_cons, not_elem_of_cons in Hk. destruct Hk as [Hne Hk].
  destruct (Z.eqb_spec k' k) as [->|_]; [done|]. by rewrite IH.
Qed.

Lemma ordered_dict_distinct (pairs : list (Z * string)) :
  NoDup pairs.*1 → ordered_dict pairs = pairs.
Proof.
  unfold ordered_dict.
  assert (Hgen : ∀ acc, NoDup (acc ++ pairs)%list.*1 →
            foldl (λ d '(k, v), dict_set d k v) acc pairs
              = (acc ++ pairs)%list).
  { induction pairs as [|[k v] pairs IH]; intros acc Hnodup; cbn [foldl].
    - by rewrite app_nil_r.
    - rewrite dict_set_fresh.
      + rewrite IH; [by rewrite <- app_assoc|]. by rewrite <- app_assoc.
      + rewrite fmap_app in Hnodup.
        apply NoDup_app in Hnodup as (_ & Hdisj & _).
        intros Hin. apply (Hdisj _ Hin). by left. }
  intros Hnodup. by apply (Hgen []).
Qed.

Lemma sorted_in_range (l : list Z) : ∀ lo : Z,
  StronglySorted Z.lt l →
  Forall (λ x, lo ≤ x < lo + Z.of_nat (length l))%Z l →
  l = seqZ lo (Z.of_nat (length l)).
Proof.
  induction l as [|x l IH]; intros lo Hsorted Hrange; [done|].
  apply StronglySorted_inv in Hsorted as [Hsorted Hx].
  apply Forall_cons in Hrange as [Hxr Hrange]. cbn [length] in *.
  assert (Hl : l = seqZ (Z.succ lo) (Z.of_nat (length l))).
  { apply IH; [done|]. apply Forall_forall. intros y Hy.
    rewrite Forall_forall in Hx, Hrange.
    specialize (Hx y Hy). specialize (Hrange y Hy). lia. }
  rewrite Nat2Z.inj_succ, seqZ_cons by lia. rewrite Z.pred_succ.
  f_equal; [|done].
  destruct l as [|y l]; [cbn in Hxr; lia|].
  cbn [length] in Hl. rewrite Nat2Z.inj_succ, seqZ_cons in Hl by lia.
  injection Hl as Hy _. apply Forall_cons in Hx as [Hxy _]. lia.
Qed.

(** X22. The header predict prints lines up with the scores: when the
    indices of label_to_index are 0, ..., n-1 in some order, index_to_label
    has these keys in ascending order, and column k of the header is the
    label whose index is k, in whatever order the labels were entered. *)
Theorem index_to_label_by_index (label_to_index : list (string * Z)) :
  label_to_index.*2 ≡ₚ seqZ 0 (Z.of_nat (length label_to_index)) →
  (index_to_label label_to_index).*1 =
    seqZ 0 (Z.of_nat (length label_to_index)) ∧
  ∀ (k : nat) (label : string),
    (index_to_label label_to_index).*2 !! k = Some label ↔
    (label, Z.of_nat k) ∈ label_to_index.
Proof.
  intros Hindices. unfold index_to_label.
  set (swapped := (λ '(label, i), (i, label)) <$> label_to_index).
  assert (Hkeys : swapped.*1 = label_to_index.*2).
  { unfold swapped. rewrite <- list_fmap_compose.
    apply list_fmap_ext. by intros _ [label i] _. }
  assert (Hnodup : NoDup swapped.*1).
  { rewrite Hkeys, Hindices. apply NoDup_seqZ. }
  pose proof (py_sorted_perm tuple_lt swapped) as Hperm.
  pose proof (py_sorted_by_key swapped Hnodup) as Hsorted.
  set (pairs := py_sorted tuple_lt swapped) in *.
  assert (Hlen : length pairs = length label_to_index).
  { rewrite Hperm. unfold swapped. by rewrite length_fmap. }
  assert (Hpk : pairs.*1 ≡ₚ seqZ 0 (Z.of_nat (length label_to_index))).
  { by rewrite Hperm, Hkeys. }
  rewrite ordered_dict_distinct by (by rewrite Hperm).
  assert (Hseq : pairs.*1 = seqZ 0 (Z.of_nat (length label_to_index))).
  { rewrite <- Hlen, <- (length_fmap fst pairs). apply sorted_in_range.
    - clear -Hsorted. induction Hsorted as [|p l _ IH Hp]; cbn;
        constructor; [done|]. by apply Forall_fmap.
    - rewrite length_fmap, Hlen. apply Forall_forall. intros x Hx.
      rewrite Hpk in Hx. apply elem_of_seqZ in Hx. lia. }
  split; [done|]. intros k label.
  assert (Hmem : ∀ i l, (i, l) ∈ pairs ↔ (l, i) ∈ label_to_index).
  { intros i l. rewrite Hperm. unfold swapped. rewrite list_elem_of_fmap.
    split.
    - by intros ([l' i'] & [= -> ->] & Hin).
    - intros Hin. by exists (l, i). }
  rewrite list_lookup_fmap. split.
  - destruct (pairs !! k) as [[i l]|] eqn:Hk; [|done]. intros [= ->].
    assert (Hi : pairs.*1 !! k = Some i)
      by (by rewrite list_lookup_fmap, Hk).
    rewrite Hseq in Hi. apply lookup_seqZ in Hi as [-> _].
    rewrite Z.add_0_l in Hk. apply Hmem. by eapply list_elem_of_lookup_2.
  - intros Hin%Hmem. apply list_elem_of_lookup in Hin as [j Hj].
    assert (Hi : pairs.*1 !! j = Some (Z.of_nat k))
      by (by rewrite list_lookup_fmap, Hj).
    rewrite Hseq in Hi. apply lookup_seqZ in Hi as [Hi _].
    assert (j = k) as -> by lia. by rewrite Hj.
Qed.

End PredictFacts.

Section PredictExamples.
Import Model ModelPredict.
Local Open Scope string_scope.


Lemma index_to_label_by_index_witness :
  (index_to_label [("swe", 2); ("eng", 0); ("fin", 1)]).*1 = [0; 1; 2] ∧
  ((index_to_label [("swe", 2); ("eng", 0); ("fin", 1)]).*2 !! 1%nat
     = Some "fin" ↔
   ("fin", 1) ∈ [("swe", 2); ("eng", 0); ("fin", 1)]).
Proof.
  destruct (index_to_label_by_index [("swe", 2); ("eng", 0); ("fin", 1)])
    as [Hkeys Hcolumns].
  - cbn. rewrite (Permutation_swap 0 2 [1]). apply perm_skip.
    apply Permutation_swap.
  - split; [exact Hkeys | exact (Hcolumns 1%nat "fin")].
Defined.

End PredictExamples.
